(** * nft_market_go: the order mirror, its stores, the Redis lock, the
      marketplace scanner and the HTTP layer

    A shallow embedding of the Go packages [internal/lock], [internal/store],
    [internal/chain] and [internal/ipfs], and of the configuration and the
    routes of [cmd/server]; the order status operation of the HTTP layer
    is modelled from the specification.  Everything the Go code reaches
    over the network (Redis, MySQL, the chain RPC, Pinata) is explicit
    state or an explicit argument:

    - Redis is a finite map from keys to the value and the TTL it was set
      with; a key whose TTL has run out is simply absent from the map.
    - The [orders] and [nft_assets] tables are lists of rows in insertion
      order, with their nullable columns as [option]; the two UNIQUE
      indexes of [orders] decide what its upsert statement does.
    - Every round trip to Redis or MySQL first consults a script [io] of
      outcomes, so that a driver or transport failure can be placed at any
      call; a failed round trip never reaches the server.
    - The answers of the chain client are arguments of the scan loops, and
      the course of an upload to Pinata is an argument of [UploadFile].

    Timestamps ([created_at], [updated_at]) are not part of the rows: the
    two queries that sort by [updated_at] take the order in which the
    server hands the rows out as an argument.  The timeouts of the
    contexts and the log lines the Go code prints are not part of the
    model.  The [price] column of [orders] is DECIMAL(36,0) NOT NULL: the
    decimal numerals it can hold are stored and read as the text they
    are sent in, and [Upsert] writes every price so; what the server
    does with any other text is an argument of [UpsertOn].

    The file has three parts: the definitions, package by package; their
    properties; the properties at concrete inputs. *)

From stdpp Require Import gmap strings list pretty.
From Stdlib Require Import ZArith Lia.

Open Scope string_scope.
Open Scope list_scope.
Open Scope Z_scope.

(** ** Go's fixed-width integers and the errors the packages return *)

Module Go.

(** [uint64(z)]: arithmetic on block numbers wraps modulo 2^64. *)
Definition uint64 (z : Z) : Z := z mod 2 ^ 64.

(** [big.Int.Int64()] of a non-negative integer: the low 64 bits read as a
    two's-complement number. *)
Definition Int64 (z : Z) : Z := (z + 2 ^ 63) mod 2 ^ 64 - 2 ^ 63.

(** [strings.Contains]. *)
Definition Contains (s substr : string) : bool :=
  match String.index 0 substr s with
  | Some _ => true
  | None => false
  end.

(** The values of Go's [error] interface that occur in these packages. *)
Inductive error : Type :=
| ErrLockNotAcquired            (* lock.ErrLockNotAcquired *)
| ErrNoRows                     (* sql.ErrNoRows *)
| ErrDuplicateEntry             (* MySQL error 1062 *)
| ErrIncorrectDecimal           (* MySQL error 1366 *)
| ErrOutOfRange                 (* MySQL error 1264 *)
| ErrUnpack                     (* abi: the log data does not decode *)
| ErrIO (msg : string).         (* any driver, transport or RPC failure *)

(** [err.Error()]. *)
Definition Error (e : error) : string :=
  match e with
  | ErrLockNotAcquired => "lock not acquired"
  | ErrNoRows => "sql: no rows in result set"
  | ErrDuplicateEntry => "Error 1062: Duplicate entry"
  | ErrIncorrectDecimal => "Error 1366: Incorrect decimal value"
  | ErrOutOfRange => "Error 1264: Out of range value"
  | ErrUnpack => "abi: cannot marshal in to go type: length insufficient"
  | ErrIO msg => msg
  end.

(** A Go result pair [(v, err)]. *)
Inductive result (A : Type) : Type :=
| Ok (v : A)
| Err (e : error).
Arguments Ok {A} v.
Arguments Err {A} e.

End Go.
Export Go.

(** ** The data model of package [store] *)

(** [store.OrderStatus] is a Go string type with seven named values; the
    [status] column is a VARCHAR. *)
Definition OrderStatus : Type := string.
Definition OrderStatusInit : OrderStatus := "INIT".
Definition OrderStatusListed : OrderStatus := "LISTED".
Definition OrderStatusLocked : OrderStatus := "LOCKED".
Definition OrderStatusSettling : OrderStatus := "SETTLING".
Definition OrderStatusSuccess : OrderStatus := "SUCCESS".
Definition OrderStatusFailed : OrderStatus := "FAILED".
Definition OrderStatusCanceled : OrderStatus := "CANCELED".

Module Order.

(** The Go struct [store.Order] (without its two timestamps). *)
Record t : Type := mk {
  OrderID : Z;
  ListingID : Z;
  Seller : string;
  Buyer : string;
  NFTName : string;
  NFTAddress : string;
  URL : string;
  TokenID : Z;
  Amount : Z;
  Price : string;
  Status : OrderStatus;
  TxHash : string;
  Deleted : Z
}.

(** A row of the [orders] table: [listing_id], [buyer], [nft_name], [url]
    and [tx_hash] are nullable; [listing_id] and [tx_hash] each carry a
    UNIQUE index. *)
Record row : Type := mkRow {
  order_id : Z;
  listing_id : option Z;
  seller : string;
  buyer : option string;
  nft_name : option string;
  nft_address : string;
  url : option string;
  token_id : Z;
  amount : Z;
  price : string;
  status : OrderStatus;
  tx_hash : option string;
  deleted : Z
}.

(** Assignments to single fields of an [Order]. *)
Definition set_Buyer (b : string) (o : t) : t :=
  mk (OrderID o) (ListingID o) (Seller o) b (NFTName o) (NFTAddress o)
     (URL o) (TokenID o) (Amount o) (Price o) (Status o) (TxHash o)
     (Deleted o).
Definition set_Status (s : OrderStatus) (o : t) : t :=
  mk (OrderID o) (ListingID o) (Seller o) (Buyer o) (NFTName o) (NFTAddress o)
     (URL o) (TokenID o) (Amount o) (Price o) s (TxHash o)
     (Deleted o).
Definition set_TxHash (h : string) (o : t) : t :=
  mk (OrderID o) (ListingID o) (Seller o) (Buyer o) (NFTName o) (NFTAddress o)
     (URL o) (TokenID o) (Amount o) (Price o) (Status o) h
     (Deleted o).
Definition set_Price (p : string) (o : t) : t :=
  mk (OrderID o) (ListingID o) (Seller o) (Buyer o) (NFTName o) (NFTAddress o)
     (URL o) (TokenID o) (Amount o) p (Status o) (TxHash o)
     (Deleted o).

End Order.

Module NftAsset.

(** The Go struct [store.NftAsset] (without its two timestamps). *)
Record t : Type := mk {
  ID : Z;
  Name : string;
  Owner : string;
  CID : string;
  URL : string;
  TokenID : Z;          (* 0 means "not minted yet" when NULL in DB *)
  NFTAddress : string;  (* empty when NULL in DB *)
  Amount : Z;           (* 0 when NULL in DB *)
  Deleted : Z
}.

(** A row of the [nft_assets] table: [token_id], [nft_address] and
    [amount] are nullable. *)
Record row : Type := mkRow {
  id : Z;
  name : string;
  owner : string;
  cid : string;
  url : string;
  token_id : option Z;
  nft_address : option string;
  amount : option Z;
  deleted : Z
}.

End NftAsset.

(** ** The world outside the process *)

Record World : Type := mkWorld {
  redis : gmap string (string * Z);   (* key -> (value, TTL it was set with) *)
  orders : list Order.row;
  next_order_id : Z;                  (* the key of the next row of [orders] *)
  nft_assets : list NftAsset.row;
  next_asset_id : Z;                  (* the key of the next row of [nft_assets] *)
  io : list (option string)           (* outcomes of the round trips to come *)
}.

Definition set_redis (r : gmap string (string * Z)) (w : World) : World :=
  mkWorld r (orders w) (next_order_id w) (nft_assets w) (next_asset_id w) (io w).
Definition set_orders (o : list Order.row) (w : World) : World :=
  mkWorld (redis w) o (next_order_id w) (nft_assets w) (next_asset_id w) (io w).
Definition set_next_order_id (n : Z) (w : World) : World :=
  mkWorld (redis w) (orders w) n (nft_assets w) (next_asset_id w) (io w).
Definition set_nft_assets (a : list NftAsset.row) (w : World) : World :=
  mkWorld (redis w) (orders w) (next_order_id w) a (next_asset_id w) (io w).
Definition set_next_asset_id (n : Z) (w : World) : World :=
  mkWorld (redis w) (orders w) (next_order_id w) (nft_assets w) n (io w).
Definition set_io (s : list (option string)) (w : World) : World :=
  mkWorld (redis w) (orders w) (next_order_id w) (nft_assets w) (next_asset_id w) s.

(** A world in which every round trip is served. *)
Definition healthy (w : World) : World := set_io [] w.

(** Code that talks to the world: a state monad over [World]. *)
Definition M (A : Type) : Type := World -> A * World.

Definition ret {A} (a : A) : M A := fun w => (a, w).
Definition bind {A B} (c : M A) (k : A -> M B) : M B :=
  fun w => let (a, w') := c w in k a w'.
Definition gets {A} (f : World -> A) : M A := fun w => (f w, w).
Definition modify (f : World -> World) : M unit := fun w => (tt, f w).

Notation "'let*' x ':=' c 'in' k" := (bind c (fun x => k))
  (at level 10, x name, c at level 200, k at level 200).
Notation "'exec' c 'in' k" := (bind c (fun _ => k))
  (at level 10, c at level 200, k at level 200).

(** One round trip: the next scripted outcome, [None] when it is served.
    An empty script serves every call. *)
Definition roundtrip : M (option error) :=
  fun w =>
    match io w with
    | [] => (None, w)
    | o :: rest => (ErrIO <$> o, set_io rest w)
    end.

(** ** Package [lock]: Redis locks *)

Module Lock.

(** [RedisLocker] and [RedisLock]; the [client] field of both is the
    shared connection, here the [redis] component of the world. *)
Record RedisLocker : Type := { prefix : string }.
Record RedisLock : Type := { key : string; value : string }.

Definition NewRedisLocker (prefix : string) : RedisLocker :=
  {| prefix := if decide (prefix = "") then "lock:" else prefix |}.

(** [hex.EncodeToString]. *)
Definition hexdigit (n : Z) : string :=
  String.substring (Z.to_nat n) 1 "0123456789abcdef".
Definition hexbyte (b : Z) : string :=
  hexdigit (Z.land (Z.shiftr b 4) 15) +:+ hexdigit (Z.land b 15).
Definition EncodeToString (bs : list Z) : string :=
  foldr (fun b acc => hexbyte b +:+ acc) "" bs.

(** [byte(x)]: the low eight bits. *)
Definition byte (x : Z) : Z := Z.land x 255.

(** [randomLockValue]: [entropy] is what [crypto/rand.Read] delivered for
    the 16-byte buffer ([None] when it failed), [now] is
    [time.Now().UnixNano()]. *)
Definition randomLockValue (entropy : option (list Z)) (now : Z) : string :=
  match entropy with
  | None =>
      EncodeToString
        [ byte (Z.shiftr now 56); byte (Z.shiftr now 48);
          byte (Z.shiftr now 40); byte (Z.shiftr now 32);
          byte (Z.shiftr now 24); byte (Z.shiftr now 16);
          byte (Z.shiftr now 8); byte now ]
  | Some b => EncodeToString b
  end.

(** What [rand.Read(b)] leaves of the buffer [make([]byte, 16)]: sixteen
    bytes when it succeeds. *)
Definition drawn (entropy : option (list Z)) : Prop :=
  match entropy with
  | Some b => length b = 16%nat /\ Forall (fun x => 0 <= x < 256) b
  | None => True
  end.

(** Redis [SET key value NX] with the given TTL, as [client.SetNX] sends
    it: the reply is [true] when the key was absent and is now set.  (A
    TTL of 0 is sent as a plain SETNX, a key that does not expire.) *)
Definition SetNX (key value : string) (ttl : Z) : M (result bool) :=
  let* e := roundtrip in
  match e with
  | Some err => ret (Err err)
  | None =>
      let* r := gets redis in
      match r !! key with
      | Some _ => ret (Ok false)
      | None => exec modify (set_redis (<[key := (value, ttl)]> r)) in ret (Ok true)
      end
  end.

(** Redis running the release script with [KEYS[1] = key] and
    [ARGV[1] = value]: one command, so nothing runs between its GET and
    its DEL. *)
Definition Eval_release (key value : string) : M (option error) :=
  let* e := roundtrip in
  match e with
  | Some err => ret (Some err)
  | None =>
      let* r := gets redis in
      match r !! key with
      | Some (v, _) =>
          if decide (v = value)
          then exec modify (set_redis (delete key r)) in ret None
          else ret None
      | None => ret None
      end
  end.

(** [RedisLocker.Acquire]. *)
Definition Acquire (l : RedisLocker) (entropy : option (list Z)) (now : Z)
    (key : string) (ttl : Z) : M (result RedisLock) :=
  let fullKey := prefix l +:+ key in
  let value := randomLockValue entropy now in
  let* r := SetNX fullKey value ttl in
  match r with
  | Err err => ret (Err err)
  | Ok false => ret (Err ErrLockNotAcquired)
  | Ok true => ret (Ok {| key := fullKey; value := value |})
  end.

(** [RedisLock.Release]. *)
Definition Release (l : RedisLock) : M (option error) :=
  Eval_release (key l) (value l).

(** The passage of time as Redis sees it: the TTL of [k] runs out. *)
Definition expire (k : string) (w : World) : World :=
  set_redis (delete k (redis w)) w.

(** The current value of a key, without its TTL. *)
Definition current (k : string) (w : World) : option string :=
  fst <$> redis w !! k.

End Lock.

(** ** Package [store]: the [orders] table *)

Module OrderStore.
Import Order.

(** What [row.Scan] fills in from the SELECT list of [getOrderByID], with
    its [IFNULL] defaults. *)
Definition scan (r : row) : t :=
  {| OrderID := order_id r;
     ListingID := default 0 (listing_id r);
     Seller := seller r;
     Buyer := default "" (buyer r);
     NFTName := default "" (nft_name r);
     NFTAddress := nft_address r;
     URL := default "" (url r);
     TokenID := token_id r;
     Amount := amount r;
     Price := price r;
     Status := status r;
     TxHash := default "" (tx_hash r);
     Deleted := deleted r |}.

(** The VALUES list of the INSERT as a new row with primary key [id]. *)
Definition inserted (id : Z) (o : t) : row :=
  {| order_id := id;
     listing_id := Some (ListingID o);
     seller := Seller o;
     buyer := Some (Buyer o);
     nft_name := Some (NFTName o);
     nft_address := NFTAddress o;
     url := Some (URL o);
     token_id := TokenID o;
     amount := Amount o;
     price := Price o;
     status := Status o;
     tx_hash := Some (TxHash o);
     deleted := Deleted o |}.

(** The assignments after ON DUPLICATE KEY UPDATE: every column but
    [order_id] and [listing_id]. *)
Definition assign (o : t) (r : row) : row :=
  {| order_id := order_id r;
     listing_id := listing_id r;
     seller := Seller o;
     buyer := Some (Buyer o);
     nft_name := Some (NFTName o);
     nft_address := NFTAddress o;
     url := Some (URL o);
     token_id := TokenID o;
     amount := Amount o;
     price := Price o;
     status := Status o;
     tx_hash := Some (TxHash o);
     deleted := Deleted o |}.

Definition has_listing (l : Z) (r : row) : bool :=
  bool_decide (listing_id r = Some l).
Definition has_tx (h : string) (r : row) : bool :=
  bool_decide (tx_hash r = Some h).

(** The first row that satisfies [p], with the rows before and after it. *)
Fixpoint split_first (p : row -> bool) (rows : list row)
    : option (list row * row * list row) :=
  match rows with
  | [] => None
  | r :: rs =>
      if p r then Some ([], r, rs)
      else match split_first p rs with
           | Some (pre, x, post) => Some (r :: pre, x, post)
           | None => None
           end
  end.

(** The INSERT ... ON DUPLICATE KEY UPDATE statement against the table.
    MySQL tries the unique indexes in the order of the schema,
    [uk_orders_listing_id] before [uk_orders_tx_hash], and updates the
    row of the first one that reports a duplicate; the update itself
    fails with error 1062 when it would give that row the [tx_hash] of
    another one.  Without a duplicate the row is appended under the next
    AUTO_INCREMENT value.  The counter moves on an insertion only: the
    values InnoDB may pass over on the duplicate path are not modelled,
    and no property below reads the counter after such a statement. *)
Definition upsert_statement (o : t) (w : World) : option error * World :=
  match split_first (has_listing (ListingID o)) (orders w) with
  | Some (pre, r, post) =>
      if existsb (has_tx (TxHash o)) (pre ++ post)
      then (Some ErrDuplicateEntry, w)
      else (None, set_orders (pre ++ assign o r :: post) w)
  | None =>
      match split_first (has_tx (TxHash o)) (orders w) with
      | Some (pre, r, post) =>
          (None, set_orders (pre ++ assign o r :: post) w)
      | None =>
          (None,
           set_next_order_id (next_order_id w + 1)
             (set_orders (orders w ++ [inserted (next_order_id w) o]) w))
      end
  end.

(** [upsertOrder]; the executor (pool or transaction) is the world.  The
    price is written as the text it is sent in, which is what the
    DECIMAL(36,0) column does with the numerals it can hold. *)
Definition upsertOrder (o : t) : M (option error) :=
  let* e := roundtrip in
  match e with
  | Some err => ret (Some err)
  | None => upsert_statement o
  end.

(** [Upsert] and [UpsertTx]. *)
Definition Upsert (o : t) : M (option error) := upsertOrder o.
Definition UpsertTx (o : t) : M (option error) := upsertOrder o.

(** The [price] column is DECIMAL(36,0) NOT NULL, and [Order.Price] is a
    Go string that the driver sends as text.  A [Column] is what the
    server makes of such a text: the decimal text it stores, which is the
    text that reads back, or the error with which it refuses the
    statement.  For a text that is no numeral of at most 36 digits, the
    empty text of a placeholder among them, the answer depends on the SQL
    mode of the server, which the repository does not set: in strict
    mode, the default of MySQL, the statement is refused with error 1366
    or 1264; otherwise the nearest value is stored, 0 for the empty
    text. *)
Definition Column : Type := string -> result string.

(** [upsertOrder] against a server with the price column [column]: the
    value is converted before any key is looked at, and a refused value
    ends the statement with nothing written. *)
Definition upsertOrderOn (column : Column) (o : t) : M (option error) :=
  let* e := roundtrip in
  match e with
  | Some err => ret (Some err)
  | None =>
      match column (Price o) with
      | Err err => ret (Some err)
      | Ok p => upsert_statement (set_Price p o)
      end
  end.

(** [Upsert] against a server with the price column [column]. *)
Definition UpsertOn (column : Column) (o : t) : M (option error) :=
  upsertOrderOn column o.

(** [getOrderByID]: [forUpdate] only appends FOR UPDATE to the query,
    which reads the same row.  The row lock it takes belongs to the
    transaction of the caller and is kept with it ([Api.perform]). *)
Definition getOrderByID (listingID : Z) (forUpdate : bool) : M (result t) :=
  let* e := roundtrip in
  match e with
  | Some err => ret (Err err)
  | None =>
      let* rows := gets orders in
      match find (has_listing listingID) rows with
      | Some r => ret (Ok (scan r))
      | None => ret (Err ErrNoRows)
      end
  end.

(** [GetByID] and [GetByIDForUpdateTx]. *)
Definition GetByID (listingID : Z) : M (result t) :=
  getOrderByID listingID false.
Definition GetByIDForUpdateTx (listingID : Z) : M (result t) :=
  getOrderByID listingID true.

(** [ListRecent]: WHERE deleted = 0 ORDER BY updated_at DESC LIMIT ?.
    The rows of the model carry no timestamps: [newest_first] is the order
    in which the server hands the selected rows out. *)
Definition ListRecent (newest_first : list row -> list row) (limit : Z)
    : M (result (list t)) :=
  let limit := if limit <=? 0 then 50 else limit in
  let* e := roundtrip in
  match e with
  | Some err => ret (Err err)
  | None =>
      let* rows := gets orders in
      let selected := filter (fun r => deleted r = 0) rows in
      ret (Ok (scan <$> take (Z.to_nat limit) (newest_first selected)))
  end.

(** A struct with another primary key; the statement does not write the
    key the struct carries. *)
Definition with_OrderID (n : Z) (o : t) : t :=
  mk n (ListingID o) (Seller o) (Buyer o) (NFTName o) (NFTAddress o) (URL o)
     (TokenID o) (Amount o) (Price o) (Status o) (TxHash o) (Deleted o).

(** The row with listing id [l] after a successful write of [o]: the
    found row with the new values, or a new row under the key [n]. *)
Definition written (o : t) (found : option row) (n : Z) : row :=
  match found with
  | Some r => assign o r
  | None => inserted n o
  end.

(** No row but the first one with listing id [l] carries the
    transaction hash [h]. *)
Definition rest_lacks (h : string) (l : Z) (rows : list row) : Prop :=
  match split_first (has_listing l) rows with
  | Some (pre, _, post) => existsb (has_tx h) (pre ++ post) = false
  | None => existsb (has_tx h) rows = false
  end.

(** The keys of the table as the schema constrains them: [order_id] is
    the primary key and lies below the next AUTO_INCREMENT value;
    [listing_id] and [tx_hash] are unique where they are not NULL. *)
Definition well_keyed (w : World) : Prop :=
  NoDup (order_id <$> orders w)
  /\ Forall (fun r => order_id r < next_order_id w) (orders w)
  /\ NoDup (omap listing_id (orders w))
  /\ NoDup (omap tx_hash (orders w)).

(** The two keys of a row that no statement of the store assigns. *)
Definition keys (r : row) : Z * option Z := (order_id r, listing_id r).

(** [w1] comes from [w] by statements of the order store: no row is
    removed and no key of a row is changed, the table stays well keyed,
    and nothing outside [orders] is written. *)
Definition extends (w w1 : World) : Prop :=
  (keys <$> orders w) `prefix_of` (keys <$> orders w1)
  /\ (well_keyed w -> well_keyed w1)
  /\ redis w1 = redis w
  /\ nft_assets w1 = nft_assets w
  /\ next_asset_id w1 = next_asset_id w.

End OrderStore.

(** ** Package [store]: the [nft_assets] table *)

Module NftAssetStore.
Import NftAsset.

(** [sql.NullInt64{Int64: v, Valid: v != 0}] and
    [sql.NullString{String: s, Valid: s != ""}] as column values. *)
Definition NullInt64 (v : Z) : option Z :=
  if bool_decide (v = 0) then None else Some v.
Definition NullString (s : string) : option string :=
  if bool_decide (s = "") then None else Some s.

(** What [row.Scan] fills in from the SELECT list shared by [GetByID],
    [ListByOwner] and [GetByNFT], with its [IFNULL] defaults. *)
Definition scan (r : row) : t :=
  {| ID := id r;
     Name := name r;
     Owner := owner r;
     CID := cid r;
     URL := url r;
     TokenID := default 0 (token_id r);
     NFTAddress := default "" (nft_address r);
     Amount := default 0 (amount r);
     Deleted := deleted r |}.

(** [Insert]: the new row and [res.LastInsertId()]. *)
Definition Insert (a : t) : M (result Z) :=
  let* e := roundtrip in
  match e with
  | Some err => ret (Err err)
  | None =>
      let* n := gets next_asset_id in
      let* rows := gets nft_assets in
      let r := {| id := n;
                  name := Name a;
                  owner := Owner a;
                  cid := CID a;
                  url := URL a;
                  token_id := NullInt64 (TokenID a);
                  nft_address := NullString (NFTAddress a);
                  amount := NullInt64 (Amount a);
                  deleted := Deleted a |} in
      exec modify (fun w => set_next_asset_id (n + 1) (set_nft_assets (rows ++ [r]) w)) in
      ret (Ok n)
  end.

(** [GetByID]: WHERE id = ?. *)
Definition GetByID (i : Z) : M (result t) :=
  let* e := roundtrip in
  match e with
  | Some err => ret (Err err)
  | None =>
      let* rows := gets nft_assets in
      match find (fun r => bool_decide (id r = i)) rows with
      | Some r => ret (Ok (scan r))
      | None => ret (Err ErrNoRows)
      end
  end.

(** [ListByOwner]: WHERE owner = ? AND deleted = 0 ORDER BY updated_at
    DESC LIMIT ?, with [newest_first] as in [OrderStore.ListRecent]. *)
Definition ListByOwner (newest_first : list row -> list row) (o : string)
    (limit : Z) : M (result (list t)) :=
  let limit := if limit <=? 0 then 50 else limit in
  let* e := roundtrip in
  match e with
  | Some err => ret (Err err)
  | None =>
      let* rows := gets nft_assets in
      let selected := filter (fun r => owner r = o /\ deleted r = 0) rows in
      ret (Ok (scan <$> take (Z.to_nat limit) (newest_first selected)))
  end.

(** WHERE nft_address = ? AND token_id = ?: a NULL column never
    compares equal. *)
Definition is_nft (nftAddress : string) (tokenID : Z) (r : row) : bool :=
  bool_decide (nft_address r = Some nftAddress)
  && bool_decide (token_id r = Some tokenID).

(** [GetByNFT]: the first matching row (LIMIT 1). *)
Definition GetByNFT (nftAddress : string) (tokenID : Z) : M (result t) :=
  let* e := roundtrip in
  match e with
  | Some err => ret (Err err)
  | None =>
      let* rows := gets nft_assets in
      match find (is_nft nftAddress tokenID) rows with
      | Some r => ret (Ok (scan r))
      | None => ret (Err ErrNoRows)
      end
  end.

(** [ExistsByOwnerAndURL]. *)
Definition ExistsByOwnerAndURL (o u : string) : M (result bool) :=
  let* e := roundtrip in
  match e with
  | Some err => ret (Err err)
  | None =>
      let* rows := gets nft_assets in
      ret (Ok (existsb (fun r => bool_decide (owner r = o)
                                 && bool_decide (url r = u)
                                 && bool_decide (deleted r = 0)) rows))
  end.

(** An UPDATE ... SET ... WHERE statement: [set] on every row that
    satisfies [where_]. *)
Definition update (where_ : row -> bool) (set : row -> row) : M (option error) :=
  let* e := roundtrip in
  match e with
  | Some err => ret (Some err)
  | None =>
      let* rows := gets nft_assets in
      exec modify (set_nft_assets (map (fun r => if where_ r then set r else r) rows)) in
      ret None
  end.

Definition set_deleted (d : Z) (r : row) : row :=
  mkRow (id r) (name r) (owner r) (cid r) (url r)
        (token_id r) (nft_address r) (amount r) d.
Definition set_owner (o : string) (r : row) : row :=
  mkRow (id r) (name r) o (cid r) (url r)
        (token_id r) (nft_address r) (amount r) (deleted r).
Definition set_mint (tokenID : Z) (nftAddress : string) (amt : Z) (r : row) : row :=
  mkRow (id r) (name r) (owner r) (cid r) (url r)
        (Some tokenID) (Some nftAddress) (Some amt) (deleted r).

(** [softDeleteByNFT], [restoreByNFT], [updateOwnerByNFT] with their
    exported and transactional variants, which differ in the executor
    only. *)
Definition softDeleteByNFT (nftAddress : string) (tokenID : Z) : M (option error) :=
  update (is_nft nftAddress tokenID) (set_deleted 1).
Definition restoreByNFT (nftAddress : string) (tokenID : Z) : M (option error) :=
  update (is_nft nftAddress tokenID) (set_deleted 0).
Definition updateOwnerByNFT (nftAddress : string) (tokenID : Z) (newOwner : string)
    : M (option error) :=
  update (is_nft nftAddress tokenID) (fun r => set_deleted 0 (set_owner newOwner r)).

Definition SoftDeleteByNFT := softDeleteByNFT.
Definition SoftDeleteByNFTTx := softDeleteByNFT.
Definition RestoreByNFT := restoreByNFT.
Definition RestoreByNFTTx := restoreByNFT.
Definition UpdateOwnerByNFT := updateOwnerByNFT.
Definition UpdateOwnerByNFTTx := updateOwnerByNFT.

(** [UpdateMintInfo]: WHERE id = ? AND deleted = 0. *)
Definition UpdateMintInfo (i tokenID : Z) (nftAddress : string) (amt : Z)
    : M (option error) :=
  update (fun r => bool_decide (id r = i) && bool_decide (deleted r = 0))
         (set_mint tokenID nftAddress amt).

(** The row that [Insert] writes for [a] under the key [n]. *)
Definition stored (n : Z) (a : t) : row :=
  {| id := n; name := Name a; owner := Owner a; cid := CID a; url := URL a;
     token_id := NullInt64 (TokenID a);
     nft_address := NullString (NFTAddress a);
     amount := NullInt64 (Amount a);
     deleted := Deleted a |}.

(** [a] as it reads back once it has the key [n]. *)
Definition with_ID (n : Z) (a : t) : t :=
  mk n (Name a) (Owner a) (CID a) (URL a) (TokenID a) (NFTAddress a)
     (Amount a) (Deleted a).

(** A row with its unset columns replaced by 0 and the empty string. *)
Definition zeroed (r : row) : row :=
  mkRow (id r) (name r) (owner r) (cid r) (url r)
        (Some (default 0 (token_id r)))
        (Some (default "" (nft_address r)))
        (Some (default 0 (amount r)))
        (deleted r).

End NftAssetStore.

(** ** Package [chain]: the marketplace scanner *)

Module Chain.
Import Order OrderStore.

(** [types.Log]: the topics are 32-byte words, read as the numbers
    0 <= t < 2^256 that [Hash.Big] gives; [Data] is a byte string. *)
Record Log : Type := {
  Topics : list Z;
  Data : list Z;
  TxHash : Z
}.

(** The two renderings of go-ethereum that end up in the table:
    [common.Hash.Hex] and [common.Address.Hex] (the latter with its
    EIP-55 checksum casing). *)
Class EthCodec : Type := {
  Hash_Hex : Z -> string;
  Address_Hex : Z -> string
}.

(** What the scanner uses of the parsed [docs/NFTMarketplace.abi.json]:
    the ids of the three events, and the decoding of the non-indexed
    fields [tokenId], [amount], [price] of a Listed log
    ([abi.UnpackIntoInterface]). *)
Record ABI : Type := {
  Listed_ID : Z;
  Cancelled_ID : Z;
  Sold_ID : Z;
  UnpackListed : list Z -> result (Z * Z * Z)
}.

(** [MarketplaceScanner]; the client and the order store are the world,
    the logger and the poll interval have no effect on it. *)
Record MarketplaceScanner : Type := {
  contract : Z;
  abi : ABI;
  maxBatchBlocks : Z
}.

(** [NewMarketplaceScanner], given the ABI it parsed. *)
Definition NewMarketplaceScanner (contractAddr : Z) (parsedABI : ABI)
    : MarketplaceScanner :=
  {| contract := contractAddr;
     abi := parsedABI;
     maxBatchBlocks := 100 |}.

(** [lg.Topics[i]], used only below a length check. *)
Definition topic (lg : Log) (i : nat) : Z := default 0 (Topics lg !! i).

(** [common.HexToAddress(h.Hex())]: the low 20 bytes of the word. *)
Definition HexToAddress (h : Z) : Z := h mod 2 ^ 160.

Section Handlers.
Context `{EthCodec}.
Variable s : MarketplaceScanner.

(** [handleListed]. *)
Definition handleListed (lg : Log) : M (option error) :=
  if (length (Topics lg) <? 4)%nat then ret None
  else
    let listingID := topic lg 1 in
    let seller := HexToAddress (topic lg 2) in
    let nft := HexToAddress (topic lg 3) in
    match UnpackListed (abi s) (Data lg) with
    | Err err => ret (Some err)
    | Ok (TokenId, Amount, Price) =>
        let order :=
          {| OrderID := 0;
             ListingID := Int64 listingID;
             Seller := Address_Hex seller;
             Buyer := "";
             NFTName := "";
             NFTAddress := Address_Hex nft;
             Order.URL := "";
             TokenID := Int64 TokenId;
             Order.Amount := Int64 Amount;
             Order.Price := pretty Price;
             Status := OrderStatusListed;
             Order.TxHash := Hash_Hex (TxHash lg);
             Deleted := 0 |} in
        Upsert order
    end.

(** [handleCancelled], with the [Upsert] of [s.store] as an argument:
    the store writes to a server whose price column keeps every text
    ([Upsert]) or to one with a given price column ([UpsertOn]). *)
Definition handleCancelledTo (Upsert : t -> M (option error)) (lg : Log)
    : M (option error) :=
  if (length (Topics lg) <? 2)%nat then ret None
  else
    let listingID := Int64 (topic lg 1) in
    let* r := GetByID listingID in
    match r with
    | Err _ =>
        let order :=
          {| OrderID := 0;
             ListingID := listingID;
             Seller := "";
             Buyer := "";
             NFTName := "";
             NFTAddress := "";
             Order.URL := "";
             TokenID := 0;
             Order.Amount := 0;
             Order.Price := "";
             Status := OrderStatusCanceled;
             Order.TxHash := Hash_Hex (TxHash lg);
             Deleted := 0 |} in
        Upsert order
    | Ok existing =>
        let existing := set_Status OrderStatusCanceled existing in
        let existing := set_TxHash (Hash_Hex (TxHash lg)) existing in
        Upsert existing
    end.

(** [handleCancelled]. *)
Definition handleCancelled (lg : Log) : M (option error) :=
  handleCancelledTo Upsert lg.

(** [handleSold], with the [Upsert] of [s.store] as an argument. *)
Definition handleSoldTo (Upsert : t -> M (option error)) (lg : Log)
    : M (option error) :=
  if (length (Topics lg) <? 3)%nat then ret None
  else
    let listingID := Int64 (topic lg 1) in
    let buyer := HexToAddress (topic lg 2) in
    let* r := GetByID listingID in
    match r with
    | Err _ =>
        let order :=
          {| OrderID := 0;
             ListingID := listingID;
             Seller := "";
             Buyer := Address_Hex buyer;
             NFTName := "";
             NFTAddress := "";
             Order.URL := "";
             TokenID := 0;
             Order.Amount := 0;
             Order.Price := "";
             Status := OrderStatusSuccess;
             Order.TxHash := Hash_Hex (TxHash lg);
             Deleted := 0 |} in
        Upsert order
    | Ok existing =>
        let existing := set_Buyer (Address_Hex buyer) existing in
        let existing := set_Status OrderStatusSuccess existing in
        let existing := set_TxHash (Hash_Hex (TxHash lg)) existing in
        Upsert existing
    end.

(** [handleSold]. *)
Definition handleSold (lg : Log) : M (option error) :=
  handleSoldTo Upsert lg.

(** [handleLog]: the switch on the first topic. *)
Definition handleLog (lg : Log) : M (option error) :=
  match Topics lg with
  | [] => ret None
  | sig :: _ =>
      if decide (sig = Listed_ID (abi s)) then handleListed lg
      else if decide (sig = Cancelled_ID (abi s)) then handleCancelled lg
      else if decide (sig = Sold_ID (abi s)) then handleSold lg
      else ret None
  end.

(** The loop over the logs of one batch: a handler error is printed
    and the next log is handled. *)
Fixpoint handleLogs (logs : list Log) : M unit :=
  match logs with
  | [] => ret tt
  | lg :: rest => exec handleLog lg in handleLogs rest
  end.

(** The three variables of the batch loop of [Run]. *)
Record Cursor : Type := {
  lastScanned : Z;
  from : Z;
  batchSize : Z
}.

(** [to := from + batchSize - 1; if to > latest { to = latest }], in
    uint64 arithmetic. *)
Definition batch_end (latest : Z) (c : Cursor) : Z :=
  let to := uint64 (uint64 (from c + batchSize c) - 1) in
  if to >? latest then latest else to.

(** What one pass through the body of the batch loop leads to. *)
Inductive Next : Type :=
| Continue (c : Cursor)
| Break.

(** The body of the batch loop, given what [FilterLogs] answered for
    the blocks [from c .. batch_end latest c]. *)
Definition scanBatch (latest : Z) (reply : result (list Log)) (c : Cursor)
    : M Next :=
  let to := batch_end latest c in
  match reply with
  | Err err =>
      let limitErr := Contains (Error err) "limit exceeded" in
      if limitErr then
        if batchSize c >? 1 then
          let b := batchSize c / 2 in
          let b := if b <? 1 then 1 else b in
          ret (Continue {| lastScanned := lastScanned c;
                           from := from c;
                           batchSize := b |})
        else
          ret (Continue {| lastScanned := to;
                           from := uint64 (to + 1);
                           batchSize := batchSize c |})
      else ret Break
  | Ok logs =>
      exec handleLogs logs in
      ret (Continue {| lastScanned := to;
                       from := uint64 (to + 1);
                       batchSize := batchSize c |})
  end.

(** [for from <= latest { ... }]: [filterLogs n from to] is the answer
    to the [n]-th query of this tick.  The flag tells whether the loop
    was left within [fuel] passes. *)
Fixpoint scanLoop (fuel : nat) (filterLogs : nat -> Z -> Z -> result (list Log))
    (n : nat) (latest : Z) (c : Cursor) : M (bool * Cursor) :=
  if from c <=? latest then
    match fuel with
    | O => ret (false, c)
    | S fuel' =>
        let* nx := scanBatch latest (filterLogs n (from c) (batch_end latest c)) c in
        match nx with
        | Continue c' => scanLoop fuel' filterLogs (S n) latest c'
        | Break => ret (true, c)
        end
    end
  else ret (true, c).

(** What the chain client answers during one tick of the ticker:
    [HeaderByNumber] with the head block number, and [FilterLogs]. *)
Record Tick : Type := {
  head : result Z;
  filterLogs : nat -> Z -> Z -> result (list Log)
}.

(** The [case <-ticker.C] branch of [Run], from watermark to
    watermark. *)
Definition tick (fuel : nat) (t : Tick) (watermark : Z) : M (bool * Z) :=
  match head t with
  | Err _ => ret (true, watermark)
  | Ok number =>
      let latest := uint64 number in
      if latest <=? watermark then ret (true, watermark)
      else
        let* r := scanLoop fuel (filterLogs t) 0 latest
                    {| lastScanned := watermark;
                       from := uint64 (watermark + 1);
                       batchSize := maxBatchBlocks s |} in
        ret (fst r, lastScanned (snd r))
  end.

(** The ticks of [Run] until the context is cancelled, each with the
    watermark it leaves; a tick whose batch loop does not end within
    [fuel] passes is the last. *)
Fixpoint ticks (fuel : nat) (ts : list Tick) (watermark : Z) : M (list Z) :=
  match ts with
  | [] => ret []
  | t :: rest =>
      let* r := tick fuel t watermark in
      if fst r then
        let* ws := ticks fuel rest (snd r) in
        ret (snd r :: ws)
      else ret [snd r]
  end.

(** [Run]: [start] is the answer to the first [HeaderByNumber]; the
    result lists the watermark at the start and after every tick. *)
Definition Run (fuel : nat) (start : result Z) (ts : list Tick) : M (list Z) :=
  match start with
  | Err _ => ret []
  | Ok number =>
      let lastScanned := uint64 number in
      let* ws := ticks fuel ts lastScanned in
      ret (lastScanned :: ws)
  end.

(** The cursor after a range-limit rejection while the batch is larger
    than one block, and the cursor after giving a sub-range up. *)
Definition halved (c : Cursor) : Cursor :=
  {| lastScanned := lastScanned c; from := from c; batchSize := batchSize c / 2 |}.
Definition skipped (latest : Z) (c : Cursor) : Cursor :=
  {| lastScanned := batch_end latest c;
     from := uint64 (batch_end latest c + 1);
     batchSize := batchSize c |}.

(** What the batch loop keeps true while the head stays clear of the end
    of the uint64 range: the watermark is below the next block to scan. *)
Definition in_range (floor latest : Z) (c : Cursor) : Prop :=
  floor <= lastScanned c
  /\ 0 <= lastScanned c < from c
  /\ from c <= latest + 1
  /\ 1 <= batchSize c <= maxBatchBlocks s.

(** The bound on the head block number under which the arithmetic of the
    batch loop does not wrap around. *)
Definition head_in_range (t : Tick) : Prop :=
  forall number, head t = Ok number -> uint64 number + maxBatchBlocks s < 2 ^ 64.

End Handlers.

(** The struct the Cancelled handler hands to [Upsert], given what the
    lookup of the listing id found. *)
Definition cancelled_order (l : Z) (h : string) (found : option row) : t :=
  match found with
  | None => mk 0 l "" "" "" "" "" 0 0 "" OrderStatusCanceled h 0
  | Some r => set_TxHash h (set_Status OrderStatusCanceled (scan r))
  end.

(** The struct the Sold handler hands to [Upsert]. *)
Definition sold_order (l : Z) (b h : string) (found : option row) : t :=
  match found with
  | None => mk 0 l "" b "" "" "" 0 0 "" OrderStatusSuccess h 0
  | Some r => set_TxHash h (set_Status OrderStatusSuccess (set_Buyer b (scan r)))
  end.

(** The struct the Listed handler hands to [Upsert]. *)
Definition listed_order (l : Z) (seller nft : string) (tokenId amount : Z)
    (price h : string) : t :=
  mk 0 l seller "" "" nft "" tokenId amount price OrderStatusListed h 0.

(** The number of topics the handler of an event id asks for. *)
Definition topics_needed (s : MarketplaceScanner) (sig : Z) : option nat :=
  if decide (sig = Listed_ID (abi s)) then Some 4%nat
  else if decide (sig = Cancelled_ID (abi s)) then Some 2%nat
  else if decide (sig = Sold_ID (abi s)) then Some 3%nat
  else None.

(** A log without topics, with the id of another event, or with fewer
    topics than its handler asks for. *)
Definition ignored (s : MarketplaceScanner) (lg : Log) : Prop :=
  match Topics lg with
  | [] => True
  | sig :: _ =>
      match topics_needed s sig with
      | None => True
      | Some n => (length (Topics lg) < n)%nat
      end
  end.

Section Resync.
Context `{EthCodec}.
Variable s : MarketplaceScanner.

(** The first block [ResyncRecent] looks at: [lookbackBlocks] blocks
    below the head, or block 1 when the look-back is 0 or reaches to
    the head. *)
Definition resync_from (latest lookbackBlocks : Z) : Z :=
  if (lookbackBlocks >? 0) && (lookbackBlocks <? latest)
  then uint64 (uint64 (latest - lookbackBlocks) + 1)
  else 1.

(** The batch loop of [ResyncRecent]: the one of [Run] without the
    watermark; an error other than the range limit is returned.  The flag
    tells whether the loop was left within [fuel] passes. *)
Fixpoint resyncLoop (fuel : nat) (filterLogs : nat -> Z -> Z -> result (list Log))
    (n : nat) (latest from batchSize : Z) : M (bool * option error) :=
  if from <=? latest then
    match fuel with
    | O => ret (false, None)
    | S fuel' =>
        let to := uint64 (uint64 (from + batchSize) - 1) in
        let to := if to >? latest then latest else to in
        match filterLogs n from to with
        | Err err =>
            let limitErr := Contains (Error err) "limit exceeded" in
            if limitErr then
              if batchSize >? 1 then
                let b := batchSize / 2 in
                let b := if b <? 1 then 1 else b in
                resyncLoop fuel' filterLogs (S n) latest from b
              else
                resyncLoop fuel' filterLogs (S n) latest (uint64 (to + 1)) batchSize
            else ret (true, Some err)
        | Ok logs =>
            exec handleLogs s logs in
            resyncLoop fuel' filterLogs (S n) latest (uint64 (to + 1)) batchSize
        end
    end
  else ret (true, None).

(** [ResyncRecent]: [head] and [filterLogs] are the answers of the chain
    client, as in a [Tick]. *)
Definition ResyncRecent (fuel : nat) (t : Tick) (lookbackBlocks : Z)
    : M (bool * option error) :=
  match head t with
  | Err err => ret (true, Some err)
  | Ok number =>
      let latest := uint64 number in
      if latest =? 0 then ret (true, None)
      else
        resyncLoop fuel (filterLogs t) 0 latest
          (resync_from latest lookbackBlocks) (maxBatchBlocks s)
  end.

End Resync.

(** A chain as the scanner sees it: the logs of the marketplace contract
    with one of the three event ids, block by block. *)
Definition logs_between (chain : Z -> list Log) (from to : Z) : list Log :=
  flat_map chain (seqZ from (to - from + 1)).

(** A node that answers every query in full. *)
Definition node (number : Z) (chain : Z -> list Log) : Tick :=
  {| head := Ok number;
     filterLogs _ from to := Ok (logs_between chain from to) |}.

End Chain.

(** ** The API-driven writer: order status transitions *)

Module Api.
Import Order.

(** Modelled from the spec: what the update-order-status operation
    tells its caller. *)
Inductive Response : Type :=
| Updated (o : Order.t)     (* the transition was written *)
| Retry                     (* the lock is held: try again *)
| NotFound                  (* no order with this listing id *)
| Conflict                  (* the order is in the other terminal state *)
| Failed (e : error).       (* a store or lock failure *)

(** Modelled from the spec: the two terminal values of [status]. *)
Definition terminal (s : OrderStatus) : bool :=
  bool_decide (s = OrderStatusSuccess) || bool_decide (s = OrderStatusCanceled).

(** Modelled from the spec: a transition breaks the terminal-state
    invariant when it leads from one terminal status to the other. *)
Definition flips_terminal (old new : OrderStatus) : bool :=
  terminal old && terminal new && negb (bool_decide (old = new)).

(** Modelled from the spec: the locker of the order endpoints, with the
    key prefix the backend document gives. *)
Definition orderLocker : Lock.RedisLocker := Lock.NewRedisLocker "nft_market:order:".

(** Modelled from the spec: the calls the operation makes, to the locker,
    to [database/sql] and to the two stores; the backend document names
    them.  The store calls are the transactional variants, which run on
    the connection of the transaction. *)
Inductive Call : Type :=
| Lock_Acquire (key : string) (ttl : Z)       (* orderLocker.Acquire *)
| DB_BeginTx                                  (* db.BeginTx *)
| Orders_GetByIDForUpdateTx (listingID : Z)   (* SELECT ... FOR UPDATE *)
| Orders_UpsertTx (o : Order.t)
| Assets_UpdateOwnerByNFTTx (nftAddress : string) (tokenID : Z) (newOwner : string)
| Assets_RestoreByNFTTx (nftAddress : string) (tokenID : Z)
| Tx_Commit                                   (* tx.Commit *)
| Tx_Rollback                                 (* tx.Rollback *)
| Lock_Release (l : Lock.RedisLock).          (* lock.Release *)

(** What a call returns. *)
Definition Reply (c : Call) : Type :=
  match c with
  | Lock_Acquire _ _ => result Lock.RedisLock
  | Orders_GetByIDForUpdateTx _ => result Order.t
  | Tx_Rollback => unit
  | _ => option error
  end.

(** A handler as the calls it makes: it returns, or it makes a call and
    goes on with what the call returned. *)
Inductive Prog (A : Type) : Type :=
| Return (a : A)
| Do (c : Call) (k : Reply c -> Prog A).
Arguments Return {A} a.
Arguments Do {A} c k.

Definition call (c : Call) : Prog (Reply c) := Do c Return.

Fixpoint pbind {A B : Type} (p : Prog A) (f : A -> Prog B) : Prog B :=
  match p with
  | Return a => f a
  | Do c k => Do c (fun x => pbind (k x) f)
  end.

Notation "'let!' x ':=' p 'in' k" := (pbind p (fun x => k))
  (at level 10, x name, p at level 200, k at level 200).
Notation "'then!' p 'in' k" := (pbind p (fun _ => k))
  (at level 10, p at level 200, k at level 200).

(** Modelled from the spec: the companion transition of [nft_assets];
    the buyer becomes the owner when the sale completes, the asset is
    restored when the listing is cancelled. *)
Definition assetTransition (o : Order.t) (newStatus : OrderStatus) (buyer : string)
    : Prog (option error) :=
  if bool_decide (newStatus = OrderStatusSuccess)
  then call (Assets_UpdateOwnerByNFTTx (NFTAddress o) (TokenID o) buyer)
  else if bool_decide (newStatus = OrderStatusCanceled)
  then call (Assets_RestoreByNFTTx (NFTAddress o) (TokenID o))
  else Return None.

(** Modelled from the spec: the struct the operation writes over the
    order it read. *)
Definition transition (existing : t) (newStatus : OrderStatus) (buyer txHash : string) : t :=
  set_TxHash txHash
    ((if bool_decide (newStatus = OrderStatusSuccess) then set_Buyer buyer else id)
       (set_Status newStatus existing)).

(** Modelled from the spec: the statements between BEGIN and the end of
    the transaction of the update-order-status operation. *)
Definition transaction (listingID : Z) (newStatus : OrderStatus)
    (buyer txHash : string) : Prog Response :=
  let! r := call (Orders_GetByIDForUpdateTx listingID) in
  match r with
  | Err ErrNoRows => then! call Tx_Rollback in Return NotFound
  | Err err => then! call Tx_Rollback in Return (Failed err)
  | Ok existing =>
      if flips_terminal (Status existing) newStatus
      then then! call Tx_Rollback in Return Conflict
      else
        let o := transition existing newStatus buyer txHash in
        let! e := call (Orders_UpsertTx o) in
        match e with
        | Some err => then! call Tx_Rollback in Return (Failed err)
        | None =>
            let! e := assetTransition existing newStatus buyer in
            match e with
            | Some err => then! call Tx_Rollback in Return (Failed err)
            | None =>
                let! e := call Tx_Commit in
                match e with
                | Some err => then! call Tx_Rollback in Return (Failed err)
                | None => Return (Updated o)
                end
            end
        end
  end.

(** Modelled from the spec: the handler of the update-order-status
    operation (POST /orders/:listingId/status of [cmd/server/main.go]),
    which is not among the sources; section 4.5 of the spec gives its
    protocol and the repository's backend document names the store and
    lock calls it makes.  [ttl] is what [Acquire] is called with. *)
Definition updateOrderStatus (ttl : Z) (listingID : Z) (newStatus : OrderStatus)
    (buyer txHash : string) : Prog Response :=
  let! l := call (Lock_Acquire (pretty listingID) ttl) in
  match l with
  | Err ErrLockNotAcquired => Return Retry
  | Err err => Return (Failed err)
  | Ok held =>
      let! e := call DB_BeginTx in
      let! resp := match e with
                   | Some err => Return (Failed err)
                   | None => transaction listingID newStatus buyer txHash
                   end in
      then! call (Lock_Release held) in
      Return resp
  end.

(** Modelled from the spec: the single store transaction of the
    operation, as its connection holds it: the two tables as they were
    at BEGIN, and the listing ids of the rows it has locked. *)
Record Tx : Type := {
  orders_at_begin : list Order.row;
  assets_at_begin : list NftAsset.row;
  locked : list Z
}.

(** The connection of the handler holds a transaction or none. *)
Definition Session : Type := option Tx.

Definition lock_row (l : Z) (tx : Tx) : Tx :=
  {| orders_at_begin := orders_at_begin tx;
     assets_at_begin := assets_at_begin tx;
     locked := l :: locked tx |}.

(** Modelled from the spec: ROLLBACK of the single store transaction,
    both tables as they were at BEGIN. *)
Definition restore (tx : Tx) (w : World) : World :=
  set_nft_assets (assets_at_begin tx) (set_orders (orders_at_begin tx) w).

(** Modelled from the spec: what a call does.  The calls to the packages
    [lock] and [store] are the functions embedded above; the transaction
    is the one of [database/sql] on MySQL.  BEGIN and COMMIT are round
    trips; SELECT ... FOR UPDATE locks the row it finds for the
    transaction; COMMIT and ROLLBACK end the transaction and give its
    locks up, and the server undoes an open transaction whether it is
    told to or the connection is gone.  [entropy] and [now] are what
    [Acquire] draws its value from. *)
Definition perform (entropy : option (list Z)) (now : Z) (c : Call) (s : Session)
    : M (Reply c * Session) :=
  match c return M (Reply c * Session) with
  | Lock_Acquire k ttl =>
      let* r := Lock.Acquire orderLocker entropy now k ttl in
      ret (r, s)
  | DB_BeginTx =>
      let* e := roundtrip in
      match e with
      | Some err => ret (Some err, s)
      | None =>
          let* w := gets (fun w => w) in
          ret (None, Some {| orders_at_begin := orders w;
                             assets_at_begin := nft_assets w;
                             locked := [] |})
      end
  | Orders_GetByIDForUpdateTx l =>
      let* r := OrderStore.GetByIDForUpdateTx l in
      ret (r, match r, s with
              | Ok _, Some tx => Some (lock_row l tx)
              | _, _ => s
              end)
  | Orders_UpsertTx o =>
      let* e := OrderStore.UpsertTx o in
      ret (e, s)
  | Assets_UpdateOwnerByNFTTx nftAddress tokenID newOwner =>
      let* e := NftAssetStore.UpdateOwnerByNFTTx nftAddress tokenID newOwner in
      ret (e, s)
  | Assets_RestoreByNFTTx nftAddress tokenID =>
      let* e := NftAssetStore.RestoreByNFTTx nftAddress tokenID in
      ret (e, s)
  | Tx_Commit =>
      let* e := roundtrip in
      match e with
      | Some err => ret (Some err, s)
      | None => ret (None, None)
      end
  | Tx_Rollback =>
      match s with
      | Some tx => exec modify (restore tx) in ret (tt, None)
      | None => ret (tt, None)
      end
  | Lock_Release l =>
      let* e := Lock.Release l in
      ret (e, s)
  end.

(** A call as it was made: the state of the world and of the connection
    it was made in. *)
Record Issued : Type := {
  made : Call;
  world : World;
  session : Session
}.

(** What a run of a handler leaves: the calls it made, in their order,
    what it returns, and the state of its connection. *)
Record Ran (A : Type) : Type := {
  issued : list Issued;
  answer : A;
  ends_in : Session
}.
Arguments issued {A} r.
Arguments answer {A} r.
Arguments ends_in {A} r.

(** A handler run against the world. *)
Fixpoint run {A : Type} (entropy : option (list Z)) (now : Z) (p : Prog A)
    (s : Session) : M (Ran A) :=
  match p with
  | Return a => ret {| issued := []; answer := a; ends_in := s |}
  | Do c k =>
      let* w := gets (fun w => w) in
      let* r := perform entropy now c s in
      let* rest := run entropy now (k r.1) r.2 in
      ret {| issued := {| made := c; world := w; session := s |} :: issued rest;
             answer := answer rest;
             ends_in := ends_in rest |}
  end.

(** The calls that write to a table. *)
Definition is_write (c : Call) : bool :=
  match c with
  | Orders_UpsertTx _ | Assets_UpdateOwnerByNFTTx _ _ _ | Assets_RestoreByNFTTx _ _ => true
  | _ => false
  end.

(** Modelled from the spec: the companion change of one asset row. *)
Definition companion (existing : t) (newStatus : OrderStatus) (buyer : string)
    (a : NftAsset.row) : NftAsset.row :=
  if NftAssetStore.is_nft (NFTAddress existing) (TokenID existing) a then
    if bool_decide (newStatus = OrderStatusSuccess)
    then NftAssetStore.set_deleted 0 (NftAssetStore.set_owner buyer a)
    else if bool_decide (newStatus = OrderStatusCanceled)
    then NftAssetStore.set_deleted 0 a
    else a
  else a.

(** The call of the companion change of an order. *)
Definition companion_call (o : t) (newStatus : OrderStatus) (buyer : string)
    : list Call :=
  if bool_decide (newStatus = OrderStatusSuccess)
  then [Assets_UpdateOwnerByNFTTx (NFTAddress o) (TokenID o) buyer]
  else if bool_decide (newStatus = OrderStatusCanceled)
  then [Assets_RestoreByNFTTx (NFTAddress o) (TokenID o)]
  else [].

End Api.

(** ** Package [strconv] *)

Module Strconv.
Import Stdlib.Strings.Ascii.

(** The value of a decimal digit. *)
Definition digit (a : Ascii.ascii) : option Z :=
  let n := Z.of_N (Ascii.N_of_ascii a) in
  if (48 <=? n) && (n <=? 57) then Some (n - 48) else None.

(** The number a string of decimal digits denotes, after [acc]. *)
Fixpoint digits (acc : Z) (s : string) : option Z :=
  match s with
  | EmptyString => Some acc
  | String a rest =>
      match digit a with
      | Some d => digits (acc * 10 + d) rest
      | None => None
      end
  end.

(** [strconv.ParseInt(s, 10, 64)], [None] for a syntax or range error:
    an optional sign, at least one decimal digit and nothing else, and a
    value that fits int64. *)
Definition ParseInt (s : string) : option Z :=
  match s with
  | EmptyString => None
  | String a rest =>
      let neg := bool_decide (a = "-"%char) in
      let signed := neg || bool_decide (a = "+"%char) in
      let body := if signed then rest else s in
      match body with
      | EmptyString => None
      | _ =>
          match digits 0 body with
          | None => None
          | Some un =>
              if neg then (if un >? 2 ^ 63 then None else Some (- un))
              else if un >=? 2 ^ 63 then None else Some un
          end
      end
  end.

End Strconv.

(** ** Package [ipfs]: the Pinata client *)

Module Ipfs.

Record PinataClient : Type := {
  apiURL : string;
  gatewayURL : string;
  apiKey : string;
  secretAPIKey : string
}.

(** [NewPinataClient]. *)
Definition NewPinataClient (apiURL gatewayURL apiKey secret : string) : PinataClient :=
  {| apiURL := if decide (apiURL = "") then "https://api.pinata.cloud" else apiURL;
     gatewayURL := if decide (gatewayURL = "")
                   then "https://gateway.pinata.cloud/ipfs" else gatewayURL;
     apiKey := apiKey;
     secretAPIKey := secret |}.

Record UploadResult : Type := { CID : string; URL : string }.

(** The reply of Pinata as [UploadFile] reads it: the status code, the
    body, and what [json.Unmarshal] makes of the body's [IpfsHash] field
    (the empty string when the field is missing). *)
Record Reply : Type := {
  StatusCode : Z;
  Body : string;
  IpfsHash : result string
}.

(** How far the exchange with Pinata gets.  (The multipart form is
    written into a buffer in memory, which does not fail.) *)
Inductive Exchange : Type :=
| CopyFailed (e : error)      (* reading the uploaded file *)
| RequestFailed (e : error)   (* http.NewRequestWithContext *)
| DoFailed (e : error)        (* httpClient.Do *)
| ReadFailed (e : error)      (* io.ReadAll of the response body *)
| Replied (r : Reply).

(** [fmt.Errorf]: an error with the given text. *)
Definition Errorf (msg : string) : error := ErrIO msg.

(** [UploadFile], given how the exchange goes. *)
Definition UploadFile (c : PinataClient) (name : string) (x : Exchange)
    : result UploadResult :=
  if bool_decide (apiKey c = "") || bool_decide (secretAPIKey c = "")
  then Err (Errorf "pinata api key or secret is not configured")
  else
    match x with
    | CopyFailed e => Err (Errorf ("copy file data: " +:+ Error e))
    | RequestFailed e => Err (Errorf ("new request: " +:+ Error e))
    | DoFailed e => Err (Errorf ("pinata request: " +:+ Error e))
    | ReadFailed e => Err (Errorf ("read response: " +:+ Error e))
    | Replied r =>
        if (StatusCode r <? 200) || (StatusCode r >=? 300)
        then Err (Errorf ("pinata error: status=" +:+ pretty (StatusCode r)
                          +:+ " body=" +:+ Body r))
        else
          match IpfsHash r with
          | Err e => Err (Errorf ("decode response: " +:+ Error e))
          | Ok hash =>
              if bool_decide (hash = "")
              then Err (Errorf "pinata response missing IpfsHash")
              else Ok {| CID := hash; URL := gatewayURL c +:+ "/" +:+ hash |}
          end
    end.

End Ipfs.

(** ** Package [main]: configuration and the HTTP routes *)

Module Server.

Record basicConfig : Type := {
  RPCURL : string;
  ChainID : Z;
  MarketplaceAddress : string;
  ProjectNFTAddress : string;
  Project1155Address : string;
  MySQLDSN : string;
  PinataAPIURL : string;
  PinataGatewayURL : string;
  PinataAPIKey : string;
  PinataSecretAPIKey : string;
  HTTPAddr : string
}.

(** [yamlConfig], its nested sections flattened. *)
Record yamlConfig : Type := {
  Blockchain_RPCURL : string;
  Blockchain_ChainID : Z;
  BSC_RPCURL : string;
  Contracts_Marketplace : string;
  Contracts_ProjectNFT : string;
  Contracts_Project1155 : string;
  MySQL_DSN : string;
  IPFS_APIURL : string;
  IPFS_GatewayURL : string;
  IPFS_APIKey : string;
  IPFS_SecretAPIKey : string;
  Server_Addr : string
}.

(** The errors of [loadConfig]: [ErrMissingRPCURL] and what
    [yaml.Unmarshal] reports. *)
Inductive configError : Type :=
| ErrMissingRPCURL
| ErrYaml (msg : string).

(** [os.Getenv]: the empty string for a variable that is not set. *)
Definition Getenv (env : gmap string string) (k : string) : string :=
  default "" (env !! k).

(** [if v := os.Getenv(k); v != "" { field = v }]. *)
Definition override (env : gmap string string) (k : string) (field : string) : string :=
  let v := Getenv env k in
  if decide (v = "") then field else v.

(** [loadConfig]: [file] is [None] when config.yaml cannot be read, and
    otherwise what [yaml.Unmarshal] makes of it. *)
Definition loadConfig (file : option (configError + yamlConfig))
    (env : gmap string string) : configError + basicConfig :=
  let fromFile (yc : option yamlConfig) :=
    match yc with
    | None => Build_basicConfig "" 0 "" "" "" "" "" "" "" "" ""
    | Some yc =>
        {| RPCURL := if decide (Blockchain_RPCURL yc = "")
                     then BSC_RPCURL yc else Blockchain_RPCURL yc;
           ChainID := Blockchain_ChainID yc;
           MarketplaceAddress := Contracts_Marketplace yc;
           ProjectNFTAddress := Contracts_ProjectNFT yc;
           Project1155Address := Contracts_Project1155 yc;
           MySQLDSN := MySQL_DSN yc;
           PinataAPIURL := IPFS_APIURL yc;
           PinataGatewayURL := IPFS_GatewayURL yc;
           PinataAPIKey := IPFS_APIKey yc;
           PinataSecretAPIKey := IPFS_SecretAPIKey yc;
           HTTPAddr := Server_Addr yc |}
    end in
  let withEnv (cfg : basicConfig) :=
    let cfg :=
      {| RPCURL := override env "BSC_TESTNET_RPC_URL" (RPCURL cfg);
         ChainID := ChainID cfg;
         MarketplaceAddress := override env "NFT_MARKETPLACE_ADDRESS" (MarketplaceAddress cfg);
         ProjectNFTAddress := override env "PROJECT_NFT_ADDRESS" (ProjectNFTAddress cfg);
         Project1155Address := override env "PROJECT_1155_ADDRESS" (Project1155Address cfg);
         MySQLDSN := override env "MYSQL_DSN" (MySQLDSN cfg);
         PinataAPIURL := override env "PINATA_API_URL" (PinataAPIURL cfg);
         PinataGatewayURL := override env "PINATA_GATEWAY_URL" (PinataGatewayURL cfg);
         PinataAPIKey := override env "PINATA_API_KEY" (PinataAPIKey cfg);
         PinataSecretAPIKey := override env "PINATA_SECRET_API_KEY" (PinataSecretAPIKey cfg);
         HTTPAddr := override env "HTTP_ADDR" (HTTPAddr cfg) |} in
    if decide (RPCURL cfg = "") then inl ErrMissingRPCURL else inr cfg in
  match file with
  | None => withEnv (fromFile None)
  | Some (inl err) => inl err
  | Some (inr yc) => withEnv (fromFile (Some yc))
  end.

(** The first of the given strings that is not empty, the empty string
    when there is none. *)
Definition first_set (l : list string) : string :=
  hd "" (filter (fun v => v <> "") l).

(** What a route hands to [c.JSON]: [gin.H] with one entry, or one of
    the structs of package [store]. *)
Inductive Payload : Type :=
| H (key value : string)
| OrderJSON (o : Order.t)
| OrdersJSON (l : list Order.t)
| AssetJSON (a : NftAsset.t)
| AssetsJSON (l : list NftAsset.t).

Record Response : Type := JSON { Code : Z; payload : Payload }.

(** GET /api/v1/orders. *)
Definition getOrders (newest_first : list Order.row -> list Order.row) : M Response :=
  let* r := OrderStore.ListRecent newest_first 50 in
  match r with
  | Err _ => ret (JSON 500 (H "error" "internal error"))
  | Ok orders => ret (JSON 200 (OrdersJSON orders))
  end.

(** GET /api/v1/orders/:listingId. *)
Definition getOrder (idStr : string) : M Response :=
  match Strconv.ParseInt idStr with
  | None => ret (JSON 400 (H "error" "invalid listingId"))
  | Some id =>
      let* r := OrderStore.GetByID id in
      match r with
      | Err ErrNoRows => ret (JSON 404 (H "error" "not found"))
      | Err _ => ret (JSON 500 (H "error" "internal error"))
      | Ok order => ret (JSON 200 (OrderJSON order))
      end
  end.

(** POST /api/v1/assets: [formFile] is the file name [c.FormFile]
    delivers, [opened] the error of [fileHeader.Open], [exchange] the
    course of the upload. *)
Definition postAsset (ipfsClient : Ipfs.PinataClient) (owner name : string)
    (formFile : result string) (opened : option error) (exchange : Ipfs.Exchange)
    : M Response :=
  if bool_decide (owner = "") || bool_decide (name = "")
  then ret (JSON 400 (H "error" "owner and name are required"))
  else
    match formFile with
    | Err _ => ret (JSON 400 (H "error" "file is required"))
    | Ok Filename =>
        match opened with
        | Some _ => ret (JSON 500 (H "error" "failed to read file"))
        | None =>
            match Ipfs.UploadFile ipfsClient Filename exchange with
            | Err _ => ret (JSON 500 (H "error" "ipfs upload failed"))
            | Ok uploadRes =>
                let asset :=
                  {| NftAsset.ID := 0;
                     NftAsset.Name := name;
                     NftAsset.Owner := owner;
                     NftAsset.CID := Ipfs.CID uploadRes;
                     NftAsset.URL := Ipfs.URL uploadRes;
                     NftAsset.TokenID := 0;
                     NftAsset.NFTAddress := "";
                     NftAsset.Amount := 0;
                     NftAsset.Deleted := 0 |} in
                let* r := NftAssetStore.Insert asset in
                match r with
                | Err _ => ret (JSON 500 (H "error" "db insert failed"))
                | Ok id => ret (JSON 200 (AssetJSON (NftAssetStore.with_ID id asset)))
                end
            end
        end
    end.

(** The body of POST /api/v1/assets/:id/mint-info. *)
Record MintInfo : Type := {
  TokenID : Z;
  NFTAddress : string;
  Amount : Z
}.

(** POST /api/v1/assets/:id/mint-info: [body] is [None] when
    [c.ShouldBindJSON] fails. *)
Definition postMintInfo (idStr : string) (body : option MintInfo) : M Response :=
  match Strconv.ParseInt idStr with
  | None => ret (JSON 400 (H "error" "invalid id"))
  | Some id =>
      match body with
      | None => ret (JSON 400 (H "error" "invalid json body"))
      | Some req =>
          if (TokenID req <=? 0) || bool_decide (NFTAddress req = "")
          then ret (JSON 400 (H "error" "token_id and nft_address are required"))
          else
            let amount := if Amount req <=? 0 then 1 else Amount req in
            let* e := NftAssetStore.UpdateMintInfo id (TokenID req) (NFTAddress req) amount in
            match e with
            | Some _ => ret (JSON 500 (H "error" "db update failed"))
            | None =>
                let* r := NftAssetStore.GetByID id in
                match r with
                | Err _ => ret (JSON 500 (H "error" "db query failed"))
                | Ok asset => ret (JSON 200 (AssetJSON asset))
                end
            end
      end
  end.

(** GET /api/v1/assets/by-nft. *)
Definition getAssetByNFT (nftAddr tokenIDStr : string) : M Response :=
  if bool_decide (nftAddr = "") || bool_decide (tokenIDStr = "")
  then ret (JSON 400 (H "error" "nft_address and token_id are required"))
  else
    match Strconv.ParseInt tokenIDStr with
    | None => ret (JSON 400 (H "error" "invalid token_id"))
    | Some tokenID =>
        let* r := NftAssetStore.GetByNFT nftAddr tokenID in
        match r with
        | Err ErrNoRows => ret (JSON 404 (H "error" "not found"))
        | Err _ => ret (JSON 500 (H "error" "internal error"))
        | Ok asset => ret (JSON 200 (AssetJSON asset))
        end
    end.

(** GET /api/v1/assets/:id. *)
Definition getAsset (idStr : string) : M Response :=
  match Strconv.ParseInt idStr with
  | None => ret (JSON 400 (H "error" "invalid id"))
  | Some id =>
      let* r := NftAssetStore.GetByID id in
      match r with
      | Err ErrNoRows => ret (JSON 404 (H "error" "not found"))
      | Err _ => ret (JSON 500 (H "error" "internal error"))
      | Ok asset => ret (JSON 200 (AssetJSON asset))
      end
  end.

(** GET /api/v1/assets. *)
Definition getAssets (newest_first : list NftAsset.row -> list NftAsset.row)
    (owner : string) : M Response :=
  if bool_decide (owner = "")
  then ret (JSON 400 (H "error" "owner query param is required"))
  else
    let* r := NftAssetStore.ListByOwner newest_first owner 50 in
    match r with
    | Err _ => ret (JSON 500 (H "error" "internal error"))
    | Ok assets => ret (JSON 200 (AssetsJSON assets))
    end.

End Server.

(** ** A concrete codec, ABI and logs to run the scanner on *)

Module Fixture.
Import Chain.

(** [n] lowercase hex digits of [z], most significant first. *)
Fixpoint hex (n : nat) (z : Z) : string :=
  match n with
  | O => ""
  | S n' => hex n' (z / 16) +:+ Lock.hexdigit (z mod 16)
  end.

(** [Hash.Hex] exactly; [Address.Hex] without the checksum casing, and so
    exactly on the addresses whose hexadecimal digits are all decimal. *)
#[export] Instance codec : EthCodec := {|
  Hash_Hex h := "0x" +:+ hex 64 h;
  Address_Hex a := "0x" +:+ hex 40 a
|}.

(** The big-endian 32-byte word number [i] of [data]. *)
Definition word (i : nat) (data : list Z) : Z :=
  foldl (fun acc b => acc * 256 + b) 0 (take 32 (drop (32 * i) data)).

(** Three uint256 fields; the event ids stand for the Keccak hashes of
    the event signatures. *)
Definition marketplaceABI : ABI := {|
  Listed_ID := 1;
  Cancelled_ID := 2;
  Sold_ID := 3;
  UnpackListed data :=
    if (length data <? 96)%nat then Err ErrUnpack
    else Ok (word 0 data, word 1 data, word 2 data)
|}.

Definition scanner : MarketplaceScanner := NewMarketplaceScanner 0xCAD7 marketplaceABI.

(** The 32 bytes of [z]. *)
Fixpoint bytes (n : nat) (z : Z) : list Z :=
  match n with
  | O => []
  | S n' => bytes n' (z / 256) ++ [z mod 256]
  end.

Definition Listed (listingId seller nft tokenId amount price txHash : Z) : Log :=
  {| Topics := [1; listingId; seller; nft];
     Data := bytes 32 tokenId ++ bytes 32 amount ++ bytes 32 price;
     TxHash := txHash |}.
Definition Cancelled (listingId txHash : Z) : Log :=
  {| Topics := [2; listingId]; Data := []; TxHash := txHash |}.
Definition Sold (listingId buyer txHash : Z) : Log :=
  {| Topics := [3; listingId; buyer]; Data := []; TxHash := txHash |}.

(** An empty database behind a connection that serves every call. *)
Definition empty : World := mkWorld ∅ [] 1 [] 1 [].

(** The logs of the scenario of listing 1001. *)
Definition listed1001 : Log :=
  Listed 1001 0xAA 0xFF 1 1 1000000000000000000 0x11.
Definition sold1001 : Log := Sold 1001 0xBB 0x22.
Definition cancelled1001 : Log := Cancelled 1001 0x33.

(** The world after the scanner has handled [logs], one after the other. *)
Definition after (logs : list Log) (w : World) : World :=
  (handleLogs scanner logs w).2.

(** The row of listing [l], as [GetByID] selects it. *)
Definition order_of (l : Z) (w : World) : option Order.row :=
  find (OrderStore.has_listing l) (orders w).

(** An uploaded asset that is not minted, and one whose token id is 0. *)
Definition unminted : NftAsset.t :=
  NftAsset.mk 0 "art" "0xaa" "Qm" "https://gateway/ipfs/Qm" 0 "" 0 0.
Definition token_zero : NftAsset.t :=
  NftAsset.mk 0 "art" "0xaa" "Qm" "https://gateway/ipfs/Qm" 0 "0xff" 1 0.

(** Listing 1001 in the table, with the asset it sells marked deleted. *)
Definition listed_world : World :=
  set_nft_assets
    [NftAsset.mkRow 1 "art" "0x00000000000000000000000000000000000000aa" "Qm"
       "https://gateway/ipfs/Qm" (Some 1)
       (Some "0x00000000000000000000000000000000000000ff") (Some 1) 1]
    (after [listed1001] empty).

(** Two holders of the lock of listing 42: the TTL of the first runs out
    before the second acquires. *)
Definition first_holder : result Lock.RedisLock * World :=
  Lock.Acquire (Lock.NewRedisLocker "") (Some [1; 2]) 0 "42" 5000 empty.
Definition second_holder : result Lock.RedisLock * World :=
  Lock.Acquire (Lock.NewRedisLocker "") (Some [3; 4]) 0 "42" 5000
    (Lock.expire "lock:42" first_holder.2).
Definition stale_lock : Lock.RedisLock := {| Lock.key := "lock:42"; Lock.value := "0102" |}.
Definition fresh_lock : Lock.RedisLock := {| Lock.key := "lock:42"; Lock.value := "0304" |}.

(** A tick at head 1250 whose first query is rejected for its range. *)
Definition limited_tick : Tick :=
  {| head := Ok 1250;
     filterLogs n _ _ :=
       match n with
       | O => Err (ErrIO "query returned more than 10000 results: limit exceeded")
       | _ => Ok []
       end |}.

(** A tick at head 1252 at which every query is rejected for its range. *)
Definition starved_tick : Tick :=
  {| head := Ok 1252;
     filterLogs _ _ _ := Err (ErrIO "limit exceeded") |}.

(** A tick at the last block number of uint64: the first query is
    answered with no logs, the second fails. *)
Definition last_block_tick : Tick :=
  {| head := Ok (2 ^ 64 - 1);
     filterLogs n _ _ :=
       match n with
       | O => Ok []
       | _ => Err (ErrIO "connection reset by peer")
       end |}.

(** A server that hands rows out in the reverse of their insertion. *)
Definition newest_first {A : Type} (rows : list A) : list A := reverse rows.

(** A chain with the Listed log of listing 1001 in block 1201 and its
    Sold log in block 1305. *)
Definition chain1001 (b : Z) : list Log :=
  if b =? 1201 then [listed1001]
  else if b =? 1305 then [sold1001]
  else [].

(** A second Listed log in the transaction of [listed1001], for
    listing 1002. *)
Definition listed1002 : Log :=
  Listed 1002 0xCC 0xFF 2 1 5 0x11.

(** The struct [handleListed] makes of [listed1002]. *)
Definition order1002 : Order.t :=
  listed_order 1002 "0x00000000000000000000000000000000000000cc"
    "0x00000000000000000000000000000000000000ff" 2 1 "5"
    "0x0000000000000000000000000000000000000000000000000000000000000011".

(** A log of another event, and a Sold log cut short. *)
Definition foreign_log : Log := {| Topics := [9; 1001]; Data := []; TxHash := 0x55 |}.
Definition short_sold : Log := {| Topics := [3; 1001]; Data := []; TxHash := 0x66 |}.

(** A Listed log whose data is too short to decode. *)
Definition bad_listed : Log :=
  {| Topics := [1; 1001; 0xAA; 0xFF]; Data := [0]; TxHash := 0x77 |}.

(** The asset of [listed_world], and the table after a second upload by
    the same owner. *)
Definition two_assets : World :=
  (NftAssetStore.Insert unminted (set_next_asset_id 2 (healthy listed_world))).2.

(** An order for listing 1003 in a transaction of its own. *)
Definition order1003 : Order.t :=
  listed_order 1003 "0xdd" "0xff" 3 1 "7" "0x99".

(** [listed_world] after the listing was cancelled through the API:
    the asset is back among its owner's. *)
Definition restored_world : World :=
  (NftAssetStore.RestoreByNFT "0x00000000000000000000000000000000000000ff" 1
     (healthy listed_world)).2.

(** A Pinata client with the default URLs, and an upload that is
    answered with the hash Qm. *)
Definition pinata : Ipfs.PinataClient := Ipfs.NewPinataClient "" "" "key" "secret".
Definition pinned : Ipfs.Exchange :=
  Ipfs.Replied {| Ipfs.StatusCode := 200; Ipfs.Body := "{}"; Ipfs.IpfsHash := Ok "Qm" |}.

(** A config.yaml with the legacy [bsc] section only, and an environment
    that sets the DSN. *)
Definition legacy_yaml : Server.yamlConfig :=
  {| Server.Blockchain_RPCURL := "";
     Server.Blockchain_ChainID := 97;
     Server.BSC_RPCURL := "https://bsc-testnet.example";
     Server.Contracts_Marketplace := "0xCAD7";
     Server.Contracts_ProjectNFT := "";
     Server.Contracts_Project1155 := "";
     Server.MySQL_DSN := "file-dsn";
     Server.IPFS_APIURL := "";
     Server.IPFS_GatewayURL := "";
     Server.IPFS_APIKey := "";
     Server.IPFS_SecretAPIKey := "";
     Server.Server_Addr := "" |}.
Definition dsn_env : gmap string string := {[ "MYSQL_DSN" := "env-dsn" ]}.

(** The price column DECIMAL(36,0) NOT NULL on the texts the scanner
    sends, which are the empty text of a placeholder and the numeral of
    a uint256.  A numeral of at most 36 digits is stored as it is.  A
    server in strict SQL mode, the default of MySQL, refuses the empty
    text with error 1366 and a longer numeral with error 1264; a server
    that is not in strict mode stores 0 and the largest value of the
    column in their place. *)
Definition strict_price : OrderStore.Column := fun text =>
  if decide (text = "") then Err ErrIncorrectDecimal
  else if (String.length text <=? 36)%nat then Ok text
  else Err ErrOutOfRange.
Definition lenient_price : OrderStore.Column := fun text =>
  if decide (text = "") then Ok "0"
  else if (String.length text <=? 36)%nat then Ok text
  else Ok "999999999999999999999999999999999999".

(** The logs of the scenario of listing 2002, with addresses whose
    hexadecimal digits are all decimal, so that the checksum casing of
    [Address.Hex] leaves them as [codec] renders them. *)
Definition listed2002 : Log := Listed 2002 0x11 0x22 7 1 5000 0x44.
Definition sold2002 : Log := Sold 2002 0x33 0x55.
Definition cancelled2002 : Log := Cancelled 2002 0x66.

(** Listing 2002 in the table, with the asset it sells marked deleted. *)
Definition listed2002_world : World :=
  set_nft_assets
    [NftAsset.mkRow 1 "art" "0x0000000000000000000000000000000000000011" "Qm"
       "https://gateway/ipfs/Qm" (Some 7)
       (Some "0x0000000000000000000000000000000000000022") (Some 1) 1]
    (after [listed2002] empty).

(** Listing 2002 in the table, behind a connection whose next round trip
    fails. *)
Definition bad_lookup : World :=
  set_io [Some "driver: bad connection"] (after [listed2002] empty).

End Fixture.

(** * Properties *)

(** ** Round trips *)

Lemma roundtrip_served (w : World) :
  hd None (io w) = None -> roundtrip w = (None, set_io (tl (io w)) w).
Proof.
  unfold roundtrip. destruct w as [r o n a m s]; simpl.
  destruct s as [|x s]; simpl; intros Hx; [reflexivity | now subst x].
Qed.

Lemma roundtrip_healthy (w : World) :
  io w = [] -> roundtrip w = (None, w).
Proof. unfold roundtrip. now intros ->. Qed.

Lemma roundtrip_failed (w : World) (msg : string) (rest : list (option string)) :
  io w = Some msg :: rest -> roundtrip w = (Some (ErrIO msg), set_io rest w).
Proof. unfold roundtrip. now intros ->. Qed.

Lemma set_io_same (w : World) : set_io (io w) w = w.
Proof. now destruct w. Qed.

(** The first match in a table with one more row at its end. *)
Lemma find_app_last {A} (P : A -> bool) (l : list A) (x : A) :
  find P (l ++ [x]) = match find P l with
                      | Some y => Some y
                      | None => if P x then Some x else None
                      end.
Proof.
  induction l as [|y l IH]; simpl; [reflexivity|].
  destruct (P y); [reflexivity | exact IH].
Qed.

(** ** The Redis lock *)

Module LockProps.
Import Lock.

Lemma Release_healthy (l : RedisLock) (w : World) :
  io w = [] ->
  Release l w =
    (None,
     if decide (current (key l) w = Some (value l))
     then set_redis (delete (key l) (redis w)) w else w).
Proof.
  intros Hio. unfold Release, Eval_release, bind, current.
  rewrite (roundtrip_healthy _ Hio). unfold gets, ret, modify.
  destruct (redis w !! key l) as [[v t]|] eqn:E; simpl.
  - destruct (decide (v = value l)) as [->|Hne]; case_decide;
      try reflexivity; congruence.
  - reflexivity.
Qed.

(** A release touches the key of its handle at most, and only when the
    key holds the value of the handle: this holds for every script of
    round-trip outcomes. *)
Lemma Release_stale (l : RedisLock) (w : World) :
  current (key l) w <> Some (value l) -> redis (Release l w).2 = redis w.
Proof.
  intros Hne. unfold Release, Eval_release, bind, roundtrip, current in *.
  destruct w as [r o n a m s]; simpl in *.
  destruct s as [|[msg|] s]; simpl; try reflexivity;
    (destruct (r !! key l) as [[v t]|] eqn:E; simpl in *; try reflexivity;
     destruct (decide (v = value l)); [congruence | reflexivity]).
Qed.

Lemma Release_frame (l : RedisLock) (w : World) (k : string) :
  k <> key l -> redis (Release l w).2 !! k = redis w !! k.
Proof.
  intros Hk. unfold Release, Eval_release, bind, roundtrip.
  destruct w as [r o n a m s]; simpl.
  destruct s as [|[msg|] s]; simpl; try reflexivity;
    (destruct (r !! key l) as [[v t]|] eqn:E; simpl; try reflexivity;
     destruct (decide (v = value l)); simpl; [|reflexivity];
     now rewrite lookup_delete_ne).
Qed.

(** The release on any connection: one round trip, and what it leaves. *)
Lemma Release_served (l : RedisLock) (w : World) :
  hd None (io w) = None ->
  Release l w =
    (None,
     if decide (current (key l) w = Some (value l))
     then set_redis (delete (key l) (redis w)) (set_io (tl (io w)) w)
     else set_io (tl (io w)) w).
Proof.
  intros Hio. unfold Release, Eval_release, bind, current.
  rewrite (roundtrip_served _ Hio). unfold gets, ret, modify.
  destruct w as [r o n a m s]; simpl.
  destruct (r !! key l) as [[v t]|] eqn:E; simpl.
  - destruct (decide (v = value l)) as [->|Hne]; case_decide;
      try reflexivity; congruence.
  - reflexivity.
Qed.

Lemma Release_failed (l : RedisLock) (w : World) (msg : string) :
  hd None (io w) = Some msg ->
  Release l w = (Some (ErrIO msg), set_io (tl (io w)) w).
Proof.
  unfold Release, Eval_release, bind, roundtrip.
  destruct w as [r o n a m s]; simpl.
  destruct s as [|[x|] s]; simpl; try discriminate. now intros [= ->].
Qed.

Lemma Release_one_round_trip (l : RedisLock) (w : World) :
  io (Release l w).2 = tl (io w).
Proof.
  destruct (hd None (io w)) as [msg|] eqn:Hio.
  - rewrite (Release_failed _ _ _ Hio). now destruct w.
  - rewrite (Release_served _ _ Hio). case_decide; now destruct w.
Qed.

(** C5: release is a compare-and-delete done by one Redis command.
    - On a connection that serves every call it deletes the key of the
      handle when the key still holds the handle's value, and leaves
      Redis as it is when the key holds another value or none (a stale or
      foreign handle); a second release changes nothing more.
    - Whatever the connection does, a release with a stale or foreign
      value never changes Redis, and no release touches another key.
    - Check and delete are a single command: whatever the connection
      does, a release makes exactly one round trip.  When that round trip
      is served, the comparison is made on the state of Redis the command
      finds and the deletion leads from that same state, with nothing in
      between; when it fails, the error is returned and Redis is as it
      was. *)
Theorem Release_compare_and_delete (l : RedisLock) (w : World) :
  (io w = [] ->
     (Release l w).1 = None
     /\ (current (key l) w = Some (value l) ->
         redis (Release l w).2 = delete (key l) (redis w))
     /\ Release l (Release l w).2 = (None, (Release l w).2))
  /\ (current (key l) w <> Some (value l) -> redis (Release l w).2 = redis w)
  /\ (forall k, k <> key l -> redis (Release l w).2 !! k = redis w !! k)
  /\ io (Release l w).2 = tl (io w)
  /\ (hd None (io w) = None ->
      Release l w =
        (None,
         if decide (current (key l) w = Some (value l))
         then set_redis (delete (key l) (redis w)) (set_io (tl (io w)) w)
         else set_io (tl (io w)) w))
  /\ (forall msg, hd None (io w) = Some msg ->
      Release l w = (Some (ErrIO msg), set_io (tl (io w)) w)).
Proof.
  split; [|split; [apply Release_stale | split; [intros k; apply Release_frame|]]].
  - intros Hio. rewrite (Release_healthy _ _ Hio).
    destruct (decide (current (key l) w = Some (value l))) as [Heq|Hne]; simpl.
    + split; [reflexivity|]. split; [reflexivity|].
      rewrite Release_healthy by (destruct w; exact Hio).
      case_decide as Hc; [|reflexivity].
      unfold current in Hc. destruct w; simpl in Hc.
      rewrite lookup_delete_eq in Hc. discriminate.
    + split; [reflexivity|]. split; [intros; contradiction|].
      rewrite (Release_healthy _ _ Hio). case_decide; [contradiction | reflexivity].
  - split; [apply Release_one_round_trip|].
    split; [apply Release_served | intros msg; apply Release_failed].
Qed.

Lemma Acquire_served (l : RedisLocker) (entropy : option (list Z))
    (now : Z) (k : string) (ttl : Z) (w : World) :
  hd None (io w) = None ->
  Acquire l entropy now k ttl w =
    match redis w !! (prefix l +:+ k) with
    | None =>
        (Ok {| key := prefix l +:+ k; value := randomLockValue entropy now |},
         set_redis (<[prefix l +:+ k := (randomLockValue entropy now, ttl)]> (redis w))
                   (set_io (tl (io w)) w))
    | Some _ => (Err ErrLockNotAcquired, set_io (tl (io w)) w)
    end.
Proof.
  intros Hio. unfold Acquire, SetNX, bind.
  rewrite (roundtrip_served _ Hio). unfold gets, modify, ret.
  destruct w as [r o n a m s]; simpl.
  destruct (r !! (prefix l +:+ k)); reflexivity.
Qed.

(** Mutual exclusion: after a successful acquire, and until the key
    expires or is released, a second acquire of the same key is refused
    and leaves the lock of the first holder in place. *)
Theorem Acquire_excludes_second_holder
    (l : RedisLocker) (e1 e2 : option (list Z)) (n1 n2 : Z) (k : string)
    (ttl1 ttl2 : Z) (w w1 : World) (held : RedisLock) :
  hd None (io w) = None ->
  Acquire l e1 n1 k ttl1 w = (Ok held, w1) ->
  hd None (io w1) = None ->
  (Acquire l e2 n2 k ttl2 w1).1 = Err ErrLockNotAcquired
  /\ redis (Acquire l e2 n2 k ttl2 w1).2 = redis w1
  /\ redis w1 !! key held = Some (value held, ttl1).
Proof.
  intros Hio Hfirst Hio1.
  rewrite (Acquire_served l e1 n1 k ttl1 w Hio) in Hfirst.
  destruct (redis w !! (prefix l +:+ k)) eqn:Hk; [discriminate|].
  injection Hfirst as <- <-.
  rewrite (Acquire_served l e2 n2 k ttl2 _ Hio1).
  assert (Hset : redis (set_redis (<[prefix l +:+ k:=(randomLockValue e1 n1, ttl1)]> (redis w))
                          (set_io (tl (io w)) w)) !! (prefix l +:+ k)
                 = Some (randomLockValue e1 n1, ttl1)).
  { destruct w; simpl. now rewrite lookup_insert_eq. }
  rewrite Hset. simpl. repeat split; now destruct w.
Qed.


(** [hex.EncodeToString] on bytes: two digits per byte, and different
    bytes give different digits. *)
Lemma hexbyte_inj_range :
  Forall (fun b1 => Forall (fun b2 => hexbyte b1 = hexbyte b2 -> b1 = b2) (seqZ 0 256))
         (seqZ 0 256).
Proof. apply (bool_decide_unpack _). vm_compute. exact I. Qed.

Lemma hexbyte_length_range :
  Forall (fun b => String.length (hexbyte b) = 2%nat) (seqZ 0 256).
Proof. apply (bool_decide_unpack _). vm_compute. exact I. Qed.

Lemma hexbyte_inj (b1 b2 : Z) :
  0 <= b1 < 256 -> 0 <= b2 < 256 -> hexbyte b1 = hexbyte b2 -> b1 = b2.
Proof.
  intros H1 H2.
  pose proof hexbyte_inj_range as Hall.
  rewrite Forall_forall in Hall.
  specialize (Hall b1). rewrite Forall_forall in Hall.
  apply Hall; apply elem_of_seqZ; lia.
Qed.

Lemma hexbyte_length (b : Z) : 0 <= b < 256 -> String.length (hexbyte b) = 2%nat.
Proof.
  intros Hb. pose proof hexbyte_length_range as Hall.
  rewrite Forall_forall in Hall. apply Hall, elem_of_seqZ. lia.
Qed.

Lemma length_append (a b : string) :
  String.length (a +:+ b) = (String.length a + String.length b)%nat.
Proof. induction a as [|c a IH]; simpl; [reflexivity | now rewrite IH]. Qed.

Lemma append_inj_length (a1 a2 b1 b2 : string) :
  String.length a1 = String.length a2 -> a1 +:+ b1 = a2 +:+ b2 -> a1 = a2 /\ b1 = b2.
Proof.
  revert a2. induction a1 as [|c a1 IH]; intros [|c2 a2]; simpl; try discriminate.
  - auto.
  - intros [= Hlen] [= -> Happ]. destruct (IH _ Hlen Happ) as [-> ->]. auto.
Qed.

Lemma EncodeToString_length (bs : list Z) :
  Forall (fun b => 0 <= b < 256) bs ->
  String.length (EncodeToString bs) = (2 * length bs)%nat.
Proof.
  induction 1 as [|b bs Hb _ IH]; simpl; [reflexivity|].
  rewrite length_append, IH, (hexbyte_length b Hb). lia.
Qed.

Lemma EncodeToString_inj (bs1 bs2 : list Z) :
  Forall (fun b => 0 <= b < 256) bs1 -> Forall (fun b => 0 <= b < 256) bs2 ->
  EncodeToString bs1 = EncodeToString bs2 -> bs1 = bs2.
Proof.
  intros H1. revert bs2. induction H1 as [|b1 bs1 Hb1 H1 IH]; intros bs2 H2 Heq.
  - destruct H2 as [|b2 bs2 Hb2 H2]; [reflexivity|].
    apply (f_equal String.length) in Heq. simpl in Heq.
    rewrite length_append, (hexbyte_length b2 Hb2) in Heq. discriminate.
  - destruct H2 as [|b2 bs2 Hb2 H2].
    + apply (f_equal String.length) in Heq. simpl in Heq.
      rewrite length_append, (hexbyte_length b1 Hb1) in Heq. discriminate.
    + simpl in Heq. apply append_inj_length in Heq as [Hb Hrest].
      * f_equal; [now apply hexbyte_inj | now apply IH].
      * now rewrite !hexbyte_length.
Qed.

Lemma byte_shiftr (n k : Z) : 0 <= k -> byte (Z.shiftr n k) = (n / 2 ^ k) mod 256.
Proof.
  intros Hk. unfold byte. change 255 with (Z.ones 8).
  rewrite Z.land_ones by lia. now rewrite Z.shiftr_div_pow2.
Qed.

Lemma byte_mod (n : Z) : byte n = n mod 256.
Proof. unfold byte. change 255 with (Z.ones 8). now rewrite Z.land_ones by lia. Qed.

Lemma byte_range (n : Z) : 0 <= byte n < 256.
Proof. rewrite byte_mod. apply Z.mod_pos_bound. lia. Qed.

(** The eight bytes the fallback of [randomLockValue] encodes are the
    low 64 bits of the clock reading, most significant byte first. *)
Lemma low64_bytes (n : Z) :
  n mod 2 ^ 64 =
    (n / 2 ^ 56) mod 256 * 2 ^ 56 + (n / 2 ^ 48) mod 256 * 2 ^ 48
    + (n / 2 ^ 40) mod 256 * 2 ^ 40 + (n / 2 ^ 32) mod 256 * 2 ^ 32
    + (n / 2 ^ 24) mod 256 * 2 ^ 24 + (n / 2 ^ 16) mod 256 * 2 ^ 16
    + (n / 2 ^ 8) mod 256 * 2 ^ 8 + n mod 256.
Proof.
  assert (Hstep : forall a k, 0 <= k ->
            a mod 2 ^ (k + 8) = (a / 2 ^ k) mod 256 * 2 ^ k + a mod 2 ^ k).
  { intros a k Hk. rewrite Z.pow_add_r by lia.
    rewrite Z.rem_mul_r by lia. change (2 ^ 8) with 256. lia. }
  change 64 with (56 + 8). rewrite Hstep by lia.
  change 56 with (48 + 8) at 3. rewrite Hstep by lia.
  change 48 with (40 + 8) at 3. rewrite Hstep by lia.
  change 40 with (32 + 8) at 3. rewrite Hstep by lia.
  change 32 with (24 + 8) at 3. rewrite Hstep by lia.
  change 24 with (16 + 8) at 3. rewrite Hstep by lia.
  change 16 with (8 + 8) at 3. rewrite Hstep by lia.
  change (n mod 2 ^ 8) with (n mod 256). lia.
Qed.

(** The handle of a successful acquire records the value drawn for it. *)
Lemma Acquire_value (l : RedisLocker) (entropy : option (list Z)) (now : Z)
    (k : string) (ttl : Z) (w : World) (h : RedisLock) :
  (Acquire l entropy now k ttl w).1 = Ok h -> value h = randomLockValue entropy now.
Proof.
  unfold Acquire, SetNX, bind, roundtrip, gets, modify, ret.
  destruct w as [r o n a m s]; simpl.
  destruct s as [|[msg|] s]; simpl; try discriminate;
    (destruct (r !! (prefix l +:+ k)); simpl; [discriminate|]; now intros [= <-]).
Qed.

(** Two lock values that are equal were drawn from the same entropy: the
    same sixteen bytes of [crypto/rand], or on the fallback the same low
    64 bits of the clock. *)
Lemma randomLockValue_fresh (e1 e2 : option (list Z)) (n1 n2 : Z) :
  drawn e1 -> drawn e2 ->
  randomLockValue e1 n1 = randomLockValue e2 n2 ->
  e1 = e2 /\ (e1 = None -> n1 mod 2 ^ 64 = n2 mod 2 ^ 64).
Proof.
  assert (Hlen : forall (b : list Z) (n : Z),
             drawn (Some b) ->
             randomLockValue (Some b) n <> randomLockValue None n2
             /\ randomLockValue (Some b) n <> randomLockValue None n1).
  { intros b n [Hl Hb].
    split; intros Heq; apply (f_equal String.length) in Heq;
      unfold randomLockValue in Heq;
      rewrite (EncodeToString_length b Hb), Hl in Heq;
      rewrite EncodeToString_length in Heq by (repeat constructor; apply byte_range);
      discriminate. }
  destruct e1 as [b1|], e2 as [b2|]; intros H1 H2 Heq.
  - destruct H1 as [_ H1], H2 as [_ H2]. simpl in Heq.
    apply (EncodeToString_inj _ _ H1 H2) in Heq. subst. split; [reflexivity | discriminate].
  - now destruct (Hlen b1 n1 H1) as [Hne _].
  - symmetry in Heq. now destruct (Hlen b2 n2 H2) as [_ Hne].
  - split; [reflexivity|]. intros _. unfold randomLockValue in Heq.
    apply EncodeToString_inj in Heq;
      [|repeat constructor; apply byte_range..].
    rewrite !byte_shiftr, !byte_mod in Heq by lia.
    injection Heq as E7 E6 E5 E4 E3 E2 E1 E0.
    rewrite (low64_bytes n1), (low64_bytes n2). congruence.
Qed.

(** C6: acquire sets the key to a fresh random value only if it is
    absent, and does not wait.
    - On a served call, acquire sets the prefixed key to the value drawn
      for this call, with the given TTL, exactly when the key is absent,
      and returns the handle that records key and value; when the key is
      present it fails with ErrLockNotAcquired and changes nothing.
      Either way it has made one round trip and returns.
    - The value is fresh: it is the hex encoding of the sixteen bytes
      [crypto/rand] delivered for this call, and whenever the handle of
      any other successful acquire (any locker, key, TTL and state)
      records the same value, that acquire drew the same entropy.  On the
      fallback, when [crypto/rand] fails, the entropy is the clock and
      equal values mean readings that agree in their low 64 bits. *)
Theorem Acquire_set_if_absent (l : RedisLocker) (entropy : option (list Z))
    (now : Z) (k : string) (ttl : Z) (w : World) :
  hd None (io w) = None ->
  let fullKey := prefix l +:+ k in
  let v := randomLockValue entropy now in
  let served := set_io (tl (io w)) w in
  Acquire l entropy now k ttl w =
    match redis w !! fullKey with
    | None =>
        (Ok {| key := fullKey; value := v |},
         set_redis (<[fullKey := (v, ttl)]> (redis w)) served)
    | Some _ => (Err ErrLockNotAcquired, served)
    end
  /\ (drawn entropy ->
      (forall b, entropy = Some b -> v = EncodeToString b /\ String.length v = 32%nat)
      /\ forall (l' : RedisLocker) (entropy' : option (list Z)) (now' : Z)
           (k' : string) (ttl' : Z) (w' : World) (h h' : RedisLock),
          drawn entropy' ->
          (Acquire l entropy now k ttl w).1 = Ok h ->
          (Acquire l' entropy' now' k' ttl' w').1 = Ok h' ->
          value h = value h' ->
          entropy = entropy'
          /\ (entropy = None -> now mod 2 ^ 64 = now' mod 2 ^ 64)).
Proof.
  intros Hio fullKey v served.
  split; [exact (Acquire_served l entropy now k ttl w Hio)|].
  intros Hd. split.
  - intros b ->. split; [reflexivity|]. destruct Hd as [Hl Hb].
    subst v. simpl. now rewrite (EncodeToString_length b Hb), Hl.
  - intros l' entropy' now' k' ttl' w' h h' Hd' Hh Hh' Heq.
    apply Acquire_value in Hh, Hh'. rewrite Hh, Hh' in Heq.
    exact (randomLockValue_fresh _ _ _ _ Hd Hd' Heq).
Qed.

(** Lock values tell their holders apart.  Two values drawn from
    different entropy are different; two fallback values are different
    unless the clock readings agree in their low 64 bits; a value has two
    hex digits per byte of entropy, and the fallback value has 16. *)
Theorem randomLockValue_injective (e1 e2 : list Z) (n1 n2 : Z) :
  Forall (fun b => 0 <= b < 256) e1 -> Forall (fun b => 0 <= b < 256) e2 ->
  (randomLockValue (Some e1) n1 = randomLockValue (Some e2) n2 -> e1 = e2)
  /\ (randomLockValue None n1 = randomLockValue None n2 -> n1 mod 2 ^ 64 = n2 mod 2 ^ 64)
  /\ String.length (randomLockValue (Some e1) n1) = (2 * length e1)%nat
  /\ String.length (randomLockValue None n1) = 16%nat.
Proof.
  intros H1 H2. split; [|split; [|split]].
  - simpl. now apply EncodeToString_inj.
  - unfold randomLockValue. intros Heq.
    apply EncodeToString_inj in Heq;
      [|repeat constructor; apply byte_range..].
    rewrite !byte_shiftr, !byte_mod in Heq by lia.
    injection Heq as E7 E6 E5 E4 E3 E2 E1 E0.
    rewrite (low64_bytes n1), (low64_bytes n2). congruence.
  - simpl. now apply EncodeToString_length.
  - unfold randomLockValue.
    rewrite EncodeToString_length by (repeat constructor; apply byte_range).
    reflexivity.
Qed.

(** Acquire and release are inverse to each other: on a connection that
    serves every call and with the key free, acquire sets the prefixed
    key and nothing else, and the release of the handle it returns leaves
    the world exactly as it was before the acquire. *)
Theorem Acquire_Release_restores (l : RedisLocker) (entropy : option (list Z))
    (now : Z) (k : string) (ttl : Z) (w : World) :
  io w = [] -> redis w !! (prefix l +:+ k) = None ->
  exists held,
    Acquire l entropy now k ttl w
    = (Ok held, set_redis (<[key held := (value held, ttl)]> (redis w)) w)
    /\ key held = prefix l +:+ k
    /\ Release held (Acquire l entropy now k ttl w).2 = (None, w).
Proof.
  intros Hio Hk.
  assert (Hhd : hd None (io w) = None) by now rewrite Hio.
  rewrite (Acquire_served l entropy now k ttl w Hhd), Hk.
  exists {| key := prefix l +:+ k; value := randomLockValue entropy now |}.
  split; [|split]; [| reflexivity |].
  - simpl. f_equal. destruct w; simpl in *. now subst.
  - simpl. rewrite Release_healthy by (destruct w; simpl in *; now subst).
    unfold current. simpl.
    destruct w as [r o n a m s]; simpl in *. subst s.
    rewrite lookup_insert_eq. simpl. case_decide; [|congruence].
    unfold set_redis; simpl. now rewrite delete_insert_id.
Qed.

(** Whatever the connection does, acquire leaves every other Redis key
    and both tables alone; when the round trip fails it returns the
    transport error as it is and Redis is unchanged. *)
Theorem Acquire_touches_only_its_key (l : RedisLocker) (entropy : option (list Z))
    (now : Z) (k : string) (ttl : Z) (w : World) (k' : string) :
  k' <> prefix l +:+ k ->
  let a := Acquire l entropy now k ttl w in
  redis a.2 !! k' = redis w !! k'
  /\ orders a.2 = orders w /\ nft_assets a.2 = nft_assets w
  /\ (forall msg, hd None (io w) = Some msg ->
        a.1 = Err (ErrIO msg) /\ redis a.2 = redis w).
Proof.
  intros Hk. unfold Acquire, SetNX, bind, roundtrip, gets, modify, ret.
  destruct w as [r o n a m s]; simpl.
  destruct s as [|[msg|] s]; simpl;
    try (destruct (r !! (prefix l +:+ k)); simpl);
    repeat split; try reflexivity; try discriminate;
    try (rewrite lookup_insert_ne by congruence; reflexivity).
  all: congruence.
Qed.

(** The TTL race, end to end.  A first holder acquires the key, its TTL
    runs out, and a second holder acquires it with other entropy.  The
    late release of the first handle then changes nothing: the key still
    carries the value and the TTL of the second holder, whose own release
    deletes it. *)
Theorem stale_Release_spares_new_holder (l : RedisLocker) (e1 e2 : list Z)
    (n1 n2 : Z) (k : string) (ttl1 ttl2 : Z) (w : World) :
  Forall (fun b => 0 <= b < 256) e1 -> Forall (fun b => 0 <= b < 256) e2 ->
  e1 <> e2 ->
  io w = [] -> redis w !! (prefix l +:+ k) = None ->
  let a := Acquire l (Some e1) n1 k ttl1 w in
  let b := Acquire l (Some e2) n2 k ttl2 (expire (prefix l +:+ k) a.2) in
  exists h1 h2,
    a.1 = Ok h1 /\ b.1 = Ok h2
    /\ Release h1 b.2 = (None, b.2)
    /\ redis b.2 !! key h2 = Some (value h2, ttl2)
    /\ redis (Release h2 b.2).2 !! key h2 = None.
Proof.
  intros H1 H2 Hne Hio Hk a b.
  assert (Hhd : hd None (io w) = None) by now rewrite Hio.
  assert (Ha : a = (Ok {| key := prefix l +:+ k; value := EncodeToString e1 |},
                    set_redis (<[prefix l +:+ k := (EncodeToString e1, ttl1)]> (redis w)) w)).
  { unfold a. rewrite (Acquire_served l _ n1 k ttl1 w Hhd), Hk. simpl.
    f_equal. destruct w; simpl in *. now subst. }
  assert (Hexp : expire (prefix l +:+ k) a.2 = w).
  { rewrite Ha. unfold expire, set_redis; simpl.
    rewrite delete_insert_id by exact Hk. now destruct w. }
  assert (Hb : b = (Ok {| key := prefix l +:+ k; value := EncodeToString e2 |},
                    set_redis (<[prefix l +:+ k := (EncodeToString e2, ttl2)]> (redis w)) w)).
  { unfold b. rewrite Hexp, (Acquire_served l _ n2 k ttl2 w Hhd), Hk. simpl.
    f_equal. destruct w; simpl in *. now subst. }
  exists {| key := prefix l +:+ k; value := EncodeToString e1 |},
         {| key := prefix l +:+ k; value := EncodeToString e2 |}.
  rewrite Ha, Hb. simpl.
  assert (Hio' : forall r, io (set_redis r w) = []) by (intros; now destruct w).
  split; [reflexivity|]. split; [reflexivity|]. split; [|split].
  - rewrite Release_healthy by apply Hio'. unfold current; simpl.
    rewrite lookup_insert_eq; simpl. case_decide as Hc; [|reflexivity].
    injection Hc as Hc. symmetry in Hc. now apply EncodeToString_inj in Hc.
  - now rewrite lookup_insert_eq.
  - rewrite Release_healthy by apply Hio'. unfold current; simpl.
    rewrite lookup_insert_eq; simpl. case_decide; [|congruence].
    simpl. now rewrite lookup_delete_eq.
Qed.

End LockProps.

(** ** The [nft_assets] store *)

Module AssetProps.
Import NftAsset NftAssetStore.

Lemma NullInt64_default (v : Z) : default 0 (NullInt64 v) = v.
Proof. unfold NullInt64. case_bool_decide; simpl; congruence. Qed.

Lemma NullString_default (s : string) : default "" (NullString s) = s.
Proof. unfold NullString. case_bool_decide; simpl; congruence. Qed.

Lemma NullInt64_None (v : Z) : NullInt64 v = None <-> v = 0.
Proof. unfold NullInt64. case_bool_decide; split; congruence. Qed.

Lemma NullString_None (s : string) : NullString s = None <-> s = "".
Proof. unfold NullString. case_bool_decide; split; congruence. Qed.

Lemma scan_stored (n : Z) (a : t) : scan (stored n a) = with_ID n a.
Proof.
  unfold scan, stored, with_ID; simpl.
  now rewrite !NullInt64_default, NullString_default.
Qed.

Lemma scan_zeroed (r : row) : scan (zeroed r) = scan r.
Proof. reflexivity. Qed.

Lemma find_id_fresh (n : Z) (rows : list row) (r : row) :
  Forall (fun x => id x < n) rows -> id r = n ->
  find (fun x => bool_decide (id x = n)) (rows ++ [r]) = Some r.
Proof.
  intros Hall Hr. induction Hall as [|x rows Hx Hall IH]; simpl.
  - now rewrite bool_decide_eq_true_2.
  - rewrite bool_decide_eq_false_2 by lia. exact IH.
Qed.

Lemma GetByNFT_healthy (addr : string) (tid : Z) (w : World) :
  io w = [] ->
  GetByNFT addr tid w
  = (match find (is_nft addr tid) (nft_assets w) with
     | Some r => Ok (scan r)
     | None => Err ErrNoRows
     end, w).
Proof.
  intros Hio. unfold GetByNFT, bind. rewrite (roundtrip_healthy _ Hio).
  unfold gets, ret. now destruct (find _ (nft_assets w)).
Qed.

(** The WHERE clause of the lookup by NFT selects the row [Insert] wrote
    for [a] exactly when address and token id are those of [a] and
    neither was stored as NULL. *)
Lemma is_nft_stored (addr : string) (tid n : Z) (a : t) :
  is_nft addr tid (stored n a) = true
  <-> NFTAddress a = addr /\ TokenID a = tid /\ addr <> "" /\ tid <> 0.
Proof.
  unfold is_nft, stored, NullString, NullInt64; simpl.
  rewrite andb_true_iff, !bool_decide_eq_true.
  repeat case_bool_decide; split; intros Hx.
  all: try (destruct Hx as [Hx1 Hx2]; discriminate).
  all: try (destruct Hx as (Hx1 & Hx2 & Hx3 & Hx4); exfalso; congruence).
  - destruct Hx as [[= <-] [= <-]]; auto.
  - destruct Hx as (-> & -> & _ & _); auto.
Qed.

(** Once the columns hold 0 and the empty string in place of NULL, the
    row is selected by the address and the token id the struct carries. *)
Lemma is_nft_zeroed (n : Z) (a : t) :
  is_nft (NFTAddress a) (TokenID a) (zeroed (stored n a)) = true.
Proof.
  unfold is_nft, zeroed, stored; simpl.
  now rewrite NullString_default, NullInt64_default, !bool_decide_eq_true_2.
Qed.

(** C9, as the code has it: in what is written and read back, an unset
    chain identity is the zero value, not something apart from it; only
    the selection by address and token id tells the two apart.  On a
    connection that serves every call and a table whose keys lie below
    the next AUTO_INCREMENT value:
    - [Insert] returns the new key and writes NULL into [token_id],
      [nft_address], [amount] exactly where the field is 0, the empty
      string, 0;
    - [GetByID] of the new key gives the inserted struct back with its
      key, and gives the same struct for the row in which those NULLs
      are replaced by 0 and the empty string;
    - [GetByNFT], asked for an address and a token id no earlier row
      carries, selects the new row exactly when they are those of the
      struct and neither is the empty string or 0, and then gives the
      inserted struct back with its key (an unset amount as 0); an asset
      inserted with token id 0 or without an address is not found by
      them;
    - the row with 0 and the empty string in place of the NULLs is found
      by the address and the token id of the struct, and reads back as
      the same struct. *)
Theorem Insert_GetByID_unset_is_zero (a : t) (w : World) :
  io w = [] ->
  Forall (fun x => id x < next_asset_id w) (nft_assets w) ->
  let n := next_asset_id w in
  let w' := (Insert a w).2 in
  let w0 := set_nft_assets (nft_assets w ++ [zeroed (stored n a)]) w' in
  (Insert a w).1 = Ok n
  /\ nft_assets w' = nft_assets w ++ [stored n a]
  /\ (token_id (stored n a) = None <-> TokenID a = 0)
  /\ (nft_address (stored n a) = None <-> NFTAddress a = "")
  /\ (amount (stored n a) = None <-> Amount a = 0)
  /\ (GetByID n w').1 = Ok (with_ID n a)
  /\ (GetByID n w0).1 = Ok (with_ID n a)
  /\ (forall addr tid,
        find (is_nft addr tid) (nft_assets w) = None ->
        (GetByNFT addr tid w').1
        = if bool_decide (NFTAddress a = addr /\ TokenID a = tid
                          /\ addr <> "" /\ tid <> 0)
          then Ok (with_ID n a) else Err ErrNoRows)
  /\ (find (is_nft (NFTAddress a) (TokenID a)) (nft_assets w) = None ->
      ((TokenID a = 0 \/ NFTAddress a = "") ->
       (GetByNFT (NFTAddress a) (TokenID a) w').1 = Err ErrNoRows)
      /\ (GetByNFT (NFTAddress a) (TokenID a) w0).1 = Ok (with_ID n a)).
Proof.
  intros Hio Hall n w' w0.
  assert (Hins : Insert a w =
                 (Ok n, set_next_asset_id (n + 1)
                          (set_nft_assets (nft_assets w ++ [stored n a]) w))).
  { unfold Insert, bind. rewrite (roundtrip_healthy _ Hio). reflexivity. }
  assert (Hby : forall addr tid,
             find (is_nft addr tid) (nft_assets w) = None ->
             (GetByNFT addr tid w').1
             = if bool_decide (NFTAddress a = addr /\ TokenID a = tid
                               /\ addr <> "" /\ tid <> 0)
               then Ok (with_ID n a) else Err ErrNoRows).
  { intros addr tid Hnone. subst w'. rewrite Hins; simpl.
    assert (Hrows : nft_assets (set_next_asset_id (n + 1)
                      (set_nft_assets (nft_assets w ++ [stored n a]) w))
                    = nft_assets w ++ [stored n a]) by now destruct w.
    rewrite GetByNFT_healthy by (now destruct w). cbn [fst].
    rewrite Hrows, find_app_last, Hnone.
    pose proof (is_nft_stored addr tid n a) as Hiff.
    destruct (is_nft addr tid (stored n a)).
    - rewrite bool_decide_eq_true_2 by now apply Hiff.
      now rewrite scan_stored.
    - rewrite bool_decide_eq_false_2; [reflexivity|].
      intros Hc. apply Hiff in Hc. discriminate. }
  subst w0 w'. rewrite Hins in *; simpl in *.
  split; [reflexivity|]. split; [now destruct w|].
  split; [apply NullInt64_None|]. split; [apply NullString_None|].
  split; [apply NullInt64_None|].
  split; [|split; [|split; [exact Hby|]]].
  - unfold GetByID, bind. rewrite roundtrip_healthy by (now destruct w).
    unfold gets, ret. destruct w as [r o m rows k s]; simpl in *.
    rewrite (find_id_fresh n rows (stored n a) Hall eq_refl).
    simpl. now rewrite scan_stored.
  - unfold GetByID, bind. rewrite roundtrip_healthy by (now destruct w).
    unfold gets, ret. destruct w as [r o m rows k s]; simpl in *.
    rewrite (find_id_fresh n rows (zeroed (stored n a)) Hall eq_refl).
    simpl. now rewrite scan_zeroed, scan_stored.
  - intros Hnone. split.
    + intros Hzero. rewrite (Hby _ _ Hnone).
      rewrite bool_decide_eq_false_2; [reflexivity|].
      intros (_ & _ & Ha & Ht). destruct Hzero; congruence.
    + assert (Hrows : nft_assets (set_nft_assets (nft_assets w ++ [zeroed (stored n a)])
                        (set_next_asset_id (n + 1)
                           (set_nft_assets (nft_assets w ++ [stored n a]) w)))
                      = nft_assets w ++ [zeroed (stored n a)]) by now destruct w.
      rewrite GetByNFT_healthy by (now destruct w). cbn [fst].
      rewrite Hrows, find_app_last, Hnone, is_nft_zeroed.
      now rewrite scan_zeroed, scan_stored.
Qed.

Lemma update_healthy (P : row -> bool) (g : row -> row) (w : World) :
  io w = [] ->
  update P g w
  = (None, set_nft_assets (map (fun r => if P r then g r else r) (nft_assets w)) w).
Proof.
  intros Hio. unfold update, bind. now rewrite (roundtrip_healthy _ Hio).
Qed.

Lemma asset_GetByID_healthy (i : Z) (w : World) :
  io w = [] ->
  GetByID i w
  = (match find (fun r => bool_decide (id r = i)) (nft_assets w) with
     | Some r => Ok (scan r)
     | None => Err ErrNoRows
     end, w).
Proof.
  intros Hio. unfold GetByID, bind. rewrite (roundtrip_healthy _ Hio).
  unfold gets, ret. now destruct (find _ (nft_assets w)).
Qed.

Lemma find_map_keep (P : row -> bool) (g : row -> row) (rows : list row) :
  (forall x, P (g x) = P x) -> find P (map g rows) = g <$> find P rows.
Proof.
  intros Hk. induction rows as [|x rows IH]; simpl; [reflexivity|].
  rewrite Hk. destruct (P x); [reflexivity | exact IH].
Qed.

Lemma map_unmatched (P : row -> bool) (g : row -> row) (rows : list row) :
  Forall (fun r => P r = false) rows ->
  map (fun r => if P r then g r else r) rows = rows.
Proof.
  induction 1 as [|x rows Hx _ IH]; simpl; [reflexivity|].
  now rewrite Hx, IH.
Qed.

Lemma find_none_Forall (P : row -> bool) (rows : list row) :
  find P rows = None -> Forall (fun r => P r = false) rows.
Proof.
  induction rows as [|x rows IH]; simpl; [constructor|].
  destruct (P x) eqn:Hx; [discriminate|]. intros Hf. constructor; auto.
Qed.

Lemma set_nft_assets_same (w : World) : set_nft_assets (nft_assets w) w = w.
Proof. now destruct w. Qed.

Lemma UpdateMintInfo_read_back (i tokenID : Z) (nftAddress : string) (amt : Z)
    (w : World) :
  io w = [] ->
  let u := UpdateMintInfo i tokenID nftAddress amt w in
  u.1 = None
  /\ match find (fun r => bool_decide (id r = i)) (nft_assets w) with
     | Some r =>
         GetByID i u.2
         = (Ok (if decide (deleted r = 0)
                then mk i (name r) (owner r) (cid r) (url r)
                        tokenID nftAddress amt 0
                else scan r), u.2)
     | None => u.2 = w /\ GetByID i u.2 = (Err ErrNoRows, u.2)
     end.
Proof.
  intros Hio u. unfold u, UpdateMintInfo. rewrite (update_healthy _ _ _ Hio).
  simpl. split; [reflexivity|].
  destruct (find (fun r => bool_decide (id r = i)) (nft_assets w)) as [r|] eqn:Ef.
  - rewrite asset_GetByID_healthy by (now destruct w).
    assert (Hf : find (fun r => bool_decide (id r = i))
                   (nft_assets (set_nft_assets
                      (map (fun r => if bool_decide (id r = i) && bool_decide (deleted r = 0)
                                     then set_mint tokenID nftAddress amt r else r)
                           (nft_assets w)) w))
                 = Some (if bool_decide (id r = i) && bool_decide (deleted r = 0)
                         then set_mint tokenID nftAddress amt r else r)).
    { destruct w as [rd o n rows m s]; simpl in *.
      rewrite find_map_keep, Ef; [reflexivity|].
      intros x. now destruct (bool_decide (id x = i) && bool_decide (deleted x = 0)). }
    rewrite Hf. f_equal. f_equal.
    apply find_some in Ef as [_ Hid%bool_decide_eq_true].
    rewrite (bool_decide_eq_true_2 _ Hid). simpl.
    destruct (decide (deleted r = 0)) as [Hd|Hd].
    + rewrite (bool_decide_eq_true_2 _ Hd). unfold scan, set_mint; simpl.
      now rewrite Hid, Hd.
    + now rewrite (bool_decide_eq_false_2 _ Hd).
  - assert (Hsame : map (fun r => if bool_decide (id r = i) && bool_decide (deleted r = 0)
                                  then set_mint tokenID nftAddress amt r else r)
                        (nft_assets w) = nft_assets w).
    { apply map_unmatched. apply find_none_Forall in Ef.
      eapply Forall_impl; [exact Ef|]. simpl. now intros x ->. }
    rewrite Hsame, set_nft_assets_same.
    split; [reflexivity|]. rewrite (asset_GetByID_healthy _ _ Hio). now rewrite Ef.
Qed.

(** [UpdateMintInfo] and the read that follows it.  On a connection that
    serves every call the update returns nil in every case.  For an
    undeleted asset the lookup of its key then shows the three values as
    they were given; for a soft-deleted asset it shows the asset
    unchanged; and when no asset has the key nothing is written and the
    lookup finds no row. *)
Theorem UpdateMintInfo_GetByID (i tokenID : Z) (nftAddress : string) (amt : Z)
    (w : World) :
  io w = [] ->
  let u := UpdateMintInfo i tokenID nftAddress amt w in
  u.1 = None
  /\ match find (fun r => bool_decide (id r = i)) (nft_assets w) with
     | Some r =>
         GetByID i u.2
         = (Ok (if decide (deleted r = 0)
                then mk i (name r) (owner r) (cid r) (url r)
                        tokenID nftAddress amt 0
                else scan r), u.2)
     | None => u.2 = w /\ GetByID i u.2 = (Err ErrNoRows, u.2)
     end.
Proof.
  intros Hio u. unfold u, UpdateMintInfo. rewrite (update_healthy _ _ _ Hio).
  simpl. split; [reflexivity|].
  destruct (find (fun r => bool_decide (id r = i)) (nft_assets w)) as [r|] eqn:Ef.
  - rewrite asset_GetByID_healthy by (now destruct w).
    assert (Hf : find (fun r => bool_decide (id r = i))
                   (nft_assets (set_nft_assets
                      (map (fun r => if bool_decide (id r = i) && bool_decide (deleted r = 0)
                                     then set_mint tokenID nftAddress amt r else r)
                           (nft_assets w)) w))
                 = Some (if bool_decide (id r = i) && bool_decide (deleted r = 0)
                         then set_mint tokenID nftAddress amt r else r)).
    { destruct w as [rd o n rows m s]; simpl in *.
      rewrite find_map_keep, Ef; [reflexivity|].
      intros x. now destruct (bool_decide (id x = i) && bool_decide (deleted x = 0)). }
    rewrite Hf. f_equal. f_equal.
    apply find_some in Ef as [_ Hid%bool_decide_eq_true].
    rewrite (bool_decide_eq_true_2 _ Hid). simpl.
    destruct (decide (deleted r = 0)) as [Hd|Hd].
    + rewrite (bool_decide_eq_true_2 _ Hd). unfold scan, set_mint; simpl.
      now rewrite Hid, Hd.
    + now rewrite (bool_decide_eq_false_2 _ Hd).
  - assert (Hsame : map (fun r => if bool_decide (id r = i) && bool_decide (deleted r = 0)
                                  then set_mint tokenID nftAddress amt r else r)
                        (nft_assets w) = nft_assets w).
    { apply map_unmatched. apply find_none_Forall in Ef.
      eapply Forall_impl; [exact Ef|]. simpl. now intros x ->. }
    rewrite Hsame, set_nft_assets_same.
    split; [reflexivity|]. rewrite (asset_GetByID_healthy _ _ Hio). now rewrite Ef.
Qed.

(** [UpdateOwnerByNFT] and the read that follows it.  On a connection
    that serves every call: when an asset carries the contract address
    and the token id, the lookup by them then shows it with the new owner
    and not deleted, everything else as before; when none does, the
    update returns nil all the same and nothing is written. *)
Theorem UpdateOwnerByNFT_GetByNFT (nftAddress : string) (tokenID : Z)
    (newOwner : string) (w : World) :
  io w = [] ->
  let u := UpdateOwnerByNFT nftAddress tokenID newOwner w in
  u.1 = None
  /\ match find (is_nft nftAddress tokenID) (nft_assets w) with
     | Some r =>
         GetByNFT nftAddress tokenID u.2
         = (Ok (mk (id r) (name r) newOwner (cid r) (url r)
                   tokenID nftAddress (default 0 (amount r)) 0), u.2)
     | None => u.2 = w
     end.
Proof.
  intros Hio u. unfold u, UpdateOwnerByNFT, updateOwnerByNFT.
  rewrite (update_healthy _ _ _ Hio). simpl. split; [reflexivity|].
  destruct (find (is_nft nftAddress tokenID) (nft_assets w)) as [r|] eqn:Ef.
  - rewrite GetByNFT_healthy by (now destruct w).
    assert (Hf : find (is_nft nftAddress tokenID)
                   (nft_assets (set_nft_assets
                      (map (fun r => if is_nft nftAddress tokenID r
                                     then set_deleted 0 (set_owner newOwner r) else r)
                           (nft_assets w)) w))
                 = Some (set_deleted 0 (set_owner newOwner r))).
    { destruct w as [rd o n rows m s]; simpl in *.
      rewrite find_map_keep, Ef.
      - simpl. apply find_some in Ef as [_ ->]. reflexivity.
      - intros x. now destruct (is_nft nftAddress tokenID x) eqn:Ex. }
    rewrite Hf. f_equal. f_equal.
    apply find_some in Ef as [_ Hm]. unfold is_nft in Hm.
    apply andb_true_iff in Hm as [Ha%bool_decide_eq_true Ht%bool_decide_eq_true].
    unfold scan, set_deleted, set_owner; simpl. now rewrite Ha, Ht.
  - rewrite map_unmatched by (now apply find_none_Forall).
    apply set_nft_assets_same.
Qed.

(** Soft deletion and its undoing.  On a connection that serves every
    call, [SoftDeleteByNFT] marks the assets with the given contract
    address and token id deleted, and [RestoreByNFT] after it gives the
    table back as it was, provided those assets were not deleted before.
    Neither succeeds or fails on whether an asset matched. *)
Theorem SoftDelete_Restore_roundtrip (nftAddress : string) (tokenID : Z) (w : World) :
  io w = [] ->
  Forall (fun r => is_nft nftAddress tokenID r = true -> deleted r = 0) (nft_assets w) ->
  let d := SoftDeleteByNFT nftAddress tokenID w in
  d.1 = None
  /\ Forall (fun r => is_nft nftAddress tokenID r = true -> deleted r = 1)
            (nft_assets d.2)
  /\ RestoreByNFT nftAddress tokenID d.2 = (None, w).
Proof.
  intros Hio Hund d. unfold d, SoftDeleteByNFT, softDeleteByNFT, RestoreByNFT, restoreByNFT.
  rewrite (update_healthy _ _ _ Hio). simpl. split; [reflexivity|].
  destruct w as [rd o n rows m s]; simpl in *. subst s. split.
  - clear Hund. induction rows as [|x rows IH]; simpl; constructor; [|exact IH].
    destruct (is_nft nftAddress tokenID x) eqn:Ex; [reflexivity | congruence].
  - rewrite update_healthy by reflexivity. simpl. unfold set_nft_assets; simpl.
    f_equal. f_equal. induction Hund as [|x rows Hx _ IH]; simpl; [reflexivity|].
    rewrite IH. f_equal.
    destruct (is_nft nftAddress tokenID x) eqn:Ex.
    + change (is_nft nftAddress tokenID (set_deleted 1 x)) with (is_nft nftAddress tokenID x).
      rewrite Ex. destruct x; simpl in *. now rewrite (Hx eq_refl).
    + now rewrite Ex.
Qed.

Lemma map_lookup_unmatched (P : row -> bool) (g : row -> row) (rows : list row)
    (i : nat) (r : row) :
  rows !! i = Some r -> P r = false ->
  map (fun r => if P r then g r else r) rows !! i = Some r.
Proof.
  revert i. induction rows as [|x rows IH]; intros [|i] Hl Hr; simpl in *;
    try discriminate.
  - injection Hl as ->. now rewrite Hr.
  - now apply IH.
Qed.

Lemma update_spares (P : row -> bool) (g : row -> row) (w : World) :
  let w1 := (update P g w).2 in
  length (nft_assets w1) = length (nft_assets w)
  /\ (forall i r, nft_assets w !! i = Some r -> P r = false ->
                  nft_assets w1 !! i = Some r)
  /\ orders w1 = orders w /\ redis w1 = redis w.
Proof.
  unfold update, bind, roundtrip.
  destruct w as [rd o n rows m s]; simpl.
  destruct s as [|[msg|] s]; simpl; repeat split; auto;
    try apply length_map; intros i r; apply map_lookup_unmatched.
Qed.

(** Assets out of reach of the updates by NFT.  Whatever the connection
    does, [SoftDeleteByNFT], [RestoreByNFT] and [UpdateOwnerByNFT] add
    and remove no row, leave every asset with another contract address
    or token id as it is, and never touch an asset that is not minted,
    whatever address and token id they are called with; they write
    neither to [orders] nor to Redis. *)
Theorem by_NFT_updates_spare_others (nftAddress : string) (tokenID : Z)
    (newOwner : string) (w : World) :
  Forall (fun op : M (option error) =>
            let w1 := (op w).2 in
            length (nft_assets w1) = length (nft_assets w)
            /\ (forall i r, nft_assets w !! i = Some r ->
                            is_nft nftAddress tokenID r = false ->
                            nft_assets w1 !! i = Some r)
            /\ (forall i r, nft_assets w !! i = Some r ->
                            token_id r = None \/ nft_address r = None ->
                            nft_assets w1 !! i = Some r)
            /\ orders w1 = orders w /\ redis w1 = redis w)
    [SoftDeleteByNFT nftAddress tokenID;
     RestoreByNFT nftAddress tokenID;
     UpdateOwnerByNFT nftAddress tokenID newOwner].
Proof.
  assert (Hun : forall r, token_id r = None \/ nft_address r = None ->
                          is_nft nftAddress tokenID r = false).
  { intros r [Hn|Hn]; unfold is_nft; rewrite Hn;
      [apply andb_false_r | reflexivity]. }
  constructor; [|constructor; [|constructor; [|constructor]]].
  all: unfold SoftDeleteByNFT, RestoreByNFT, UpdateOwnerByNFT,
         softDeleteByNFT, restoreByNFT, updateOwnerByNFT.
  all: match goal with
       | |- context [update ?P ?g ?w0] =>
           destruct (update_spares P g w0) as (Hlen & Hsp & Ho & Hr)
       end.
  all: simpl in *; repeat split; auto.
Qed.

Lemma elem_of_take_in {A} (x : A) (n : nat) (l : list A) : x ∈ take n l -> x ∈ l.
Proof. intros (i & Hi & _)%elem_of_take. now apply list_elem_of_lookup_2 in Hi. Qed.

Lemma ListByOwner_healthy (newest_first : list row -> list row) (o : string)
    (limit : Z) (w : World) :
  io w = [] ->
  ListByOwner newest_first o limit w
  = (Ok (scan <$> take (Z.to_nat (if limit <=? 0 then 50 else limit))
                    (newest_first (filter (fun r => owner r = o /\ deleted r = 0)
                                          (nft_assets w)))), w).
Proof.
  intros Hio. unfold ListByOwner, bind. now rewrite (roundtrip_healthy _ Hio).
Qed.

(** [ListByOwner] lists assets of the given owner that are not deleted,
    no more of them than the limit (50 when the limit given is not
    positive), each as its row reads; when the limit covers them it lists
    them all.  This holds whatever the order is in which the server hands
    the rows out. *)
Theorem ListByOwner_selects (newest_first : list row -> list row) (o : string)
    (limit : Z) (w : World) :
  (forall rows, newest_first rows ≡ₚ rows) ->
  io w = [] ->
  let bound := if limit <=? 0 then 50 else limit in
  exists l,
    ListByOwner newest_first o limit w = (Ok l, w)
    /\ Z.of_nat (length l) <= bound
    /\ (forall a, a ∈ l ->
          Owner a = o /\ Deleted a = 0 /\ exists r, r ∈ nft_assets w /\ a = scan r)
    /\ (Z.of_nat (length (filter (fun r => owner r = o /\ deleted r = 0)
                                 (nft_assets w))) <= bound ->
        forall r, r ∈ nft_assets w -> owner r = o -> deleted r = 0 -> scan r ∈ l).
Proof.
  intros Hperm Hio bound. rewrite (ListByOwner_healthy _ _ _ _ Hio). fold bound.
  assert (Hb : 0 < bound) by (unfold bound; destruct (Z.leb_spec limit 0); lia).
  eexists. split; [reflexivity|]. split; [|split].
  - rewrite length_fmap, length_take. lia.
  - intros a (r & -> & Hr)%list_elem_of_fmap.
    apply elem_of_take_in in Hr. rewrite Hperm in Hr.
    apply list_elem_of_filter in Hr as [[Ho Hd] Hin].
    split; [exact Ho|]. split; [exact Hd | now exists r].
  - intros Hlen r Hin Ho Hd. apply list_elem_of_fmap_2.
    rewrite take_ge by (rewrite Hperm; lia).
    rewrite Hperm. now apply list_elem_of_filter.
Qed.

(** A sale in the asset lists.  After [UpdateOwnerByNFT] on a connection
    that serves every call, the assets with the given contract address
    and token id are in no list but the new owner's: every asset another
    owner is shown comes from a row the update did not match.  The new
    owner is shown every one of them, soft-deleted before or not, when
    the limit covers that owner's assets. *)
Theorem UpdateOwnerByNFT_moves_listing (newest_first : list row -> list row)
    (nftAddress : string) (tokenID : Z) (newOwner o : string) (limit : Z) (w : World) :
  (forall rows, newest_first rows ≡ₚ rows) ->
  io w = [] ->
  let u := (UpdateOwnerByNFT nftAddress tokenID newOwner w).2 in
  let bound := if limit <=? 0 then 50 else limit in
  exists l,
    ListByOwner newest_first o limit u = (Ok l, u)
    /\ (o <> newOwner ->
        forall a, a ∈ l ->
          exists r, r ∈ nft_assets w /\ a = scan r
                    /\ is_nft nftAddress tokenID r = false)
    /\ (o = newOwner ->
        Z.of_nat (length (filter (fun r => owner r = o /\ deleted r = 0)
                                 (nft_assets u))) <= bound ->
        forall r, r ∈ nft_assets w -> is_nft nftAddress tokenID r = true ->
          scan (set_deleted 0 (set_owner newOwner r)) ∈ l).
Proof.
  intros Hperm Hio u bound.
  assert (Hu : u = set_nft_assets
                     (map (fun r => if is_nft nftAddress tokenID r
                                    then set_deleted 0 (set_owner newOwner r) else r)
                          (nft_assets w)) w).
  { unfold u, UpdateOwnerByNFT, updateOwnerByNFT.
    now rewrite (update_healthy _ _ _ Hio). }
  assert (Hio' : io u = []) by (rewrite Hu; now destruct w).
  assert (Hrows : nft_assets u
                  = map (fun r => if is_nft nftAddress tokenID r
                                  then set_deleted 0 (set_owner newOwner r) else r)
                        (nft_assets w)) by (rewrite Hu; now destruct w).
  rewrite (ListByOwner_healthy _ _ _ _ Hio'). fold bound.
  eexists. split; [reflexivity|]. split.
  - intros Hne a (x & -> & Hx)%list_elem_of_fmap.
    apply elem_of_take_in in Hx. rewrite Hperm in Hx.
    apply list_elem_of_filter in Hx as [[Ho Hd] Hin].
    rewrite Hrows in Hin. apply list_elem_of_fmap in Hin as (r & Hxr & Hr).
    destruct (is_nft nftAddress tokenID r) eqn:Em.
    + subst x. simpl in Ho. congruence.
    + exists r. subst x. auto.
  - intros -> Hlen r Hin Hm. apply list_elem_of_fmap_2.
    rewrite take_ge by (rewrite Hperm; lia).
    rewrite Hperm. apply list_elem_of_filter. split; [split; reflexivity|].
    rewrite Hrows. apply list_elem_of_fmap. exists r. now rewrite Hm.
Qed.

(** The duplicate check after an upload.  On a connection that serves
    every call, once an asset that is not deleted has been inserted
    [ExistsByOwnerAndURL] answers true for its owner and URL; and it
    answers false, without an error, when no undeleted row has that
    owner and URL. *)
Theorem Insert_ExistsByOwnerAndURL (a : t) (w : World) :
  io w = [] ->
  (Deleted a = 0 ->
   ExistsByOwnerAndURL (Owner a) (URL a) (Insert a w).2 = (Ok true, (Insert a w).2))
  /\ (Forall (fun r => ~ (owner r = Owner a /\ url r = URL a /\ deleted r = 0))
             (nft_assets w) ->
      ExistsByOwnerAndURL (Owner a) (URL a) w = (Ok false, w)).
Proof.
  intros Hio. split.
  - intros Hd. unfold Insert, bind. rewrite (roundtrip_healthy _ Hio).
    unfold gets, modify, ret. simpl.
    unfold ExistsByOwnerAndURL, bind. rewrite roundtrip_healthy by (now destruct w).
    unfold gets, ret. f_equal. f_equal.
    destruct w as [rd o n rows m s]; simpl.
    rewrite existsb_app. simpl.
    rewrite !bool_decide_eq_true_2 by (reflexivity || exact Hd).
    simpl. now rewrite orb_true_r.
  - intros Hnone. unfold ExistsByOwnerAndURL, bind.
    rewrite (roundtrip_healthy _ Hio). unfold gets, ret. f_equal. f_equal.
    induction Hnone as [|x rows Hx _ IH]; simpl; [reflexivity|].
    rewrite IH, orb_false_r.
    destruct (bool_decide (owner x = Owner a)) eqn:E1; [|reflexivity].
    destruct (bool_decide (url x = URL a)) eqn:E2; [|reflexivity].
    destruct (bool_decide (deleted x = 0)) eqn:E3; [|reflexivity].
    apply bool_decide_eq_true in E1, E2, E3. tauto.
Qed.

End AssetProps.

(** ** The [orders] store *)

Module OrderProps.
Import Order OrderStore.

Lemma split_first_Some (p : row -> bool) (rows pre post : list row) (r : row) :
  split_first p rows = Some (pre, r, post) ->
  rows = pre ++ r :: post /\ p r = true /\ Forall (fun x => p x = false) pre.
Proof.
  revert pre. induction rows as [|x rows IH]; simpl; intros pre Hs; [discriminate|].
  destruct (p x) eqn:Hx.
  - injection Hs as <- <- <-. auto.
  - destruct (split_first p rows) as [[[pre' r'] post']|]; [|discriminate].
    injection Hs as <- <- <-.
    destruct (IH pre' eq_refl) as (-> & Hr & Hpre). auto.
Qed.

Lemma split_first_None (p : row -> bool) (rows : list row) :
  split_first p rows = None <-> Forall (fun x => p x = false) rows.
Proof.
  induction rows as [|x rows IH]; simpl.
  - split; auto.
  - destruct (p x) eqn:Hx.
    + split; [discriminate|]. intros Hall. inversion Hall; congruence.
    + destruct (split_first p rows) as [[[pre r] post]|].
      * split; [discriminate|]. intros Hall. inversion Hall; subst.
        apply IH in H2. discriminate.
      * split; [|reflexivity]. intros _. constructor; [exact Hx | now apply IH].
Qed.

Lemma split_first_app (p : row -> bool) (pre post : list row) (r : row) :
  Forall (fun x => p x = false) pre -> p r = true ->
  split_first p (pre ++ r :: post) = Some (pre, r, post).
Proof.
  intros Hpre Hr. induction Hpre as [|x pre Hx Hpre IH]; simpl.
  - now rewrite Hr.
  - now rewrite Hx, IH.
Qed.

Lemma find_split_first (p : row -> bool) (rows : list row) :
  find p rows = (fun x => x.1.2) <$> split_first p rows.
Proof.
  induction rows as [|x rows IH]; simpl; [reflexivity|].
  destruct (p x); [reflexivity|]. rewrite IH.
  now destruct (split_first p rows) as [[[pre r] post]|].
Qed.

Lemma existsb_false (p : row -> bool) (rows : list row) :
  existsb p rows = false <-> Forall (fun x => p x = false) rows.
Proof.
  induction rows as [|x rows IH]; simpl.
  - split; auto.
  - rewrite orb_false_iff, IH. split.
    + intros [? ?]; now constructor.
    + intros Hall; inversion Hall; auto.
Qed.

Lemma upsert_statement_OrderID (n : Z) (o : t) (w : World) :
  upsert_statement (with_OrderID n o) w = upsert_statement o w.
Proof. reflexivity. Qed.

Lemma assign_assign (o : t) (r : row) : assign o (assign o r) = assign o r.
Proof. reflexivity. Qed.

Lemma assign_inserted (n : Z) (o : t) : assign o (inserted n o) = inserted n o.
Proof. reflexivity. Qed.

Lemma scan_assign (o : t) (r : row) :
  scan (assign o r) =
  with_OrderID (order_id r)
    (mk 0 (default 0 (listing_id r)) (Seller o) (Buyer o) (NFTName o)
        (NFTAddress o) (URL o) (TokenID o) (Amount o) (Price o) (Status o)
        (TxHash o) (Deleted o)).
Proof. reflexivity. Qed.

(** Running the statement a second time with the same values changes
    nothing and answers as the first time. *)
Lemma upsert_statement_again (o : t) (w w1 : World) (e : option error) :
  upsert_statement o w = (e, w1) -> upsert_statement o w1 = (e, w1).
Proof.
  unfold upsert_statement. intros Hu.
  destruct (split_first (has_listing (ListingID o)) (orders w))
    as [[[pre r] post]|] eqn:Hl.
  - destruct (split_first_Some _ _ _ _ _ Hl) as (Hrows & Hr & Hpre).
    destruct (existsb (has_tx (TxHash o)) (pre ++ post)) eqn:Hdup.
    + injection Hu as <- <-. now rewrite Hl, Hdup.
    + injection Hu as <- <-. destruct w as [rd rows n a m s]; simpl in *.
      rewrite (split_first_app _ pre post (assign o r) Hpre) by exact Hr.
      now rewrite Hdup.
  - destruct (split_first (has_tx (TxHash o)) (orders w))
      as [[[pre r] post]|] eqn:Ht.
    + destruct (split_first_Some _ _ _ _ _ Ht) as (Hrows & Hr & Hpre).
      injection Hu as <- <-. destruct w as [rd rows n a m s]; simpl in *.
      apply split_first_None in Hl. subst rows.
      assert (Hl' : split_first (has_listing (ListingID o))
                      (pre ++ assign o r :: post) = None).
      { apply split_first_None. apply Forall_app in Hl as [H1 H2].
        apply Forall_app; split; [exact H1|].
        inversion H2; subst. constructor; assumption. }
      rewrite Hl'.
      rewrite (split_first_app _ pre post (assign o r) Hpre)
        by (unfold has_tx; simpl; now rewrite bool_decide_eq_true_2).
      reflexivity.
    + injection Hu as <- <-. destruct w as [rd rows n a m s]; simpl in *.
      apply split_first_None in Hl, Ht.
      rewrite (split_first_app _ rows [] (inserted n o) Hl)
        by (unfold has_listing; simpl; now rewrite bool_decide_eq_true_2).
      rewrite app_nil_r.
      apply existsb_false in Ht. now rewrite Ht.
Qed.

Lemma new_tx_rest_lacks (h : string) (l : Z) (rows : list row) :
  existsb (has_tx h) rows = false -> rest_lacks h l rows.
Proof.
  intros Hn. unfold rest_lacks.
  destruct (split_first (has_listing l) rows) as [[[pre r] post]|] eqn:Hl;
    [|exact Hn].
  destruct (split_first_Some _ _ _ _ _ Hl) as (-> & _ & _).
  rewrite existsb_app in *. simpl in Hn.
  apply orb_false_iff in Hn as [H1 H2]. apply orb_false_iff in H2 as [_ H2].
  now rewrite H1, H2.
Qed.

(** A write of [o] whose transaction hash no other row carries succeeds
    and leaves [written] as the row of its listing id; the other rows
    stay as they are. *)
Lemma upsert_statement_ok (o : t) (w : World) :
  rest_lacks (TxHash o) (ListingID o) (orders w) ->
  exists w1,
    upsert_statement o w = (None, w1)
    /\ find (has_listing (ListingID o)) (orders w1)
       = Some (written o (find (has_listing (ListingID o)) (orders w))
                       (next_order_id w))
    /\ io w1 = io w
    /\ nft_assets w1 = nft_assets w
    /\ redis w1 = redis w
    /\ (forall h, rest_lacks h (ListingID o) (orders w) ->
                  rest_lacks h (ListingID o) (orders w1)).
Proof.
  unfold upsert_statement. intros Hlack.
  assert (Hpres : forall (w1 : World) (pre post : list row) (x : row),
             orders w1 = pre ++ x :: post ->
             Forall (fun y => has_listing (ListingID o) y = false) pre ->
             has_listing (ListingID o) x = true ->
             find (has_listing (ListingID o)) (orders w1) = Some x
             /\ forall h, existsb (has_tx h) (pre ++ post) = false ->
                          rest_lacks h (ListingID o) (orders w1)).
  { intros w1 pre post x Hrows Hpre Hx. unfold rest_lacks.
    rewrite find_split_first, Hrows, (split_first_app _ pre post x Hpre Hx).
    split; [reflexivity | auto]. }
  unfold rest_lacks in Hlack |- *. rewrite find_split_first.
  destruct (split_first (has_listing (ListingID o)) (orders w))
    as [[[pre r] post]|] eqn:Hl; simpl.
  - destruct (split_first_Some _ _ _ _ _ Hl) as (Hrows & Hr & Hpre).
    rewrite Hlack. eexists; split; [reflexivity|].
    destruct (Hpres (set_orders (pre ++ assign o r :: post) w) pre post
                (assign o r)) as [Hf Hk]; [now destruct w | exact Hpre | exact Hr |].
    split; [exact Hf|]. repeat split; now destruct w.
  - pose proof Hl as Hl'. apply split_first_None in Hl'.
    pose proof Hlack as Hlack'. apply existsb_false in Hlack'.
    assert (Ht : split_first (has_tx (TxHash o)) (orders w) = None)
      by now apply split_first_None.
    rewrite Ht. eexists; split; [reflexivity|].
    destruct (Hpres (set_next_order_id (next_order_id w + 1)
                       (set_orders (orders w ++ [inserted (next_order_id w) o]) w))
                (orders w) [] (inserted (next_order_id w) o)) as [Hf Hk];
      [now destruct w | exact Hl'
       | unfold has_listing; simpl; now rewrite bool_decide_eq_true_2 |].
    split; [exact Hf|]. repeat split; try (now destruct w).
    intros h Hh. apply Hk. now rewrite app_nil_r.
Qed.

Lemma omap_middle {K} (f : row -> option K) (pre post : list row) (x : row) :
  omap f (pre ++ x :: post) = omap f pre ++ from_option (fun k => [k]) [] (f x) ++ omap f post.
Proof.
  rewrite omap_app. f_equal. simpl. now destruct (f x).
Qed.

Lemma has_tx_omap (h : string) (rows : list row) :
  existsb (has_tx h) rows = false <-> h ∉ omap tx_hash rows.
Proof.
  induction rows as [|x rows IH]; simpl.
  - split; [intros _; apply not_elem_of_nil | reflexivity].
  - unfold has_tx at 1. destruct (tx_hash x) as [h'|] eqn:Hx; simpl.
    + rewrite orb_false_iff, not_elem_of_cons, IH.
      rewrite bool_decide_eq_false.
      split; intros [H1 H2]; (split; [congruence | exact H2]).
    + exact IH.
Qed.

Lemma has_listing_omap (l : Z) (rows : list row) :
  Forall (fun x => has_listing l x = false) rows <-> l ∉ omap listing_id rows.
Proof.
  induction rows as [|x rows IH]; simpl.
  - split; [intros _; apply not_elem_of_nil | constructor].
  - rewrite Forall_cons. unfold has_listing at 1.
    destruct (listing_id x) as [l'|] eqn:Hx; simpl.
    + rewrite not_elem_of_cons, IH, bool_decide_eq_false.
      split; intros [H1 H2]; (split; [congruence | exact H2]).
    + rewrite IH. split; [intros [_ Hn]; exact Hn|].
      intros Hn; split; [reflexivity | exact Hn].
Qed.

(** The statement keeps the table well keyed. *)
Lemma upsert_statement_well_keyed (o : t) (w : World) :
  well_keyed w -> well_keyed (upsert_statement o w).2.
Proof.
  unfold well_keyed, upsert_statement. intros (Hid & Hlt & Hl & Ht).
  destruct (split_first (has_listing (ListingID o)) (orders w))
    as [[[pre r] post]|] eqn:El.
  - destruct (split_first_Some _ _ _ _ _ El) as (Hrows & Hr & Hpre).
    destruct (existsb (has_tx (TxHash o)) (pre ++ post)) eqn:Edup; simpl;
      [auto|].
    destruct w as [rd rows n a m s]; simpl in *. subst rows.
    rewrite !fmap_app, !fmap_cons in *. simpl.
    rewrite !omap_middle in *. simpl.
    repeat split; try assumption.
    + apply Forall_app in Hlt as [H1 H2]. apply Forall_app; split; [exact H1|].
      inversion H2; subst. constructor; assumption.
    + apply has_tx_omap in Edup. rewrite omap_app in Edup.
      apply not_elem_of_app in Edup as [E1 E2].
      assert (Hnd : NoDup (omap tx_hash pre ++ omap tx_hash post)).
      { destruct (tx_hash r); simpl in Ht; [|exact Ht].
        apply NoDup_app in Ht as (N1 & N2 & N3).
        apply NoDup_cons in N3 as [_ N3].
        apply NoDup_app; repeat split; try assumption.
        intros x Hx Hx'. apply (N2 x Hx). now right. }
      apply NoDup_app in Hnd as (N1 & N2 & N3).
      apply NoDup_app; repeat split; try assumption.
      * intros x Hx [->|Hx']%elem_of_cons; [contradiction | now apply (N2 x)].
      * apply NoDup_cons; split; assumption.
  - destruct (split_first (has_tx (TxHash o)) (orders w))
      as [[[pre r] post]|] eqn:Et; simpl.
    + destruct (split_first_Some _ _ _ _ _ Et) as (Hrows & Hr & Hpre).
      destruct w as [rd rows n a m s]; simpl in *. subst rows.
      rewrite !fmap_app, !fmap_cons in *. simpl.
      rewrite !omap_middle in *. simpl.
      unfold has_tx in Hr. apply bool_decide_eq_true in Hr. rewrite Hr in Ht.
      repeat split; try assumption.
      apply Forall_app in Hlt as [H1 H2]. apply Forall_app; split; [exact H1|].
      inversion H2; subst. constructor; assumption.
    + apply split_first_None in El, Et.
      apply has_listing_omap in El. apply existsb_false, has_tx_omap in Et.
      destruct w as [rd rows n a m s]; simpl in *.
      rewrite !fmap_app, !omap_app. simpl.
      repeat split.
      * apply NoDup_app; repeat split; [exact Hid | | apply NoDup_singleton].
        intros x Hx ->%list_elem_of_singleton.
        apply list_elem_of_fmap in Hx as (y & Hy & Hin).
        rewrite Forall_forall in Hlt. specialize (Hlt y Hin). lia.
      * apply Forall_app; split.
        -- eapply Forall_impl; [exact Hlt | intros; simpl in *; lia].
        -- repeat constructor. simpl. lia.
      * apply NoDup_app; repeat split; [exact Hl | | apply NoDup_singleton].
        intros x Hx ->%list_elem_of_singleton. contradiction.
      * apply NoDup_app; repeat split; [exact Ht | | apply NoDup_singleton].
        intros x Hx ->%list_elem_of_singleton. contradiction.
Qed.

Lemma well_keyed_ext (w w1 : World) :
  orders w1 = orders w -> next_order_id w1 = next_order_id w ->
  well_keyed w -> well_keyed w1.
Proof. unfold well_keyed. now intros -> ->. Qed.

Lemma roundtrip_orders (w : World) :
  orders (roundtrip w).2 = orders w
  /\ next_order_id (roundtrip w).2 = next_order_id w
  /\ redis (roundtrip w).2 = redis w
  /\ nft_assets (roundtrip w).2 = nft_assets w.
Proof.
  unfold roundtrip. destruct w as [rd rows n a m s].
  destruct s as [|[msg|] s]; simpl; auto.
Qed.

Lemma upsertOrder_well_keyed (o : t) (w : World) :
  well_keyed w -> well_keyed (upsertOrder o w).2.
Proof.
  intros Hw. unfold upsertOrder, bind.
  destruct (roundtrip_orders w) as (H1 & H2 & _).
  destruct (roundtrip w) as [[e|] w0]; simpl in *.
  - now apply (well_keyed_ext w).
  - apply upsert_statement_well_keyed. now apply (well_keyed_ext w).
Qed.

Lemma getOrderByID_world (l : Z) (b : bool) (w : World) :
  (getOrderByID l b w).2 = (roundtrip w).2.
Proof.
  unfold getOrderByID, bind, gets, ret.
  destruct (roundtrip w) as [[e|] w0]; simpl; [reflexivity|].
  now destruct (find (has_listing l) (orders w0)).
Qed.

(** The statement removes no row and assigns no [order_id] or
    [listing_id]; it adds one row at most, and touches nothing but
    [orders] and its counter. *)
Lemma upsert_statement_keys (o : t) (w : World) :
  let w1 := (upsert_statement o w).2 in
  (keys <$> orders w) `prefix_of` (keys <$> orders w1)
  /\ (length (orders w1) <= length (orders w) + 1)%nat
  /\ redis w1 = redis w /\ nft_assets w1 = nft_assets w /\ io w1 = io w.
Proof.
  unfold upsert_statement.
  destruct (split_first (has_listing (ListingID o)) (orders w))
    as [[[pre r] post]|] eqn:El.
  - destruct (split_first_Some _ _ _ _ _ El) as (Hrows & _ & _).
    destruct (existsb (has_tx (TxHash o)) (pre ++ post)); simpl.
    + repeat split; [reflexivity | lia].
    + destruct w as [rd rows n a m s]; simpl in *. subst rows.
      rewrite !fmap_app, !fmap_cons, !length_app. simpl.
      repeat split; [reflexivity | lia].
  - destruct (split_first (has_tx (TxHash o)) (orders w))
      as [[[pre r] post]|] eqn:Et; simpl.
    + destruct (split_first_Some _ _ _ _ _ Et) as (Hrows & _ & _).
      destruct w as [rd rows n a m s]; simpl in *. subst rows.
      rewrite !fmap_app, !fmap_cons, !length_app. simpl.
      repeat split; [reflexivity | lia].
    + destruct w as [rd rows n a m s]; simpl in *.
      rewrite fmap_app, length_app. simpl.
      repeat split; [apply prefix_app_r; reflexivity | lia].
Qed.

Lemma scan_found (o : t) (r : row) :
  has_listing (ListingID o) r = true ->
  scan (assign o r) = with_OrderID (order_id r) o.
Proof.
  unfold has_listing. intros Hr%bool_decide_eq_true.
  unfold scan, assign, with_OrderID; simpl. now rewrite Hr.
Qed.

Lemma find_has_listing_true (l : Z) (rows : list row) (r : row) :
  find (has_listing l) rows = Some r -> has_listing l r = true.
Proof. intros Hf. now apply find_some in Hf. Qed.

Lemma set_Price_same (o : t) : set_Price (Price o) o = o.
Proof. now destruct o. Qed.

Lemma UpsertOn_served (column : Column) (o : t) (w : World) :
  hd None (io w) = None ->
  UpsertOn column o w =
    match column (Price o) with
    | Err e => (Some e, set_io (tl (io w)) w)
    | Ok p => upsert_statement (set_Price p o) (set_io (tl (io w)) w)
    end.
Proof.
  intros Hio. unfold UpsertOn, upsertOrderOn, bind.
  rewrite (roundtrip_served _ Hio). now destruct (column (Price o)).
Qed.

(** On a price the column stores as it is sent, [UpsertOn] is [Upsert]. *)
Lemma UpsertOn_kept (column : Column) (o : t) (w : World) :
  column (Price o) = Ok (Price o) -> UpsertOn column o w = Upsert o w.
Proof.
  intros Hk. unfold UpsertOn, upsertOrderOn, Upsert, upsertOrder, bind.
  destruct (roundtrip w) as [[err|] w1]; [reflexivity|].
  now rewrite Hk, set_Price_same.
Qed.

(** What [Upsert] writes, [GetByID] reads, with the price as the column
    stores it.  On a connection that serves every call, an order whose
    transaction hash no other row carries is written without error when
    the price column accepts its price, and the lookup of its listing id
    then returns it with the price the column stored, under the primary
    key of its row: the key of the row the listing id had, or the next
    AUTO_INCREMENT value.  When the column refuses the price, the error
    is returned and nothing is written. *)
Theorem UpsertOn_GetByID_roundtrip (column : Column) (o : t) (w : World) :
  io w = [] ->
  rest_lacks (TxHash o) (ListingID o) (orders w) ->
  match column (Price o) with
  | Ok p =>
      (UpsertOn column o w).1 = None
      /\ GetByID (ListingID o) (UpsertOn column o w).2
         = (Ok (with_OrderID
                  (match find (has_listing (ListingID o)) (orders w) with
                   | Some r => order_id r
                   | None => next_order_id w
                   end) (set_Price p o)),
            (UpsertOn column o w).2)
  | Err e => UpsertOn column o w = (Some e, w)
  end.
Proof.
  intros Hio Hlack.
  rewrite UpsertOn_served by now rewrite Hio.
  rewrite Hio. simpl tl. replace (set_io [] w) with w by (now destruct w; simpl in *; subst).
  destruct (column (Price o)) as [p|e]; [|reflexivity].
  destruct (upsert_statement_ok (set_Price p o) w Hlack) as (w1 & Hu & Hf & Hio1 & _).
  rewrite Hu. simpl. split; [reflexivity|].
  unfold GetByID, getOrderByID, bind.
  rewrite roundtrip_healthy by congruence. unfold gets, ret.
  simpl in Hf. rewrite Hf.
  f_equal. f_equal.
  destruct (find (has_listing (ListingID o)) (orders w)) as [r|] eqn:Er; simpl.
  - change (ListingID o) with (ListingID (set_Price p o)) in Er.
    apply (scan_found (set_Price p o)). now apply find_has_listing_true in Er.
  - reflexivity.
Qed.

(** A transaction hash that another listing already carries.  When the
    listing id of [o] is new to the table and its transaction hash is the
    one of a row [r], the statement reports no error and adds no row: it
    overwrites [r], the order of the other listing, with the values of
    [o], and a lookup of the listing id of [o] finds nothing. *)
Theorem Upsert_tx_hash_of_other_listing (o : t) (w : World) (r : row) (l : Z) :
  io w = [] ->
  find (has_listing (ListingID o)) (orders w) = None ->
  find (has_tx (TxHash o)) (orders w) = Some r ->
  find (has_listing l) (orders w) = Some r ->
  let w1 := (Upsert o w).2 in
  (Upsert o w).1 = None
  /\ length (orders w1) = length (orders w)
  /\ GetByID (ListingID o) w1 = (Err ErrNoRows, w1)
  /\ GetByID l w1
     = (Ok (mk (order_id r) l (Seller o) (Buyer o) (NFTName o) (NFTAddress o)
               (URL o) (TokenID o) (Amount o) (Price o) (Status o) (TxHash o)
               (Deleted o)), w1).
Proof.
  intros Hio Hnew Htx Hl. unfold Upsert, upsertOrder, bind.
  rewrite (roundtrip_healthy _ Hio). unfold upsert_statement.
  rewrite find_split_first in Hnew, Htx.
  destruct (split_first (has_listing (ListingID o)) (orders w))
    as [[[pre0 r0] post0]|] eqn:El; [discriminate|].
  destruct (split_first (has_tx (TxHash o)) (orders w))
    as [[[pre x] post]|] eqn:Et; [|discriminate].
  simpl in Htx. injection Htx as ->. simpl.
  destruct (split_first_Some _ _ _ _ _ Et) as (Hrows & Hr & Hpre).
  assert (Hw1 : io (set_orders (pre ++ assign o r :: post) w) = [])
    by (destruct w; exact Hio).
  split; [reflexivity|]. split.
  { destruct w as [rd rows n a m s]; simpl in *. subst rows.
    rewrite !length_app. reflexivity. }
  apply split_first_None in El.
  assert (Hlr : has_listing l r = true) by now apply find_has_listing_true in Hl.
  assert (Hne : l <> ListingID o).
  { intros ->. rewrite Hrows in El. apply Forall_app in El as [_ El].
    inversion El; congruence. }
  split.
  - unfold GetByID, getOrderByID, bind. rewrite (roundtrip_healthy _ Hw1).
    unfold gets, ret.
    assert (Hnone : find (has_listing (ListingID o))
                      (orders (set_orders (pre ++ assign o r :: post) w)) = None).
    { rewrite find_split_first.
      assert (Hs : split_first (has_listing (ListingID o))
                     (pre ++ assign o r :: post) = None).
      { apply split_first_None. rewrite Hrows in El.
        apply Forall_app in El as [E1 E2]. apply Forall_app; split; [exact E1|].
        inversion E2; subst. constructor; assumption. }
      destruct w; simpl in *. now rewrite Hs. }
    now rewrite Hnone.
  - unfold GetByID, getOrderByID, bind. rewrite (roundtrip_healthy _ Hw1).
    unfold gets, ret.
    rewrite find_split_first in Hl. rewrite Hrows in Hl.
    assert (Hpre_l : Forall (fun y => has_listing l y = false) pre).
    { destruct (split_first (has_listing l) (pre ++ r :: post))
        as [[[p1 y] p2]|] eqn:Es; [|discriminate].
      simpl in Hl. injection Hl as ->.
      destruct (split_first_Some _ _ _ _ _ Es) as (Happ & _ & Hp1).
      clear -Hlr Hne Happ Hp1 Hpre Hr.
      revert p1 Happ Hp1. induction pre as [|a pre IH]; intros p1 Happ Hp1;
        [constructor|].
      destruct p1 as [|b p1]; simpl in Happ.
      - injection Happ as <- _. inversion Hpre; subst. congruence.
      - injection Happ as <- Happ. inversion Hp1; subst. inversion Hpre; subst.
        constructor; [assumption | eapply IH; eassumption]. }
    assert (Hfound : find (has_listing l)
                       (orders (set_orders (pre ++ assign o r :: post) w))
                     = Some (assign o r)).
    { rewrite find_split_first.
      destruct w; simpl in *.
      now rewrite (split_first_app _ pre post (assign o r) Hpre_l Hlr). }
    rewrite Hfound. f_equal. f_equal.
    unfold has_listing in Hlr. apply bool_decide_eq_true in Hlr.
    unfold scan, assign; simpl. now rewrite Hlr.
Qed.

Lemma elem_of_take_1 {A} (x : A) (n : nat) (l : list A) : x ∈ take n l -> x ∈ l.
Proof. intros (i & Hi & _)%elem_of_take. now apply list_elem_of_lookup_2 in Hi. Qed.

(** [ListRecent] lists undeleted orders only, no more of them than the
    limit (50 when the limit given is not positive), each as its row
    reads; when the limit covers the undeleted rows it lists them all.
    This holds whatever the order is in which the server hands the rows
    out. *)
Theorem ListRecent_selects (newest_first : list row -> list row) (limit : Z)
    (w : World) :
  (forall rows, newest_first rows ≡ₚ rows) ->
  io w = [] ->
  let bound := if limit <=? 0 then 50 else limit in
  exists l,
    ListRecent newest_first limit w = (Ok l, w)
    /\ Z.of_nat (length l) <= bound
    /\ (forall o, o ∈ l -> Deleted o = 0 /\ exists r, r ∈ orders w /\ o = scan r)
    /\ (Z.of_nat (length (filter (fun r => deleted r = 0) (orders w))) <= bound ->
        forall r, r ∈ orders w -> deleted r = 0 -> scan r ∈ l).
Proof.
  intros Hperm Hio bound. unfold ListRecent, bind.
  rewrite (roundtrip_healthy _ Hio). unfold gets, ret. fold bound.
  assert (Hb : 0 < bound) by (unfold bound; destruct (Z.leb_spec limit 0); lia).
  eexists. split; [reflexivity|]. split; [|split].
  - rewrite length_fmap, length_take. lia.
  - intros o (r & -> & Hr)%list_elem_of_fmap.
    apply elem_of_take_1 in Hr. rewrite Hperm in Hr.
    apply list_elem_of_filter in Hr as [Hd Hin].
    split; [exact Hd | now exists r].
  - intros Hlen r Hin Hd. apply list_elem_of_fmap_2.
    rewrite take_ge by (rewrite Hperm; lia).
    rewrite Hperm. now apply list_elem_of_filter.
Qed.

End OrderProps.

(** ** The event handlers of the scanner *)

Module HandlerProps.
Import Order OrderStore OrderProps Chain.

Lemma GetByID_healthy (l : Z) (w : World) :
  io w = [] ->
  GetByID l w =
    (match find (has_listing l) (orders w) with
     | Some r => Ok (scan r)
     | None => Err ErrNoRows
     end, w).
Proof.
  intros Hio. unfold GetByID, getOrderByID, bind.
  rewrite (roundtrip_healthy _ Hio). unfold gets, ret.
  now destruct (find (has_listing l) (orders w)).
Qed.

Lemma Upsert_healthy (o : t) (w : World) :
  io w = [] -> Upsert o w = upsert_statement o w.
Proof.
  intros Hio. unfold Upsert, upsertOrder, bind.
  now rewrite (roundtrip_healthy _ Hio).
Qed.

Lemma upsert_statement_io (o : t) (w : World) :
  io (upsert_statement o w).2 = io w.
Proof.
  unfold upsert_statement.
  destruct (split_first (has_listing (ListingID o)) (orders w)) as [[[pre r] post]|].
  - destruct (existsb (has_tx (Order.TxHash o)) (pre ++ post)); now destruct w.
  - destruct (split_first (has_tx (Order.TxHash o)) (orders w)) as [[[pre r] post]|];
      now destruct w.
Qed.

(** The script of round-trip outcomes after a statement whose result is
    known. *)
Ltac io_after Hu :=
  match type of Hu with
  | upsert_statement ?o ?w = (_, ?w1) =>
      let Hk := fresh "Hk" in
      pose proof (upsert_statement_io o w) as Hk; rewrite Hu in Hk; simpl in Hk
  end.

Section Handlers.
Context `{EthCodec} (s : MarketplaceScanner).

Lemma handleCancelled_healthy (lg : Log) (w : World) :
  io w = [] -> (2 <= length (Topics lg))%nat ->
  let l := Int64 (topic lg 1) in
  handleCancelled lg w =
    upsert_statement
      (cancelled_order l (Hash_Hex (TxHash lg)) (find (has_listing l) (orders w))) w.
Proof.
  intros Hio Hlen l. unfold handleCancelled, handleCancelledTo.
  destruct (Nat.ltb_spec (length (Topics lg)) 2) as [Hlt|_]; [lia|].
  unfold bind. rewrite (GetByID_healthy _ _ Hio). fold l.
  destruct (find (has_listing l) (orders w)); simpl; now rewrite Upsert_healthy.
Qed.

Lemma handleSold_healthy (lg : Log) (w : World) :
  io w = [] -> (3 <= length (Topics lg))%nat ->
  let l := Int64 (topic lg 1) in
  handleSold lg w =
    upsert_statement
      (sold_order l (Address_Hex (HexToAddress (topic lg 2))) (Hash_Hex (TxHash lg))
                  (find (has_listing l) (orders w))) w.
Proof.
  intros Hio Hlen l. unfold handleSold, handleSoldTo.
  destruct (Nat.ltb_spec (length (Topics lg)) 3) as [Hlt|_]; [lia|].
  unfold bind. rewrite (GetByID_healthy _ _ Hio). fold l.
  destruct (find (has_listing l) (orders w)); simpl; now rewrite Upsert_healthy.
Qed.

Lemma handleListed_healthy (lg : Log) (w : World) (tokenId amount price : Z) :
  io w = [] -> (4 <= length (Topics lg))%nat ->
  UnpackListed (abi s) (Data lg) = Ok (tokenId, amount, price) ->
  handleListed s lg w =
    upsert_statement
      (listed_order (Int64 (topic lg 1))
                    (Address_Hex (HexToAddress (topic lg 2)))
                    (Address_Hex (HexToAddress (topic lg 3)))
                    (Int64 tokenId) (Int64 amount) (pretty price)
                    (Hash_Hex (TxHash lg))) w.
Proof.
  intros Hio Hlen Hun. unfold handleListed.
  destruct (Nat.ltb_spec (length (Topics lg)) 4) as [Hlt|_]; [lia|].
  rewrite Hun. now rewrite Upsert_healthy.
Qed.

(** A handler that looks the listing id up and writes [f] of what it
    found changes nothing when it runs a second time, provided [f] keeps
    the listing id and is insensitive to its own earlier write. *)
Lemma read_modify_write_again (l : Z) (f : option row -> t) (w w1 : World)
    (e : option error) :
  (forall found, ListingID (f found) = default l (default 0 <$> (listing_id <$> found))) ->
  (forall r, has_listing l r = true -> f (Some (assign (f (Some r)) r)) = f (Some r)) ->
  (forall n, f (Some (inserted n (f None))) = with_OrderID n (f None)) ->
  upsert_statement (f (find (has_listing l) (orders w))) w = (e, w1) ->
  upsert_statement (f (find (has_listing l) (orders w1))) w1 = (e, w1).
Proof.
  intros Hid Hre Hins Hu.
  pose proof (upsert_statement_again _ _ _ _ Hu) as Hagain.
  rewrite find_split_first in Hu, Hagain.
  unfold upsert_statement in Hu.
  destruct (split_first (has_listing l) (orders w)) as [[[pre r] post]|] eqn:Hl;
    simpl in Hu, Hagain.
  - destruct (split_first_Some _ _ _ _ _ Hl) as (Hrows & Hr & Hpre).
    assert (Hlr : ListingID (f (Some r)) = l).
    { rewrite Hid. simpl. unfold has_listing in Hr.
      apply bool_decide_eq_true_1 in Hr. now rewrite Hr. }
    rewrite Hlr, Hl in Hu.
    destruct (existsb (has_tx (Order.TxHash (f (Some r)))) (pre ++ post)).
    + injection Hu as <- <-. rewrite find_split_first, Hl. exact Hagain.
    + injection Hu as <- <-. rewrite find_split_first.
      destruct w as [rd rows n a m io0]; simpl in *.
      rewrite (split_first_app _ pre post (assign (f (Some r)) r) Hpre Hr). simpl.
      rewrite (Hre r Hr). exact Hagain.
  - assert (Hln : ListingID (f None) = l) by (now rewrite Hid).
    rewrite Hln, Hl in Hu. pose proof Hl as Hnone. apply split_first_None in Hnone.
    destruct (split_first (has_tx (Order.TxHash (f None))) (orders w))
      as [[[pre r] post]|] eqn:Ht.
    + destruct (split_first_Some _ _ _ _ _ Ht) as (Hrows & Hr & Hpre).
      injection Hu as <- <-. rewrite find_split_first.
      destruct w as [rd rows n a m io0]; simpl in *. subst rows.
      assert (Hl' : split_first (has_listing l)
                      (pre ++ assign (f None) r :: post) = None).
      { apply split_first_None. apply Forall_app in Hnone as [H1 H2].
        apply Forall_app; split; [exact H1|].
        inversion H2; subst. constructor; assumption. }
      rewrite Hl'. exact Hagain.
    + injection Hu as <- <-. rewrite find_split_first.
      destruct w as [rd rows n a m io0]; simpl in *.
      rewrite (split_first_app _ rows [] (inserted n (f None)) Hnone)
        by (unfold has_listing; simpl; rewrite Hln; now rewrite bool_decide_eq_true_2).
      simpl. rewrite Hins, upsert_statement_OrderID. exact Hagain.
Qed.

Lemma handleCancelled_twice (lg : Log) (w : World) :
  io w = [] ->
  handleCancelled lg (handleCancelled lg w).2 = handleCancelled lg w.
Proof.
  intros Hio.
  destruct (Nat.ltb_spec (length (Topics lg)) 2) as [Hlt|Hge].
  - unfold handleCancelled, handleCancelledTo.
    destruct (Nat.ltb_spec (length (Topics lg)) 2) as [_|Hge]; [reflexivity | lia].
  - rewrite (handleCancelled_healthy lg w Hio Hge).
    destruct (upsert_statement _ w) as [e w1] eqn:Hu.
    assert (Hio1 : io w1 = []) by (io_after Hu; congruence).
    simpl. rewrite (handleCancelled_healthy lg w1 Hio1 Hge).
    apply (read_modify_write_again _ (cancelled_order _ _) w w1 e);
      [now intros [r|] | reflexivity | reflexivity | exact Hu].
Qed.

Lemma handleSold_twice (lg : Log) (w : World) :
  io w = [] ->
  handleSold lg (handleSold lg w).2 = handleSold lg w.
Proof.
  intros Hio.
  destruct (Nat.ltb_spec (length (Topics lg)) 3) as [Hlt|Hge].
  - unfold handleSold, handleSoldTo.
    destruct (Nat.ltb_spec (length (Topics lg)) 3) as [_|Hge]; [reflexivity | lia].
  - rewrite (handleSold_healthy lg w Hio Hge).
    destruct (upsert_statement _ w) as [e w1] eqn:Hu.
    assert (Hio1 : io w1 = []) by (io_after Hu; congruence).
    simpl. rewrite (handleSold_healthy lg w1 Hio1 Hge).
    apply (read_modify_write_again _ (sold_order _ _ _) w w1 e);
      [now intros [r|] | reflexivity | reflexivity | exact Hu].
Qed.

Lemma handleListed_twice (lg : Log) (w : World) :
  io w = [] ->
  handleListed s lg (handleListed s lg w).2 = handleListed s lg w.
Proof.
  intros Hio.
  destruct (Nat.ltb_spec (length (Topics lg)) 4) as [Hlt|Hge].
  - unfold handleListed.
    destruct (Nat.ltb_spec (length (Topics lg)) 4) as [_|Hge']; [reflexivity | lia].
  - destruct (UnpackListed (abi s) (Data lg)) as [[[tokenId amount] price]|err] eqn:Hun.
    + rewrite (handleListed_healthy lg w _ _ _ Hio Hge Hun).
      destruct (upsert_statement _ w) as [e w1] eqn:Hu.
      assert (Hio1 : io w1 = []) by (io_after Hu; congruence).
      simpl. rewrite (handleListed_healthy lg w1 _ _ _ Hio1 Hge Hun).
      exact (upsert_statement_again _ _ _ _ Hu).
    + unfold handleListed.
      destruct (Nat.ltb_spec (length (Topics lg)) 4) as [Hlt|_]; [lia|].
      now rewrite Hun.
Qed.

Lemma find_has_listing (l : Z) (rows : list row) (r : row) :
  find (has_listing l) rows = Some r -> listing_id r = Some l.
Proof.
  intros Hf. apply find_some in Hf as [_ Hr].
  unfold has_listing in Hr. now apply bool_decide_eq_true_1 in Hr.
Qed.

Lemma cancelled_order_ListingID (l : Z) (h : string) (rows : list row) :
  ListingID (cancelled_order l h (find (has_listing l) rows)) = l.
Proof.
  destruct (find (has_listing l) rows) as [r|] eqn:Hf; [|reflexivity].
  simpl. now rewrite (find_has_listing _ _ _ Hf).
Qed.

Lemma sold_order_ListingID (l : Z) (b h : string) (rows : list row) :
  ListingID (sold_order l b h (find (has_listing l) rows)) = l.
Proof.
  destruct (find (has_listing l) rows) as [r|] eqn:Hf; [|reflexivity].
  simpl. now rewrite (find_has_listing _ _ _ Hf).
Qed.

Lemma cancelled_order_TxHash (l : Z) (h : string) (found : option row) :
  Order.TxHash (cancelled_order l h found) = h.
Proof. now destruct found. Qed.

Lemma sold_order_TxHash (l : Z) (b h : string) (found : option row) :
  Order.TxHash (sold_order l b h found) = h.
Proof. now destruct found. Qed.

(** A served Cancelled handler whose transaction hash no other row
    carries writes its struct over the row of the listing id. *)
Lemma handleCancelled_writes (lg : Log) (w : World) :
  io w = [] -> (2 <= length (Topics lg))%nat ->
  let l := Int64 (topic lg 1) in
  let h := Hash_Hex (TxHash lg) in
  let found := find (has_listing l) (orders w) in
  rest_lacks h l (orders w) ->
  exists w1,
    handleCancelled lg w = (None, w1)
    /\ find (has_listing l) (orders w1)
       = Some (written (cancelled_order l h found) found (next_order_id w))
    /\ io w1 = []
    /\ (forall h', rest_lacks h' l (orders w) -> rest_lacks h' l (orders w1)).
Proof.
  intros Hio Hlen l h found Hlack.
  rewrite (handleCancelled_healthy lg w Hio Hlen). fold l h found.
  destruct (upsert_statement_ok (cancelled_order l h found) w)
    as (w1 & Hu & Hf & Hio1 & _ & _ & Hk).
  - unfold found. now rewrite cancelled_order_ListingID, cancelled_order_TxHash.
  - unfold found in Hf, Hk. rewrite cancelled_order_ListingID in Hf, Hk.
    exists w1. repeat split; [exact Hu | exact Hf | congruence | exact Hk].
Qed.

(** The same for the Sold handler. *)
Lemma handleSold_writes (lg : Log) (w : World) :
  io w = [] -> (3 <= length (Topics lg))%nat ->
  let l := Int64 (topic lg 1) in
  let b := Address_Hex (HexToAddress (topic lg 2)) in
  let h := Hash_Hex (TxHash lg) in
  let found := find (has_listing l) (orders w) in
  rest_lacks h l (orders w) ->
  exists w1,
    handleSold lg w = (None, w1)
    /\ find (has_listing l) (orders w1)
       = Some (written (sold_order l b h found) found (next_order_id w))
    /\ io w1 = []
    /\ (forall h', rest_lacks h' l (orders w) -> rest_lacks h' l (orders w1)).
Proof.
  intros Hio Hlen l b h found Hlack.
  rewrite (handleSold_healthy lg w Hio Hlen). fold l b h found.
  destruct (upsert_statement_ok (sold_order l b h found) w)
    as (w1 & Hu & Hf & Hio1 & _ & _ & Hk).
  - unfold found. now rewrite sold_order_ListingID, sold_order_TxHash.
  - unfold found in Hf, Hk. rewrite sold_order_ListingID in Hf, Hk.
    exists w1. repeat split; [exact Hu | exact Hf | congruence | exact Hk].
Qed.

(** The same for the Listed handler, which writes without a lookup. *)
Lemma handleListed_writes (lg : Log) (w : World) (tokenId amount price : Z) :
  io w = [] -> (4 <= length (Topics lg))%nat ->
  UnpackListed (abi s) (Data lg) = Ok (tokenId, amount, price) ->
  let l := Int64 (topic lg 1) in
  let h := Hash_Hex (TxHash lg) in
  let o := listed_order l (Address_Hex (HexToAddress (topic lg 2)))
             (Address_Hex (HexToAddress (topic lg 3)))
             (Int64 tokenId) (Int64 amount) (pretty price) h in
  rest_lacks h l (orders w) ->
  exists w1,
    handleListed s lg w = (None, w1)
    /\ find (has_listing l) (orders w1)
       = Some (written o (find (has_listing l) (orders w)) (next_order_id w))
    /\ io w1 = []
    /\ (forall h', rest_lacks h' l (orders w) -> rest_lacks h' l (orders w1)).
Proof.
  intros Hio Hlen Hun l h o Hlack.
  rewrite (handleListed_healthy lg w _ _ _ Hio Hlen Hun). fold l h o.
  destruct (upsert_statement_ok o w) as (w1 & Hu & Hf & Hio1 & _ & _ & Hk);
    [exact Hlack|].
  exists w1. repeat split; [exact Hu | exact Hf | congruence | exact Hk].
Qed.

Lemma status_written_cancelled (l : Z) (h : string) (found : option row) (n : Z) :
  status (written (cancelled_order l h found) found n) = OrderStatusCanceled.
Proof. now destruct found. Qed.

Lemma status_written_sold (l : Z) (b h : string) (found : option row) (n : Z) :
  status (written (sold_order l b h found) found n) = OrderStatusSuccess.
Proof. now destruct found. Qed.

(** C1, as the code has it: the handlers do not look at the status they
    overwrite.  From every state of the store, a served Cancelled handler
    leaves the order of its listing id with status CANCELED and a served
    Sold handler leaves it with status SUCCESS, whatever the status was
    before, the other terminal value included.  (The transaction hash of
    the log must not be the one of another row, or MySQL refuses the
    write.) *)
Theorem terminal_status_last_writer_wins (lgC lgS : Log) (w : World) :
  io w = [] ->
  (2 <= length (Topics lgC))%nat ->
  (3 <= length (Topics lgS))%nat ->
  rest_lacks (Hash_Hex (TxHash lgC)) (Int64 (topic lgC 1)) (orders w) ->
  rest_lacks (Hash_Hex (TxHash lgS)) (Int64 (topic lgS 1)) (orders w) ->
  ((handleCancelled lgC w).1 = None
   /\ status <$> find (has_listing (Int64 (topic lgC 1)))
                      (orders (handleCancelled lgC w).2)
      = Some OrderStatusCanceled)
  /\ ((handleSold lgS w).1 = None
      /\ status <$> find (has_listing (Int64 (topic lgS 1)))
                         (orders (handleSold lgS w).2)
         = Some OrderStatusSuccess).
Proof.
  intros Hio HlenC HlenS HlackC HlackS. split.
  - destruct (handleCancelled_writes lgC w Hio HlenC HlackC)
      as (w1 & Hh & Hf & _). rewrite Hh. simpl. rewrite Hf. simpl.
    now rewrite status_written_cancelled.
  - destruct (handleSold_writes lgS w Hio HlenS HlackS)
      as (w1 & Hh & Hf & _). rewrite Hh. simpl. rewrite Hf. simpl.
    now rewrite status_written_sold.
Qed.

Lemma GetByID_failed (l : Z) (w : World) (msg : string) (rest : list (option string)) :
  io w = Some msg :: rest -> GetByID l w = (Err (ErrIO msg), set_io rest w).
Proof.
  intros Hio. unfold GetByID, getOrderByID, bind.
  now rewrite (roundtrip_failed _ _ _ Hio).
Qed.

(** C10, as the code and the schema have it: the Cancelled and the Sold
    handler take every failure of the lookup for a missing row, and what
    becomes of the row is decided by the price column.  When the lookup
    of the listing id fails with a driver or transport error while the
    table holds a populated row [r] for it, and the write that follows is
    served, the handler does not return the error of the lookup: it sends
    the upsert of its placeholder, whose price is the empty text.
    - Where the column refuses the empty text (DECIMAL(36,0) NOT NULL on
      a server in strict SQL mode), the handler returns the error of the
      write and nothing is written: [r] keeps all its columns.
    - Where the column stores it as [p] (as 0 without strict mode), the
      handler returns no error and has overwritten every column of [r]
      but [order_id] and [listing_id] with the placeholder: seller, NFT
      address, token id and amount are cleared, the price is [p], only
      status, transaction hash and (for Sold) the buyer carry a value.
    (The transaction hash of the log must not be the one of another row,
    or MySQL refuses the write of an accepted placeholder as well.) *)
Theorem lookup_failure_takes_fallback
    (column : Column) (lgC lgS : Log) (w : World) (msg : string)
    (rest : list (option string)) (rC rS : row) :
  io w = Some msg :: rest ->
  hd None rest = None ->
  (2 <= length (Topics lgC))%nat ->
  (3 <= length (Topics lgS))%nat ->
  find (has_listing (Int64 (topic lgC 1))) (orders w) = Some rC ->
  find (has_listing (Int64 (topic lgS 1))) (orders w) = Some rS ->
  rest_lacks (Hash_Hex (TxHash lgC)) (Int64 (topic lgC 1)) (orders w) ->
  rest_lacks (Hash_Hex (TxHash lgS)) (Int64 (topic lgS 1)) (orders w) ->
  match column "" with
  | Err e =>
      handleCancelledTo (UpsertOn column) lgC w = (Some e, set_io (tl rest) w)
      /\ handleSoldTo (UpsertOn column) lgS w = (Some e, set_io (tl rest) w)
  | Ok p =>
      ((handleCancelledTo (UpsertOn column) lgC w).1 = None
       /\ find (has_listing (Int64 (topic lgC 1)))
               (orders (handleCancelledTo (UpsertOn column) lgC w).2)
          = Some (mkRow (order_id rC) (listing_id rC) "" (Some "") (Some "") ""
                        (Some "") 0 0 p OrderStatusCanceled
                        (Some (Hash_Hex (TxHash lgC))) 0))
      /\ ((handleSoldTo (UpsertOn column) lgS w).1 = None
          /\ find (has_listing (Int64 (topic lgS 1)))
                  (orders (handleSoldTo (UpsertOn column) lgS w).2)
             = Some (mkRow (order_id rS) (listing_id rS) ""
                           (Some (Address_Hex (HexToAddress (topic lgS 2))))
                           (Some "") "" (Some "") 0 0 p OrderStatusSuccess
                           (Some (Hash_Hex (TxHash lgS))) 0))
  end.
Proof.
  intros Hio Hnext HlenC HlenS HfC HfS HlackC HlackS.
  assert (Hio' : hd None (io (set_io rest w)) = None) by now destruct w.
  assert (Hw : set_io (tl (io (set_io rest w))) (set_io rest w) = set_io (tl rest) w)
    by now destruct w.
  assert (HhC : handleCancelledTo (UpsertOn column) lgC w
                = UpsertOn column (cancelled_order (Int64 (topic lgC 1))
                                     (Hash_Hex (TxHash lgC)) None) (set_io rest w)).
  { unfold handleCancelledTo.
    destruct (Nat.ltb_spec (length (Topics lgC)) 2) as [Hlt|_]; [lia|].
    unfold bind. now rewrite (GetByID_failed _ w msg rest Hio). }
  assert (HhS : handleSoldTo (UpsertOn column) lgS w
                = UpsertOn column (sold_order (Int64 (topic lgS 1))
                                     (Address_Hex (HexToAddress (topic lgS 2)))
                                     (Hash_Hex (TxHash lgS)) None) (set_io rest w)).
  { unfold handleSoldTo.
    destruct (Nat.ltb_spec (length (Topics lgS)) 3) as [Hlt|_]; [lia|].
    unfold bind. now rewrite (GetByID_failed _ w msg rest Hio). }
  rewrite HhC, HhS, !(UpsertOn_served _ _ _ Hio'), Hw. simpl Price.
  destruct (column "") as [p|e]; [|split; reflexivity].
  split.
  - match goal with
    | |- context [upsert_statement ?o ?w0] =>
        destruct (upsert_statement_ok o w0) as (w1 & Hu & Hf & _);
          [now destruct w | rewrite Hu; simpl in Hf |- *; rewrite Hf]
    end.
    replace (orders (set_io (tl rest) w)) with (orders w) by now destruct w.
    rewrite HfC. split; reflexivity.
  - match goal with
    | |- context [upsert_statement ?o ?w0] =>
        destruct (upsert_statement_ok o w0) as (w1 & Hu & Hf & _);
          [now destruct w | rewrite Hu; simpl in Hf |- *; rewrite Hf]
    end.
    replace (orders (set_io (tl rest) w)) with (orders w) by now destruct w.
    rewrite HfS. split; reflexivity.
Qed.

(** C2, as the code has it: the order of a Sold and a Listed log of one
    listing id shows in the final row.  On a connection that serves every
    call, with transaction hashes no other row carries, Sold-then-Listed
    ends with the row that Listed alone writes (status LISTED, empty
    buyer, the hash of the Listed log): Listed overwrites every column but
    the keys, a terminal status included.  Listed-then-Sold ends with that
    row carrying the buyer, status SUCCESS and the hash of the Sold log.
    The two final rows agree in all other columns. *)
Theorem Sold_and_Listed_do_not_commute
    (lgL lgS : Log) (w : World) (tid amt prc : Z) :
  io w = [] ->
  (4 <= length (Topics lgL))%nat ->
  (3 <= length (Topics lgS))%nat ->
  UnpackListed (abi s) (Data lgL) = Ok (tid, amt, prc) ->
  Int64 (topic lgS 1) = Int64 (topic lgL 1) ->
  let l := Int64 (topic lgL 1) in
  let b := Address_Hex (HexToAddress (topic lgS 2)) in
  rest_lacks (Hash_Hex (TxHash lgL)) l (orders w) ->
  rest_lacks (Hash_Hex (TxHash lgS)) l (orders w) ->
  let listed :=
    written (listed_order l (Address_Hex (HexToAddress (topic lgL 2)))
               (Address_Hex (HexToAddress (topic lgL 3)))
               (Int64 tid) (Int64 amt) (pretty prc)
               (Hash_Hex (TxHash lgL)))
            (find (has_listing l) (orders w)) (next_order_id w) in
  let sold_then_listed := (handleListed s lgL (handleSold lgS w).2).2 in
  let listed_then_sold := (handleSold lgS (handleListed s lgL w).2).2 in
  find (has_listing l) (orders (handleListed s lgL w).2) = Some listed
  /\ find (has_listing l) (orders sold_then_listed) = Some listed
  /\ find (has_listing l) (orders listed_then_sold)
     = Some (mkRow (order_id listed) (listing_id listed) (seller listed)
                   (Some b) (nft_name listed) (nft_address listed)
                   (url listed) (token_id listed) (amount listed)
                   (price listed) OrderStatusSuccess
                   (Some (Hash_Hex (TxHash lgS))) (deleted listed))
  /\ status listed = OrderStatusListed
  /\ buyer listed = Some ""
  /\ tx_hash listed = Some (Hash_Hex (TxHash lgL)).
Proof.
  intros Hio HlenL HlenS Hun Hsame l b HlackL HlackS listed stl lts.
  destruct (handleListed_writes lgL w _ _ _ Hio HlenL Hun HlackL)
    as (w1 & HhL & HfL & Hio1 & HkL).
  fold l in HfL, HkL. fold listed in HfL.
  split; [now rewrite HhL|].
  split; [|split].
  - subst stl.
    assert (HlackL' : rest_lacks (Hash_Hex (TxHash lgL)) (Int64 (topic lgS 1)) (orders w))
      by now rewrite Hsame.
    assert (HlackS' : rest_lacks (Hash_Hex (TxHash lgS)) (Int64 (topic lgS 1)) (orders w))
      by now rewrite Hsame.
    destruct (handleSold_writes lgS w Hio HlenS HlackS')
      as (w2 & HhS & HfS & Hio2 & HkS).
    rewrite HhS. simpl snd. rewrite Hsame in HfS, HkS. fold l in HfS, HkS.
    destruct (handleListed_writes lgL w2 _ _ _ Hio2 HlenL Hun (HkS _ HlackL))
      as (w3 & HhL3 & HfL3 & _).
    rewrite HhL3. simpl snd. fold l in HfL3. rewrite HfL3, HfS.
    f_equal. unfold listed.
    now destruct (find (has_listing l) (orders w)).
  - subst lts. rewrite HhL. simpl snd.
    assert (HlackS1 : rest_lacks (Hash_Hex (TxHash lgS)) (Int64 (topic lgS 1)) (orders w1))
      by (rewrite Hsame; now apply HkL).
    destruct (handleSold_writes lgS w1 Hio1 HlenS HlackS1)
      as (w2 & HhS & HfS & _).
    rewrite HhS. simpl snd. rewrite Hsame in HfS. fold l in HfS.
    rewrite HfS, HfL. f_equal. unfold listed.
    now destruct (find (has_listing l) (orders w)).
  - unfold listed. now destruct (find (has_listing l) (orders w)).
Qed.

(** A Cancelled log for a listing id the table does not hold, with a
    transaction hash the table does not hold either, on a connection
    that serves every call: the handler sends a placeholder with the
    listing id, status CANCELED and the hash, every other field empty or
    zero.  Where the price column stores the empty price as [p], the
    placeholder becomes a new row with price [p]; where the column
    refuses it, no row is added and the handler returns the error of the
    write. *)
Theorem Cancelled_before_Listed_sends_placeholder
    (column : Column) (lg : Log) (w : World) :
  io w = [] ->
  (2 <= length (Topics lg))%nat ->
  find (has_listing (Int64 (topic lg 1))) (orders w) = None ->
  existsb (has_tx (Hash_Hex (TxHash lg))) (orders w) = false ->
  match column "" with
  | Err e => handleCancelledTo (UpsertOn column) lg w = (Some e, w)
  | Ok p =>
      (handleCancelledTo (UpsertOn column) lg w).1 = None
      /\ orders (handleCancelledTo (UpsertOn column) lg w).2
         = orders w ++ [mkRow (next_order_id w) (Some (Int64 (topic lg 1))) ""
                              (Some "") (Some "") "" (Some "") 0 0 p
                              OrderStatusCanceled (Some (Hash_Hex (TxHash lg))) 0]
  end.
Proof.
  intros Hio Hlen Hnone Hnew.
  assert (Hhd : hd None (io w) = None) by now rewrite Hio.
  assert (Hw : set_io (tl (io w)) w = w) by (destruct w; simpl in *; now subst).
  unfold handleCancelledTo.
  destruct (Nat.ltb_spec (length (Topics lg)) 2) as [Hlt|_]; [lia|].
  unfold bind. rewrite (GetByID_healthy _ _ Hio), Hnone.
  rewrite (UpsertOn_served _ _ _ Hhd), Hw. simpl Price.
  destruct (column "") as [p|e]; [|reflexivity].
  unfold upsert_statement. simpl.
  rewrite find_split_first in Hnone.
  destruct (split_first (has_listing (Int64 (topic lg 1))) (orders w))
    as [[[pre r] post]|]; [discriminate|].
  assert (Ht : split_first (has_tx (Hash_Hex (TxHash lg))) (orders w) = None)
    by (apply split_first_None; now apply existsb_false).
  rewrite Ht. simpl. split; [reflexivity | now destruct w].
Qed.

(** C4: on a connection that serves every call, and from every state of
    the store, handling the same Listed, Cancelled or Sold log a second
    time gives the same answer as the first time and leaves every row of
    [orders], and so the row of the listing id, exactly as the first
    handling left it. *)
Theorem handleLog_twice (lg : Log) (w : World) :
  let once := handleLog s lg (healthy w) in
  let twice := handleLog s lg once.2 in
  twice.1 = once.1 /\ orders twice.2 = orders once.2.
Proof.
  assert (Hio : io (healthy w) = []) by now destruct w.
  assert (Hgoal : handleLog s lg (handleLog s lg (healthy w)).2
                  = handleLog s lg (healthy w)).
  { unfold handleLog. destruct (Topics lg) as [|sig rest] eqn:Htop; [reflexivity|].
    destruct (decide (sig = Listed_ID (abi s)));
      [exact (handleListed_twice lg _ Hio)|].
    destruct (decide (sig = Cancelled_ID (abi s)));
      [exact (handleCancelled_twice lg _ Hio)|].
    destruct (decide (sig = Sold_ID (abi s)));
      [exact (handleSold_twice lg _ Hio) | reflexivity]. }
  simpl. now rewrite Hgoal.
Qed.

Lemma extends_refl (w : World) : extends w w.
Proof. unfold extends. split; [reflexivity | auto]. Qed.

Lemma extends_trans (w w1 w2 : World) :
  extends w w1 -> extends w1 w2 -> extends w w2.
Proof.
  unfold extends. intros (P1 & K1 & R1 & A1 & N1) (P2 & K2 & R2 & A2 & N2).
  split; [now transitivity (keys <$> orders w1)|].
  split; [auto|]. repeat split; congruence.
Qed.

Lemma extends_same (w w1 : World) :
  orders w1 = orders w -> next_order_id w1 = next_order_id w ->
  redis w1 = redis w -> nft_assets w1 = nft_assets w ->
  next_asset_id w1 = next_asset_id w -> extends w w1.
Proof.
  intros Ho Hn Hr Ha Hm. unfold extends. rewrite Ho.
  split; [reflexivity|]. split; [now apply well_keyed_ext | auto].
Qed.

Lemma roundtrip_extends (w : World) :
  extends w (roundtrip w).2 /\ orders (roundtrip w).2 = orders w.
Proof.
  unfold roundtrip. destruct w as [rd rows n a m io].
  destruct io as [|[msg|] io]; simpl; (split; [apply extends_same|]); reflexivity.
Qed.

Lemma upsert_statement_extends (o : t) (w : World) :
  extends w (upsert_statement o w).2
  /\ (length (orders (upsert_statement o w).2) <= length (orders w) + 1)%nat.
Proof.
  destruct (upsert_statement_keys o w) as (Hp & Hlen & Hr & Ha & _).
  split; [|exact Hlen]. unfold extends.
  split; [exact Hp|]. split; [apply upsert_statement_well_keyed|].
  split; [exact Hr|]. split; [exact Ha|].
  unfold upsert_statement.
  destruct (split_first (has_listing (ListingID o)) (orders w)) as [[[pre r] post]|].
  - destruct (existsb (has_tx (Order.TxHash o)) (pre ++ post)); now destruct w.
  - destruct (split_first (has_tx (Order.TxHash o)) (orders w)) as [[[pre r] post]|];
      now destruct w.
Qed.

Lemma Upsert_extends (o : t) (w : World) :
  extends w (Upsert o w).2
  /\ (length (orders (Upsert o w).2) <= length (orders w) + 1)%nat.
Proof.
  unfold Upsert, upsertOrder, bind.
  destruct (roundtrip_extends w) as [He Ho].
  destruct (roundtrip w) as [[e|] w0]; simpl in *.
  - split; [exact He | rewrite Ho; lia].
  - destruct (upsert_statement_extends o w0) as [He' Hl].
    split; [now apply (extends_trans _ w0) | rewrite <- Ho; exact Hl].
Qed.

Lemma GetByID_extends (l : Z) (w : World) :
  extends w (GetByID l w).2 /\ orders (GetByID l w).2 = orders w.
Proof.
  unfold GetByID. rewrite getOrderByID_world. apply roundtrip_extends.
Qed.

(** A handler is a lookup at most, followed by one write at most. *)
Lemma lookup_then_Upsert_extends (l : Z) (k : result t -> t) (w : World) :
  let c := let* r := GetByID l in Upsert (k r) in
  extends w (c w).2 /\ (length (orders (c w).2) <= length (orders w) + 1)%nat.
Proof.
  simpl. unfold bind.
  destruct (GetByID_extends l w) as [He Ho].
  destruct (GetByID l w) as [r w0]; simpl in *.
  destruct (Upsert_extends (k r) w0) as [He' Hl].
  split; [now apply (extends_trans _ w0) | rewrite <- Ho; exact Hl].
Qed.

Lemma handleCancelled_extends (lg : Log) (w : World) :
  extends w (handleCancelled lg w).2
  /\ (length (orders (handleCancelled lg w).2) <= length (orders w) + 1)%nat.
Proof.
  unfold handleCancelled, handleCancelledTo.
  destruct (length (Topics lg) <? 2)%nat; [split; [apply extends_refl | simpl; lia]|].
  pose proof (lookup_then_Upsert_extends (Int64 (topic lg 1))
    (fun r => match r with
              | Err _ => cancelled_order (Int64 (topic lg 1)) (Hash_Hex (TxHash lg)) None
              | Ok existing =>
                  set_TxHash (Hash_Hex (TxHash lg)) (set_Status OrderStatusCanceled existing)
              end) w) as Hk.
  simpl in Hk. unfold bind in *.
  destruct (GetByID (Int64 (topic lg 1)) w) as [[existing|e] w0]; exact Hk.
Qed.

Lemma handleSold_extends (lg : Log) (w : World) :
  extends w (handleSold lg w).2
  /\ (length (orders (handleSold lg w).2) <= length (orders w) + 1)%nat.
Proof.
  unfold handleSold, handleSoldTo.
  destruct (length (Topics lg) <? 3)%nat; [split; [apply extends_refl | simpl; lia]|].
  pose proof (lookup_then_Upsert_extends (Int64 (topic lg 1))
    (fun r => match r with
              | Err _ => sold_order (Int64 (topic lg 1))
                           (Address_Hex (HexToAddress (topic lg 2)))
                           (Hash_Hex (TxHash lg)) None
              | Ok existing =>
                  set_TxHash (Hash_Hex (TxHash lg))
                    (set_Status OrderStatusSuccess
                       (set_Buyer (Address_Hex (HexToAddress (topic lg 2))) existing))
              end) w) as Hk.
  simpl in Hk. unfold bind in *.
  destruct (GetByID (Int64 (topic lg 1)) w) as [[existing|e] w0]; exact Hk.
Qed.

Lemma handleListed_extends (lg : Log) (w : World) :
  extends w (handleListed s lg w).2
  /\ (length (orders (handleListed s lg w).2) <= length (orders w) + 1)%nat.
Proof.
  unfold handleListed.
  destruct (length (Topics lg) <? 4)%nat; [split; [apply extends_refl | simpl; lia]|].
  destruct (UnpackListed (abi s) (Data lg)) as [[[tid amt] prc]|e];
    [apply Upsert_extends | split; [apply extends_refl | simpl; lia]].
Qed.

Lemma handleLog_extends (lg : Log) (w : World) :
  extends w (handleLog s lg w).2
  /\ (length (orders (handleLog s lg w).2) <= length (orders w) + 1)%nat.
Proof.
  unfold handleLog. destruct (Topics lg) as [|sig topics];
    [split; [apply extends_refl | simpl; lia]|].
  repeat case_decide;
    auto using handleListed_extends, handleCancelled_extends, handleSold_extends.
  split; [apply extends_refl | simpl; lia].
Qed.

Lemma handleLogs_extends (logs : list Log) (w : World) :
  extends w (handleLogs s logs w).2
  /\ (length (orders (handleLogs s logs w).2) <= length (orders w) + length logs)%nat.
Proof.
  revert w. induction logs as [|lg logs IH]; intros w; simpl.
  - split; [apply extends_refl | lia].
  - unfold bind. destruct (handleLog_extends lg w) as [He Hl].
    destruct (handleLog s lg w) as [e w0]; simpl in *.
    destruct (IH w0) as [He' Hl'].
    split; [now apply (extends_trans _ w0) | lia].
Qed.

(** The scanner's hands on the database.  Whatever the logs are and
    whatever the connection does, handling a batch of logs removes no
    order row and changes no [order_id] or [listing_id], adds one row per
    log at most, keeps the keys of the table unique, and writes neither
    to [nft_assets] nor to Redis. *)
Theorem handleLogs_extend (logs : list Log) (w : World) :
  extends w (handleLogs s logs w).2
  /\ (length (orders (handleLogs s logs w).2) <= length (orders w) + length logs)%nat.
Proof.
  revert w. induction logs as [|lg logs IH]; intros w; simpl.
  - split; [apply extends_refl | lia].
  - unfold bind. destruct (handleLog_extends lg w) as [He Hl].
    destruct (handleLog s lg w) as [e w0]; simpl in *.
    destruct (IH w0) as [He' Hl'].
    split; [now apply (extends_trans _ w0) | lia].
Qed.

(** Logs the scanner passes over.  A log without topics, with the id of
    another event or with fewer topics than its handler reads is handled
    without an error and without a call to the store; so is the data of
    a Listed log that does not decode, but for the error that comes
    back. *)
Theorem handleLog_ignores (lg : Log) (w : World) :
  (ignored s lg -> handleLog s lg w = (None, w))
  /\ (forall sig topics e,
        Topics lg = sig :: topics -> sig = Listed_ID (abi s) ->
        UnpackListed (abi s) (Data lg) = Err e ->
        (handleLog s lg w).2 = w
        /\ ((4 <= length (Topics lg))%nat -> (handleLog s lg w).1 = Some e)).
Proof.
  split.
  - unfold ignored, handleLog, topics_needed.
    destruct (Topics lg) as [|sig topics] eqn:Et; [reflexivity|].
    repeat case_decide; intros Hn; try reflexivity.
    + unfold handleListed. rewrite Et.
      destruct (Nat.ltb_spec (length (sig :: topics)) 4); [reflexivity | lia].
    + unfold handleCancelled, handleCancelledTo. rewrite Et.
      destruct (Nat.ltb_spec (length (sig :: topics)) 2); [reflexivity | lia].
    + unfold handleSold, handleSoldTo. rewrite Et.
      destruct (Nat.ltb_spec (length (sig :: topics)) 3); [reflexivity | lia].
  - intros sig topics e Et -> He. unfold handleLog. rewrite Et.
    rewrite decide_True by reflexivity. unfold handleListed. rewrite Et, He.
    destruct (Nat.ltb_spec (length (Listed_ID (abi s) :: topics)) 4);
      (split; [reflexivity | intros; try reflexivity; lia]).
Qed.

End Handlers.

End HandlerProps.

(** ** The batch loop and the watermark *)

Module ScanProps.
Import Chain.

Lemma uint64_small (z : Z) : 0 <= z < 2 ^ 64 -> uint64 z = z.
Proof. intros Hz. unfold uint64. now apply Z.mod_small. Qed.

Section Loop.
Context `{EthCodec} (s : MarketplaceScanner).

Lemma batch_end_one (latest : Z) (c : Cursor) :
  batchSize c = 1 -> 0 <= from c <= latest -> latest < 2 ^ 64 ->
  batch_end latest c = from c.
Proof.
  intros Hb Hf Hl. unfold batch_end. rewrite Hb.
  assert (Hto : uint64 (uint64 (from c + 1) - 1) = from c).
  { unfold uint64. rewrite Zminus_mod_idemp_l.
    replace (from c + 1 - 1) with (from c) by lia.
    apply Z.mod_small. lia. }
  rewrite Hto. destruct (Z.gtb_spec (from c) latest); [lia | reflexivity].
Qed.

Lemma scanLoop_S (fuel : nat) (rpc : nat -> Z -> Z -> result (list Log))
    (n : nat) (latest : Z) (c : Cursor) (w : World) :
  from c <= latest ->
  scanLoop s (S fuel) rpc n latest c w =
    let (nx, w1) := scanBatch s latest (rpc n (from c) (batch_end latest c)) c w in
    match nx with
    | Continue c' => scanLoop s fuel rpc (S n) latest c' w1
    | Break => (true, c, w1)
    end.
Proof.
  intros Hle. cbn [scanLoop].
  destruct (Z.leb_spec (from c) latest) as [_|Hgt]; [|lia].
  unfold bind. now destruct (scanBatch s latest _ c w) as [[c'|] w1].
Qed.


Lemma batch_end_in_range (floor latest : Z) (c : Cursor) :
  in_range s floor latest c -> from c <= latest ->
  latest + maxBatchBlocks s < 2 ^ 64 ->
  from c <= batch_end latest c <= latest.
Proof.
  intros (Hfl & Hls & Hfr & Hb) Hle Hbound. unfold batch_end.
  rewrite (uint64_small (from c + batchSize c)) by lia.
  rewrite uint64_small by lia.
  destruct (Z.gtb_spec (from c + batchSize c - 1) latest); lia.
Qed.

Lemma scanBatch_in_range (floor latest : Z) (reply : result (list Log))
    (c c' : Cursor) (w : World) :
  in_range s floor latest c -> from c <= latest ->
  latest + maxBatchBlocks s < 2 ^ 64 ->
  (scanBatch s latest reply c w).1 = Continue c' ->
  in_range s floor latest c'
  /\ lastScanned c <= lastScanned c'
  /\ (latest + 1 - from c' + batchSize c' < latest + 1 - from c + batchSize c).
Proof.
  intros Hin Hle Hbound Hstep.
  pose proof (batch_end_in_range _ _ _ Hin Hle Hbound) as Hto.
  destruct Hin as (Hfl & Hls & Hfr & Hb).
  assert (Hadv : let c1 := {| lastScanned := batch_end latest c;
                              from := uint64 (batch_end latest c + 1);
                              batchSize := batchSize c |} in
                 in_range s floor latest c1
                 /\ lastScanned c <= lastScanned c1
                 /\ (latest + 1 - from c1 + batchSize c1
                     < latest + 1 - from c + batchSize c)).
  { simpl. rewrite uint64_small by lia.
    unfold in_range; simpl. lia. }
  unfold scanBatch in Hstep. destruct reply as [logs|err].
  - unfold bind in Hstep. destruct (handleLogs s logs w) as [u w1].
    simpl in Hstep. injection Hstep as <-. exact Hadv.
  - destruct (Contains (Error err) "limit exceeded"); [|discriminate].
    destruct (Z.gtb_spec (batchSize c) 1) as [Hgt|Hngt].
    + simpl in Hstep. injection Hstep as <-.
      assert (1 <= batchSize c / 2) by (apply Z.div_le_lower_bound; lia).
      assert (batchSize c / 2 < batchSize c) by (apply Z.div_lt; lia).
      destruct (Z.ltb_spec (batchSize c / 2) 1) as [Hlt|_]; [lia|].
      unfold in_range; simpl. lia.
    + simpl in Hstep. injection Hstep as <-. exact Hadv.
Qed.

Lemma scanLoop_monotone (fuel : nat) (rpc : nat -> Z -> Z -> result (list Log))
    (n : nat) (floor latest : Z) (c : Cursor) (w : World) :
  in_range s floor latest c ->
  latest + maxBatchBlocks s < 2 ^ 64 ->
  let c' := (scanLoop s fuel rpc n latest c w).1.2 in
  lastScanned c <= lastScanned c' /\ 0 <= lastScanned c'.
Proof.
  revert n c w. induction fuel as [|fuel IH]; intros n c w Hin Hbound; simpl.
  - destruct Hin as (_ & ? & _). destruct (from c <=? latest); simpl; lia.
  - destruct (Z.leb_spec (from c) latest) as [Hle|Hgt];
      [|destruct Hin as (_ & ? & _); simpl; lia].
    unfold bind.
    destruct (scanBatch s latest (rpc n (from c) (batch_end latest c)) c w)
      as [nx w1] eqn:Hstep.
    destruct nx as [c1|]; [|destruct Hin as (_ & ? & _); simpl; lia].
    destruct (scanBatch_in_range floor latest
                (rpc n (from c) (batch_end latest c)) c c1 w Hin Hle Hbound)
      as (Hin1 & Hmono & _); [now rewrite Hstep|].
    specialize (IH (S n) c1 w1 Hin1 Hbound). simpl in IH. lia.
Qed.

(** Within the same range the batch loop ends: every pass either moves
    the next block forward or halves the batch. *)
Lemma scanLoop_ends (fuel : nat) (rpc : nat -> Z -> Z -> result (list Log))
    (n : nat) (floor latest : Z) (c : Cursor) (w : World) :
  in_range s floor latest c ->
  latest + maxBatchBlocks s < 2 ^ 64 ->
  latest + 1 - from c + batchSize c <= Z.of_nat fuel ->
  (scanLoop s fuel rpc n latest c w).1.1 = true.
Proof.
  revert n c w. induction fuel as [|fuel IH]; intros n c w Hin Hbound Hfuel; simpl.
  - destruct (Z.leb_spec (from c) latest) as [Hle|Hgt]; [|reflexivity].
    destruct Hin as (_ & _ & _ & ?). lia.
  - destruct (Z.leb_spec (from c) latest) as [Hle|Hgt]; [|reflexivity].
    unfold bind.
    destruct (scanBatch s latest (rpc n (from c) (batch_end latest c)) c w)
      as [nx w1] eqn:Hstep.
    destruct nx as [c1|]; [|reflexivity].
    destruct (scanBatch_in_range floor latest
                (rpc n (from c) (batch_end latest c)) c c1 w Hin Hle Hbound)
      as (Hin1 & _ & Hdec); [now rewrite Hstep|].
    apply (IH (S n) c1 w1 Hin1 Hbound). lia.
Qed.

Lemma tick_monotone (fuel : nat) (t : Tick) (watermark : Z) (w : World) :
  1 <= maxBatchBlocks s -> 0 <= watermark -> head_in_range s t ->
  watermark <= (tick s fuel t watermark w).1.2
  /\ 0 <= (tick s fuel t watermark w).1.2.
Proof.
  intros Hmax Hwm Hhead. unfold tick.
  destruct (head t) as [number|err] eqn:Hh; [|simpl; lia].
  destruct (Z.leb_spec (uint64 number) watermark) as [Hle|Hgt]; [simpl; lia|].
  specialize (Hhead number Hh).
  unfold bind.
  match goal with
  | |- context [scanLoop s fuel ?rpc ?n ?latest ?c w] =>
      pose proof (scanLoop_monotone fuel rpc n watermark latest c w) as Hm;
      destruct (scanLoop s fuel rpc n latest c w) as [[fin c'] w1]
  end.
  simpl in *. apply Hm; [|exact Hhead].
  unfold in_range; simpl. rewrite uint64_small by lia. lia.
Qed.

(** Under the same bounds the batch loop of a tick ends, whatever the log
    queries answer: it has left the loop once the fuel covers the blocks
    to scan and the halvings of the batch. *)
Theorem tick_ends (fuel : nat) (t : Tick) (watermark number : Z) (w : World) :
  1 <= maxBatchBlocks s -> 0 <= watermark -> head_in_range s t ->
  head t = Ok number ->
  uint64 number - watermark + maxBatchBlocks s <= Z.of_nat fuel ->
  (tick s fuel t watermark w).1.1 = true.
Proof.
  intros Hmax Hwm Hhead Hh Hfuel. unfold tick. rewrite Hh.
  destruct (Z.leb_spec (uint64 number) watermark) as [Hle|Hgt]; [reflexivity|].
  specialize (Hhead number Hh). unfold bind.
  match goal with
  | |- context [scanLoop s fuel ?rpc ?n ?latest ?c w] =>
      pose proof (scanLoop_ends fuel rpc n watermark latest c w) as He;
      destruct (scanLoop s fuel rpc n latest c w) as [[fin c'] w1]
  end.
  simpl in *. apply He; [|exact Hhead|].
  - unfold in_range; simpl. rewrite (uint64_small (watermark + 1)) by lia. lia.
  - rewrite (uint64_small (watermark + 1)) by lia. lia.
Qed.

Lemma ticks_monotone (fuel : nat) (ts : list Tick) (watermark : Z) (w : World) :
  1 <= maxBatchBlocks s -> 0 <= watermark -> Forall (head_in_range s) ts ->
  Forall (fun x => watermark <= x) (ticks s fuel ts watermark w).1
  /\ forall i a b,
       (ticks s fuel ts watermark w).1 !! i = Some a ->
       (ticks s fuel ts watermark w).1 !! S i = Some b -> a <= b.
Proof.
  intros Hmax. revert watermark w.
  induction ts as [|t ts IH]; intros watermark w Hwm Hall; simpl.
  - split; [constructor | intros i a b Ha; discriminate].
  - inversion Hall as [|? ? Ht Hts]; subst.
    unfold bind.
    pose proof (tick_monotone fuel t watermark w Hmax Hwm Ht) as [Hm Hpos].
    destruct (tick s fuel t watermark w) as [[fin wm1] w1]. simpl in *.
    destruct fin; simpl.
    + destruct (IH wm1 w1 Hpos Hts) as [Hge Hadj].
      destruct (ticks s fuel ts wm1 w1) as [ws w2]. simpl in *.
      split.
      * constructor; [exact Hm|].
        eapply Forall_impl; [exact Hge|]. simpl. intros x Hx. lia.
      * intros [|i] a b Ha Hb; simpl in *.
        -- injection Ha as <-. destruct ws as [|x ws]; [discriminate|].
           simpl in Hb. injection Hb as <-. now inversion Hge.
        -- exact (Hadj i a b Ha Hb).
    + split; [repeat constructor; exact Hm|].
      intros [|i] a b Ha Hb; simpl in *; discriminate.
Qed.

(** C7: the watermark never decreases from one tick of [Run] to the
    next, whatever the log queries answer; range-limit rejections, halved
    batches and skipped sub-ranges included.  The head block numbers the
    chain client reports are taken to stay more than [maxBatchBlocks]
    short of 2^64, as the block numbers of every chain do: below that
    bound no sum of the batch loop leaves the uint64 range. *)
Theorem Run_watermark_monotone
    (fuel : nat) (start : result Z) (ts : list Tick) (w : World) :
  1 <= maxBatchBlocks s ->
  Forall (head_in_range s) ts ->
  forall (i : nat) (before after : Z),
    (Run s fuel start ts w).1 !! i = Some before ->
    (Run s fuel start ts w).1 !! S i = Some after ->
    before <= after.
Proof.
  intros Hmax Hall i before after. unfold Run.
  destruct start as [number|err]; [|simpl; discriminate].
  unfold bind.
  assert (Hpos : 0 <= uint64 number) by (unfold uint64; apply Z.mod_pos_bound; lia).
  destruct (ticks_monotone fuel ts (uint64 number) w Hmax Hpos Hall) as [Hge Hadj].
  destruct (ticks s fuel ts (uint64 number) w) as [ws w1]. simpl in *.
  destruct i as [|i]; simpl.
  - intros Ha Hb. injection Ha as <-.
    destruct ws as [|x ws]; [discriminate|]. simpl in Hb. injection Hb as <-.
    now inversion Hge.
  - apply Hadj.
Qed.

Lemma handleLogs_app (l1 l2 : list Log) (w : World) :
  (handleLogs s (l1 ++ l2) w).2 = (handleLogs s l2 (handleLogs s l1 w).2).2.
Proof.
  revert w. induction l1 as [|lg l1 IH]; intros w; simpl; [reflexivity|].
  unfold bind. destruct (handleLog s lg w) as [e w0]. simpl. apply IH.
Qed.

Lemma logs_between_split (chain : Z -> list Log) (a b c : Z) :
  a <= b + 1 -> b <= c ->
  logs_between chain a c = logs_between chain a b ++ logs_between chain (b + 1) c.
Proof.
  intros Hab Hbc. unfold logs_between.
  replace (c - a + 1) with ((b - a + 1) + (c - (b + 1) + 1)) by lia.
  rewrite seqZ_app by lia. rewrite flat_map_app.
  now replace (a + (b - a + 1)) with (b + 1) by lia.
Qed.

Lemma logs_between_empty (chain : Z -> list Log) (a b : Z) :
  b < a -> logs_between chain a b = [].
Proof. intros Hlt. unfold logs_between. now rewrite seqZ_nil by lia. Qed.

(** The batch loop against a node that answers every query: the logs of
    the blocks from the next block to the head are handled, in block
    order, as one query for all of them would have them handled. *)
Lemma scanLoop_node (fuel : nat) (rpc : nat -> Z -> Z -> result (list Log))
    (chain : Z -> list Log) (n : nat) (latest : Z) (c : Cursor) (w : World) :
  (forall n a b, rpc n a b = Ok (logs_between chain a b)) ->
  0 <= from c <= latest + 1 -> lastScanned c = from c - 1 ->
  1 <= batchSize c -> latest + batchSize c < 2 ^ 64 ->
  latest + 1 - from c <= Z.of_nat fuel ->
  exists c',
    scanLoop s fuel rpc n latest c w
    = ((true, c'), (handleLogs s (logs_between chain (from c) latest) w).2)
    /\ lastScanned c' = latest.
Proof.
  intros Hrpc. revert n c w.
  induction fuel as [|fuel IH]; intros n c w Hfrom Hls Hb Hbound Hfuel.
  - assert (from c = latest + 1) by lia.
    exists c. simpl. destruct (Z.leb_spec (from c) latest); [lia|].
    rewrite logs_between_empty by lia. split; [reflexivity | lia].
  - destruct (Z.le_gt_cases (from c) latest) as [Hle|Hgt].
    + rewrite scanLoop_S by exact Hle. rewrite Hrpc. unfold scanBatch, bind.
      assert (Hto : from c <= batch_end latest c <= latest).
      { unfold batch_end. rewrite (uint64_small (from c + batchSize c)) by lia.
        rewrite uint64_small by lia.
        destruct (Z.gtb_spec (from c + batchSize c - 1) latest); lia. }
      destruct (handleLogs s (logs_between chain (from c) (batch_end latest c)) w)
        as [u w1] eqn:Hh. unfold ret.
      rewrite (uint64_small (batch_end latest c + 1)) by lia.
      destruct (IH (S n) {| lastScanned := batch_end latest c;
                            from := batch_end latest c + 1;
                            batchSize := batchSize c |} w1) as (c' & Hloop & Hc');
        simpl; try lia.
      exists c'. split; [|exact Hc'].
      rewrite Hloop. f_equal.
      rewrite (logs_between_split chain (from c) (batch_end latest c) latest) by lia.
      rewrite handleLogs_app. now rewrite Hh.
    + exists c. cbn [scanLoop]. destruct (Z.leb_spec (from c) latest); [lia|].
      rewrite logs_between_empty by lia.
      destruct fuel; (split; [reflexivity | lia]).
Qed.

(** Batching does not show.  A tick of [Run] against a node that answers
    every query handles the logs of the blocks above the watermark up to
    the head, each once and in block order, and leaves the watermark at
    the head; the fuel needed is the number of those blocks. *)
Theorem tick_handles_every_block (fuel : nat) (number : Z) (chain : Z -> list Log)
    (watermark : Z) (w : World) :
  1 <= maxBatchBlocks s ->
  0 <= watermark < uint64 number ->
  uint64 number + maxBatchBlocks s < 2 ^ 64 ->
  uint64 number - watermark <= Z.of_nat fuel ->
  tick s fuel (node number chain) watermark w
  = ((true, uint64 number),
     (handleLogs s (logs_between chain (watermark + 1) (uint64 number)) w).2).
Proof.
  intros Hmax Hwm Hbound Hfuel. unfold tick.
  change (head (node number chain)) with (@Ok Z number). cbv beta iota zeta.
  destruct (Z.leb_spec (uint64 number) watermark) as [|_]; [lia|].
  unfold bind. rewrite (uint64_small (watermark + 1)) by lia.
  destruct (scanLoop_node fuel (fun _ a b => Ok (logs_between chain a b)) chain 0
              (uint64 number)
              {| lastScanned := watermark; from := watermark + 1;
                 batchSize := maxBatchBlocks s |} w) as (c' & Hloop & Hc');
    simpl; try lia; try reflexivity.
  rewrite Hloop. simpl. now rewrite Hc'.
Qed.

(** The reconcile loop is the batch loop of [Run] without its watermark:
    on the same answers it makes the same calls. *)
Lemma resyncLoop_scanLoop (fuel : nat) (rpc : nat -> Z -> Z -> result (list Log))
    (n : nat) (latest : Z) (c : Cursor) (w : World) :
  let r := resyncLoop s fuel rpc n latest (from c) (batchSize c) w in
  let q := scanLoop s fuel rpc n latest c w in
  r.2 = q.2 /\ r.1.1 = q.1.1.
Proof.
  revert n c w. induction fuel as [|fuel IH]; intros n c w; cbn [resyncLoop scanLoop].
  - destruct (from c <=? latest); split; reflexivity.
  - destruct (from c <=? latest); [|split; reflexivity].
    unfold scanBatch, batch_end, bind.
    destruct (rpc n (from c)
                (if uint64 (uint64 (from c + batchSize c) - 1) >? latest
                 then latest else uint64 (uint64 (from c + batchSize c) - 1)))
      as [logs|err].
    + destruct (handleLogs s logs w) as [u w1]. unfold ret.
      apply (IH (S n) {| lastScanned := _; from := _; batchSize := _ |} w1).
    + destruct (Contains (Error err) "limit exceeded"); [|split; reflexivity].
      destruct (batchSize c >? 1); unfold ret;
        apply (IH (S n) {| lastScanned := _; from := _; batchSize := _ |} w).
Qed.

Lemma resync_from_range (latest lookbackBlocks : Z) :
  0 < latest < 2 ^ 64 -> 0 <= lookbackBlocks ->
  resync_from latest lookbackBlocks
  = (if (lookbackBlocks >? 0) && (lookbackBlocks <? latest)
     then latest - lookbackBlocks + 1 else 1)
  /\ 1 <= resync_from latest lookbackBlocks <= latest.
Proof.
  intros Hl Hk. unfold resync_from.
  destruct (Z.gtb_spec lookbackBlocks 0); simpl; [|lia].
  destruct (Z.ltb_spec lookbackBlocks latest); simpl; [|lia].
  rewrite (uint64_small (latest - lookbackBlocks)) by lia.
  rewrite uint64_small by lia. lia.
Qed.

(** [ResyncRecent] is a tick of [Run] that starts with the watermark
    just below its window: whatever the chain client answers, the two
    handle the same logs in the same order and leave the same database,
    and one ends when the other does. *)
Theorem ResyncRecent_as_tick (fuel : nat) (t : Tick) (number lookbackBlocks : Z)
    (w : World) :
  head t = Ok number -> 0 < uint64 number -> 0 <= lookbackBlocks ->
  let start := resync_from (uint64 number) lookbackBlocks in
  (ResyncRecent s fuel t lookbackBlocks w).2 = (tick s fuel t (start - 1) w).2
  /\ (ResyncRecent s fuel t lookbackBlocks w).1.1 = (tick s fuel t (start - 1) w).1.1
  /\ 1 <= start <= uint64 number.
Proof.
  intros Hh Hpos Hk start.
  assert (Hu : 0 < uint64 number < 2 ^ 64)
    by (unfold uint64 in *; pose proof (Z.mod_pos_bound number (2 ^ 64)); lia).
  destruct (resync_from_range (uint64 number) lookbackBlocks Hu Hk) as [_ Hr].
  fold start in Hr.
  unfold ResyncRecent, tick. rewrite Hh.
  destruct (Z.eqb_spec (uint64 number) 0) as [|_]; [lia|].
  destruct (Z.leb_spec (uint64 number) (start - 1)) as [|_]; [lia|].
  unfold bind. replace (start - 1 + 1) with start by lia.
  rewrite (uint64_small start) by lia.
  pose proof (resyncLoop_scanLoop fuel (filterLogs t) 0 (uint64 number)
                {| lastScanned := start - 1; from := start;
                   batchSize := maxBatchBlocks s |} w) as [Hw Hf].
  simpl in Hw, Hf. fold start.
  destruct (scanLoop s fuel (filterLogs t) 0 (uint64 number) _ w) as [[fin c'] w1].
  simpl in *. auto.
Qed.

Lemma resyncLoop_served (fuel : nat) (rpc : nat -> Z -> Z -> result (list Log))
    (n : nat) (latest from batchSize : Z) (w : World) :
  (forall n a b, exists logs, rpc n a b = Ok logs) ->
  (resyncLoop s fuel rpc n latest from batchSize w).1.2 = None.
Proof.
  intros Hrpc. revert n from w.
  induction fuel as [|fuel IH]; intros n from w; cbn [resyncLoop].
  - now destruct (from <=? latest).
  - destruct (from <=? latest); [|reflexivity].
    match goal with |- context [rpc n from ?to] => destruct (Hrpc n from to) as [logs ->] end.
    unfold bind. destruct (handleLogs s logs w) as [u w1]. apply IH.
Qed.

(** What [ResyncRecent] repairs.  Against a node that answers every
    query it handles the logs of its window, each once and in block
    order, and returns nil: the window is the last [lookbackBlocks]
    blocks up to the head, or every block from block 1 when the
    look-back is 0 or not smaller than the head; the fuel needed is the
    number of blocks in the window. *)
Theorem ResyncRecent_handles_window (fuel : nat) (number : Z) (chain : Z -> list Log)
    (lookbackBlocks : Z) (w : World) :
  let latest := uint64 number in
  let start := if (lookbackBlocks >? 0) && (lookbackBlocks <? latest)
               then latest - lookbackBlocks + 1 else 1 in
  1 <= maxBatchBlocks s ->
  0 < latest -> latest + maxBatchBlocks s < 2 ^ 64 ->
  0 <= lookbackBlocks ->
  latest - start + 1 <= Z.of_nat fuel ->
  ResyncRecent s fuel (node number chain) lookbackBlocks w
  = ((true, None), (handleLogs s (logs_between chain start latest) w).2).
Proof.
  intros latest start Hmax Hpos Hbound Hk Hfuel.
  assert (Hu : 0 < latest < 2 ^ 64) by (unfold latest in *; lia).
  destruct (resync_from_range latest lookbackBlocks Hu Hk) as [Hs Hr].
  fold start in Hs. rewrite Hs in Hr.
  unfold ResyncRecent.
  change (head (node number chain)) with (@Ok Z number). cbv beta iota zeta.
  fold latest. destruct (Z.eqb_spec latest 0) as [|_]; [lia|].
  rewrite Hs.
  set (rpc := filterLogs (node number chain)).
  pose proof (resyncLoop_scanLoop fuel rpc 0 latest
                {| lastScanned := start - 1; from := start;
                   batchSize := maxBatchBlocks s |} w) as [Hw Hf].
  pose proof (resyncLoop_served fuel rpc 0 latest start (maxBatchBlocks s) w) as Hn.
  destruct (scanLoop_node fuel rpc chain 0 latest
              {| lastScanned := start - 1; from := start;
                 batchSize := maxBatchBlocks s |} w) as (c' & Hloop & _);
    simpl; try lia; try reflexivity.
  simpl in Hw, Hf. rewrite Hloop in Hw, Hf. simpl in Hw, Hf.
  destruct (resyncLoop s fuel rpc 0 latest start (maxBatchBlocks s) w)
    as [[fin e] w1]. simpl in *.
  rewrite Hn by (intros; eexists; reflexivity). now subst.
Qed.

Lemma resyncLoop_starved (fuel : nat) (rpc : nat -> Z -> Z -> result (list Log))
    (n : nat) (latest from batchSize : Z) (w : World) :
  (forall n a b, exists e, rpc n a b = Err e
                           /\ Contains (Error e) "limit exceeded" = true) ->
  (resyncLoop s fuel rpc n latest from batchSize w).2 = w
  /\ (resyncLoop s fuel rpc n latest from batchSize w).1.2 = None.
Proof.
  intros Hrpc. revert n from batchSize w.
  induction fuel as [|fuel IH]; intros n from batchSize w; cbn [resyncLoop].
  - now destruct (from <=? latest).
  - destruct (from <=? latest); [|split; reflexivity].
    match goal with
    | |- context [rpc n from ?to] => destruct (Hrpc n from to) as (e & -> & ->)
    end.
    destruct (batchSize >? 1); apply IH.
Qed.

(** A nil that repairs nothing.  When the provider rejects every query
    for its range, [ResyncRecent] halves its batches, gives every block
    of the window up, and returns nil without having written anything. *)
Theorem ResyncRecent_starved (fuel : nat) (t : Tick) (number lookbackBlocks : Z)
    (w : World) :
  1 <= maxBatchBlocks s ->
  head t = Ok number -> uint64 number + maxBatchBlocks s < 2 ^ 64 ->
  0 <= lookbackBlocks ->
  (forall n a b, exists e, filterLogs t n a b = Err e
                           /\ Contains (Error e) "limit exceeded" = true) ->
  uint64 number - resync_from (uint64 number) lookbackBlocks + 1 + maxBatchBlocks s
    <= Z.of_nat fuel ->
  ResyncRecent s fuel t lookbackBlocks w = ((true, None), w).
Proof.
  intros Hmax Hh Hbound Hk Hrpc Hfuel. unfold ResyncRecent. rewrite Hh.
  destruct (Z.eqb_spec (uint64 number) 0) as [|Hne]; [reflexivity|].
  assert (Hu : 0 < uint64 number < 2 ^ 64)
    by (unfold uint64 in *; pose proof (Z.mod_pos_bound number (2 ^ 64)); lia).
  destruct (resync_from_range (uint64 number) lookbackBlocks Hu Hk) as [_ Hr].
  set (start := resync_from (uint64 number) lookbackBlocks) in *.
  destruct (resyncLoop_starved fuel (filterLogs t) 0 (uint64 number) start
              (maxBatchBlocks s) w Hrpc) as [Hw He].
  pose proof (resyncLoop_scanLoop fuel (filterLogs t) 0 (uint64 number)
                {| lastScanned := start - 1; from := start;
                   batchSize := maxBatchBlocks s |} w) as [_ Hf].
  simpl in Hf.
  rewrite (scanLoop_ends fuel (filterLogs t) 0 (start - 1) (uint64 number)) in Hf.
  - destruct (resyncLoop s fuel (filterLogs t) 0 (uint64 number) start
                (maxBatchBlocks s) w) as [[fin e] w1]. simpl in *. now subst.
  - unfold in_range; simpl. lia.
  - exact Hbound.
  - simpl. lia.
Qed.

Lemma scanLoop_extends (fuel : nat) (rpc : nat -> Z -> Z -> result (list Log))
    (n : nat) (latest : Z) (c : Cursor) (w : World) :
  OrderStore.extends w (scanLoop s fuel rpc n latest c w).2.
Proof.
  revert n c w. induction fuel as [|fuel IH]; intros n c w; cbn [scanLoop].
  - destruct (from c <=? latest); apply HandlerProps.extends_refl.
  - destruct (from c <=? latest); [|apply HandlerProps.extends_refl].
    unfold scanBatch, bind.
    destruct (rpc n (from c) (batch_end latest c)) as [logs|err].
    + destruct (HandlerProps.handleLogs_extends s logs w) as [He _].
      destruct (handleLogs s logs w) as [u w1]. unfold ret. simpl in He.
      eapply HandlerProps.extends_trans; [exact He | apply IH].
    + destruct (Contains (Error err) "limit exceeded");
        [|apply HandlerProps.extends_refl].
      destruct (batchSize c >? 1); unfold ret; apply IH.
Qed.

Lemma tick_extends (fuel : nat) (t : Tick) (watermark : Z) (w : World) :
  OrderStore.extends w (tick s fuel t watermark w).2.
Proof.
  unfold tick. destruct (head t) as [number|e]; [|apply HandlerProps.extends_refl].
  destruct (uint64 number <=? watermark); [apply HandlerProps.extends_refl|].
  unfold bind.
  match goal with
  | |- context [scanLoop s fuel ?rpc ?n ?latest ?c w] =>
      pose proof (scanLoop_extends fuel rpc n latest c w) as He;
      destruct (scanLoop s fuel rpc n latest c w) as [r w1]
  end.
  exact He.
Qed.

Lemma ticks_extends (fuel : nat) (ts : list Tick) (watermark : Z) (w : World) :
  OrderStore.extends w (ticks s fuel ts watermark w).2.
Proof.
  revert watermark w. induction ts as [|t ts IH]; intros watermark w; simpl;
    [apply HandlerProps.extends_refl|].
  unfold bind. pose proof (tick_extends fuel t watermark w) as He.
  destruct (tick s fuel t watermark w) as [[fin wm] w1]. simpl in *.
  destruct fin; [|exact He].
  pose proof (IH wm w1) as He'.
  destruct (ticks s fuel ts wm w1) as [ws w2]. simpl in *.
  eapply HandlerProps.extends_trans; eassumption.
Qed.

(** The scanner writes order rows and nothing else.  Whatever the chain
    client answers and whatever the connection to the database does,
    [Run], through all its ticks, and [ResyncRecent] remove no order row,
    change no [order_id] or [listing_id], keep the keys of [orders]
    unique, and leave [nft_assets] and Redis as they are: a sale the
    scanner sees does not change the owner of the asset. *)
Theorem scanner_writes_orders_only (fuel : nat) (start : result Z) (ts : list Tick)
    (t : Tick) (lookbackBlocks : Z) (w : World) :
  OrderStore.extends w (Run s fuel start ts w).2
  /\ OrderStore.extends w (ResyncRecent s fuel t lookbackBlocks w).2.
Proof.
  split.
  - unfold Run. destruct start as [number|e]; [|apply HandlerProps.extends_refl].
    unfold bind. pose proof (ticks_extends fuel ts (uint64 number) w) as He.
    destruct (ticks s fuel ts (uint64 number) w) as [ws w1]. exact He.
  - unfold ResyncRecent. destruct (head t) as [number|e];
      [|apply HandlerProps.extends_refl].
    destruct (uint64 number =? 0); [apply HandlerProps.extends_refl|].
    destruct (resyncLoop_scanLoop fuel (filterLogs t) 0 (uint64 number)
                {| lastScanned := 0;
                   from := resync_from (uint64 number) lookbackBlocks;
                   batchSize := maxBatchBlocks s |} w) as [Hw _].
    simpl in Hw. rewrite Hw. apply scanLoop_extends.
Qed.

End Loop.

End ScanProps.

(** ** The update-order-status operation *)

Module ApiProps.
Import Order OrderStore OrderProps Api.

Lemma upsert_statement_frame (o : t) (w : World) :
  let r := upsert_statement o w in
  redis r.2 = redis w /\ nft_assets r.2 = nft_assets w /\ io r.2 = io w
  /\ next_asset_id r.2 = next_asset_id w
  /\ (r.1 <> None -> r.2 = w).
Proof.
  unfold upsert_statement.
  destruct (split_first (has_listing (ListingID o)) (orders w)) as [[[pre r] post]|].
  - destruct (existsb (has_tx (TxHash o)) (pre ++ post)); destruct w; simpl; auto 10.
    repeat split; congruence.
  - destruct (split_first (has_tx (TxHash o)) (orders w)) as [[[pre r] post]|];
      destruct w; simpl; repeat split; congruence.
Qed.

Lemma upsert_statement_found (o : t) (w w1 : World) (r : row) :
  find (has_listing (ListingID o)) (orders w) = Some r ->
  upsert_statement o w = (None, w1) ->
  find (has_listing (ListingID o)) (orders w1) = Some (assign o r).
Proof.
  unfold upsert_statement. rewrite !find_split_first.
  destruct (split_first (has_listing (ListingID o)) (orders w))
    as [[[pre x] post]|] eqn:Hl; simpl; [|discriminate].
  intros [= ->]. destruct (split_first_Some _ _ _ _ _ Hl) as (Hrows & Hr & Hpre).
  destruct (existsb (has_tx (TxHash o)) (pre ++ post)); [discriminate|].
  intros [= <-]. destruct w as [rd rows n a m s]; simpl in *.
  now rewrite (split_first_app _ pre post (assign o r) Hpre Hr).
Qed.

Lemma transition_fields (existing : t) (newStatus : OrderStatus) (buyer txHash : string) :
  let o := transition existing newStatus buyer txHash in
  ListingID o = ListingID existing /\ NFTAddress o = NFTAddress existing
  /\ TokenID o = TokenID existing /\ TxHash o = txHash /\ Status o = newStatus.
Proof.
  unfold transition. now destruct (bool_decide (newStatus = OrderStatusSuccess)).
Qed.

Lemma getOrderByID_cases (l : Z) (forUpdate : bool) (w : World) :
  let r := getOrderByID l forUpdate w in
  redis r.2 = redis w /\ orders r.2 = orders w /\ nft_assets r.2 = nft_assets w
  /\ (forall existing, r.1 = Ok existing ->
        exists x, find (has_listing l) (orders w) = Some x /\ existing = scan x).
Proof.
  unfold getOrderByID, bind, roundtrip, gets, ret.
  destruct w as [rd rows n a m s]. destruct s as [|[msg|] s]; simpl;
    try (repeat split; try reflexivity; intros; discriminate);
    (destruct (find (has_listing l) rows) as [x|]; simpl;
     repeat split; try reflexivity; intros existing Hx;
     [injection Hx as <-; now exists x | discriminate]).
Qed.

Lemma upsertOrder_cases (o : t) (w : World) :
  let r := upsertOrder o w in
  redis r.2 = redis w /\ nft_assets r.2 = nft_assets w
  /\ (r.1 <> None -> orders r.2 = orders w)
  /\ (r.1 = None -> exists w0, orders w0 = orders w
                               /\ upsert_statement o w0 = (None, r.2)).
Proof.
  unfold upsertOrder, bind, roundtrip, ret.
  destruct w as [rd rows n a m s]. destruct s as [|[msg|] s]; simpl;
    try (repeat split; try reflexivity; intros; discriminate).
  - match goal with
    | |- context [upsert_statement o ?w0] =>
        pose proof (upsert_statement_frame o w0) as (H1 & H2 & _ & _ & H5);
        destruct (upsert_statement o w0) as [e w1] eqn:Hu
    end.
    simpl in *. repeat split; auto.
    + intros He. now rewrite (H5 He).
    + intros ->. eexists; split; [|exact Hu]. reflexivity.
  - match goal with
    | |- context [upsert_statement o ?w0] =>
        pose proof (upsert_statement_frame o w0) as (H1 & H2 & _ & _ & H5);
        destruct (upsert_statement o w0) as [e w1] eqn:Hu
    end.
    simpl in *. repeat split; auto.
    + intros He. now rewrite (H5 He).
    + intros ->. eexists; split; [|exact Hu]. reflexivity.
Qed.

Lemma roundtrip_frame (w : World) :
  let r := roundtrip w in
  redis r.2 = redis w /\ orders r.2 = orders w /\ nft_assets r.2 = nft_assets w.
Proof.
  unfold roundtrip. destruct w as [rd rows n a m s].
  destruct s as [|[msg|] s]; simpl; auto.
Qed.

Lemma asset_update_frame (P : NftAsset.row -> bool) (g : NftAsset.row -> NftAsset.row)
    (w : World) :
  let r := NftAssetStore.update P g w in
  redis r.2 = redis w /\ orders r.2 = orders w.
Proof.
  unfold NftAssetStore.update, bind, roundtrip, gets, modify, ret.
  destruct w as [rd rows n a m s]. destruct s as [|[msg|] s]; simpl; auto.
Qed.

Lemma flips_terminal_same (st : OrderStatus) : flips_terminal st st = false.
Proof.
  unfold flips_terminal. rewrite bool_decide_eq_true_2 by reflexivity.
  simpl. now rewrite andb_false_r.
Qed.

Lemma Acquire_cases (l : Lock.RedisLocker) (entropy : option (list Z)) (now : Z)
    (k : string) (ttl : Z) (w : World) :
  let r := Lock.Acquire l entropy now k ttl w in
  orders r.2 = orders w /\ nft_assets r.2 = nft_assets w
  /\ (forall held, r.1 = Ok held ->
        held = {| Lock.key := Lock.prefix l +:+ k;
                  Lock.value := Lock.randomLockValue entropy now |}
        /\ redis r.2 = <[Lock.prefix l +:+ k := (Lock.randomLockValue entropy now, ttl)]>
                         (redis w))
  /\ (forall e, r.1 = Err e -> redis r.2 = redis w).
Proof.
  unfold Lock.Acquire, Lock.SetNX, bind, roundtrip, gets, modify, ret.
  destruct w as [rd rows n a m s]. destruct s as [|[msg|] s]; simpl;
    try (destruct (rd !! (Lock.prefix l +:+ k)); simpl);
    (split; [reflexivity|]; split; [reflexivity|]; split;
     [intros held Hh; try discriminate; injection Hh as <-; split; reflexivity
     |intros e He; try discriminate; reflexivity]).
Qed.

Lemma Release_tables (l : Lock.RedisLock) (w : World) :
  let r := Lock.Release l w in
  orders r.2 = orders w /\ nft_assets r.2 = nft_assets w.
Proof.
  unfold Lock.Release, Lock.Eval_release, bind, roundtrip, gets, modify, ret.
  destruct w as [rd rows n a m s]. destruct s as [|[msg|] s]; simpl; auto;
    (destruct (rd !! Lock.key l) as [[v t0]|]; simpl; auto;
     destruct (decide (v = Lock.value l)); simpl; auto).
Qed.

(** A handler followed by another runs as the two run one after the
    other. *)
Lemma run_pbind {A B : Type} (entropy : option (list Z)) (now : Z)
    (p : Prog A) (f : A -> Prog B) (s : Session) (w : World) :
  run entropy now (pbind p f) s w =
    (let r1 := run entropy now p s w in
     let r2 := run entropy now (f (answer r1.1)) (ends_in r1.1) r1.2 in
     ({| issued := issued r1.1 ++ issued r2.1;
         answer := answer r2.1;
         ends_in := ends_in r2.1 |}, r2.2)).
Proof.
  revert s w. induction p as [a|c k IH]; intros s w; simpl.
  - unfold ret. simpl. now destruct (run entropy now (f a) s w) as [[tr b s'] w'].
  - unfold bind, gets, ret. simpl.
    destruct (perform entropy now c s w) as [[x s1] w1]. simpl.
    rewrite IH. simpl.
    destruct (run entropy now (k x) s1 w1) as [[tr1 a s2] w2]. simpl.
    now destruct (run entropy now (f a) s2 w2) as [[tr2 b s3] w3].
Qed.

Section Run.
Variables (entropy : option (list Z)) (now : Z).

(** One step of a run, with the names of the store functions kept. *)
Ltac step H :=
  cbn [run pbind call perform fst snd issued answer ends_in] in H;
  unfold bind, gets, ret, modify in H;
  cbn [fst snd issued answer ends_in] in H.

Lemma restore_tables (tx : Tx) (w : World) :
  redis (restore tx w) = redis w
  /\ orders (restore tx w) = orders_at_begin tx
  /\ nft_assets (restore tx w) = assets_at_begin tx.
Proof. now destruct w. Qed.

Lemma companion_call_writes (o : t) (newStatus : OrderStatus) (buyer : string) :
  Forall (fun c => is_write c = true) (companion_call o newStatus buyer).
Proof.
  unfold companion_call.
  destruct (bool_decide (newStatus = OrderStatusSuccess));
    [|destruct (bool_decide (newStatus = OrderStatusCanceled))];
    repeat constructor.
Qed.

(** The companion change is one call of the asset store, or none; it
    leaves Redis, the orders and the transaction as they are. *)
Lemma run_assetTransition (existing : t) (newStatus : OrderStatus) (buyer : string)
    (s : Session) (w : World) :
  let r := run entropy now (assetTransition existing newStatus buyer) s w in
  made <$> issued r.1 = companion_call existing newStatus buyer
  /\ Forall (fun i => world i = w /\ session i = s) (issued r.1)
  /\ ends_in r.1 = s
  /\ redis r.2 = redis w /\ orders r.2 = orders w
  /\ (io w = [] ->
      answer r.1 = None /\ io r.2 = []
      /\ nft_assets r.2 = map (companion existing newStatus buyer) (nft_assets w)).
Proof.
  unfold assetTransition, companion_call, companion.
  destruct (bool_decide (newStatus = OrderStatusSuccess)) eqn:Es;
    [|destruct (bool_decide (newStatus = OrderStatusCanceled)) eqn:Ec].
  - cbn [run pbind call perform]. unfold bind, gets, ret.
    unfold NftAssetStore.UpdateOwnerByNFTTx, NftAssetStore.updateOwnerByNFT.
    match goal with
    | |- context [NftAssetStore.update ?P ?g w] =>
        pose proof (asset_update_frame P g w) as (H1 & H2);
        pose proof (AssetProps.update_healthy P g w) as Hh;
        destruct (NftAssetStore.update P g w) as [e w1]
    end.
    cbn [fst snd issued answer ends_in fmap list_fmap] in *.
    split; [reflexivity|]. split; [repeat constructor|]. split; [reflexivity|].
    split; [exact H1|]. split; [exact H2|].
    intros Hio. specialize (Hh Hio). injection Hh as -> ->.
    split; [reflexivity|]. split; now destruct w.
  - cbn [run pbind call perform]. unfold bind, gets, ret.
    unfold NftAssetStore.RestoreByNFTTx, NftAssetStore.restoreByNFT.
    match goal with
    | |- context [NftAssetStore.update ?P ?g w] =>
        pose proof (asset_update_frame P g w) as (H1 & H2);
        pose proof (AssetProps.update_healthy P g w) as Hh;
        destruct (NftAssetStore.update P g w) as [e w1]
    end.
    cbn [fst snd issued answer ends_in fmap list_fmap] in *.
    split; [reflexivity|]. split; [repeat constructor|]. split; [reflexivity|].
    split; [exact H1|]. split; [exact H2|].
    intros Hio. specialize (Hh Hio). injection Hh as -> ->.
    split; [reflexivity|]. split; now destruct w.
  - simpl. unfold ret. simpl. repeat split; auto.
    induction (nft_assets w) as [|x a IH]; simpl; [reflexivity|].
    rewrite <- IH. now destruct (NftAssetStore.is_nft _ _ x).
Qed.

Lemma run_transaction (l : Z) (newStatus : OrderStatus) (buyer txHash : string)
    (tx0 : Tx) (w1 : World) :
  orders_at_begin tx0 = orders w1 -> assets_at_begin tx0 = nft_assets w1 ->
  let r := run entropy now (transaction l newStatus buyer txHash) (Some tx0) w1 in
  (exists writes closing,
      made <$> issued r.1 = Orders_GetByIDForUpdateTx l :: writes ++ closing
      /\ Forall (fun c => is_write c = true) writes
      /\ (closing = [Tx_Rollback] \/ closing = [Tx_Commit]
          \/ closing = [Tx_Commit; Tx_Rollback]))
  /\ (forall o, answer r.1 = Updated o ->
        made <$> issued r.1
        = [Orders_GetByIDForUpdateTx l; Orders_UpsertTx o]
          ++ companion_call o newStatus buyer ++ [Tx_Commit])
  /\ (forall i, i ∈ issued r.1 -> redis (world i) = redis w1)
  /\ (forall i, i ∈ issued r.1 -> is_write (made i) = true \/ made i = Tx_Commit ->
        session i = Some (lock_row l tx0))
  /\ redis r.2 = redis w1
  /\ ((forall o, answer r.1 <> Updated o) ->
      orders r.2 = orders w1 /\ nft_assets r.2 = nft_assets w1)
  /\ (forall x x',
        find (has_listing l) (orders w1) = Some x ->
        find (has_listing l) (orders r.2) = Some x' ->
        flips_terminal (status x) (status x') = false)
  /\ ends_in r.1 = None
  /\ answer r.1 <> Retry.
Proof.
  intros Hbo Hba r.
  assert (Hr : r = run entropy now (transaction l newStatus buyer txHash) (Some tx0) w1)
    by reflexivity.
  clearbody r.
  (* what is left to show of a run once its calls and its end are known *)
  assert (Hleaf : forall (writes closing : list Call) (trace : list Issued)
                         (resp : Response) (w : World),
             r = ({| issued := trace; answer := resp; ends_in := None |}, w) ->
             made <$> trace = Orders_GetByIDForUpdateTx l :: writes ++ closing ->
             Forall (fun c => is_write c = true) writes ->
             closing = [Tx_Rollback] \/ closing = [Tx_Commit]
             \/ closing = [Tx_Commit; Tx_Rollback] ->
             Forall (fun i => redis (world i) = redis w1
                              /\ (is_write (made i) = true \/ made i = Tx_Commit ->
                                  session i = Some (lock_row l tx0))) trace ->
             redis w = redis w1 ->
             (forall o, resp = Updated o ->
                made <$> trace
                = [Orders_GetByIDForUpdateTx l; Orders_UpsertTx o]
                  ++ companion_call o newStatus buyer ++ [Tx_Commit]) ->
             ((forall o, resp <> Updated o) ->
              orders w = orders w1 /\ nft_assets w = nft_assets w1) ->
             (forall x x',
                find (has_listing l) (orders w1) = Some x ->
                find (has_listing l) (orders w) = Some x' ->
                flips_terminal (status x) (status x') = false) ->
             resp <> Retry ->
             (exists writes closing,
                 made <$> issued r.1 = Orders_GetByIDForUpdateTx l :: writes ++ closing
                 /\ Forall (fun c => is_write c = true) writes
                 /\ (closing = [Tx_Rollback] \/ closing = [Tx_Commit]
                     \/ closing = [Tx_Commit; Tx_Rollback]))
             /\ (forall o, answer r.1 = Updated o ->
                   made <$> issued r.1
                   = [Orders_GetByIDForUpdateTx l; Orders_UpsertTx o]
                     ++ companion_call o newStatus buyer ++ [Tx_Commit])
             /\ (forall i, i ∈ issued r.1 -> redis (world i) = redis w1)
             /\ (forall i, i ∈ issued r.1 ->
                   is_write (made i) = true \/ made i = Tx_Commit ->
                   session i = Some (lock_row l tx0))
             /\ redis r.2 = redis w1
             /\ ((forall o, answer r.1 <> Updated o) ->
                 orders r.2 = orders w1 /\ nft_assets r.2 = nft_assets w1)
             /\ (forall x x',
                   find (has_listing l) (orders w1) = Some x ->
                   find (has_listing l) (orders r.2) = Some x' ->
                   flips_terminal (status x) (status x') = false)
             /\ ends_in r.1 = None
             /\ answer r.1 <> Retry).
  { intros writes closing trace resp w -> Htrace Hwrites Hclosing Hall Hredis Hup Hno Hterm
      Hretry.
    cbn [fst snd issued answer ends_in]. rewrite Forall_forall in Hall.
    split; [exists writes, closing; auto|].
    split; [exact Hup|].
    split; [intros i Hi; now apply Hall|].
    split; [intros i Hi; now apply Hall|].
    auto. }
  (* a transaction that is rolled back *)
  assert (Hback : forall (resp : Response) (tx : Tx) (w : World),
             (forall o, resp <> Updated o) ->
             redis w = redis w1 ->
             orders_at_begin tx = orders w1 -> assets_at_begin tx = nft_assets w1 ->
             redis (restore tx w) = redis w1
             /\ (forall o, resp = Updated o ->
                 False)
             /\ ((forall o, resp <> Updated o) ->
                 orders (restore tx w) = orders w1
                 /\ nft_assets (restore tx w) = nft_assets w1)
             /\ (forall x x',
                   find (has_listing l) (orders w1) = Some x ->
                   find (has_listing l) (orders (restore tx w)) = Some x' ->
                   flips_terminal (status x) (status x') = false)).
  { intros resp tx w Hresp Hredis Hto Hta.
    destruct (restore_tables tx w) as (Hr1 & Hr2 & Hr3).
    split; [congruence|]. split; [intros o Ho; now elim (Hresp o)|].
    split; [intros _; split; congruence|].
    intros x x' Hx Hx'. rewrite Hr2, Hto, Hx in Hx'. injection Hx' as <-.
    apply flips_terminal_same. }
  unfold transaction in Hr. step Hr.
  unfold GetByIDForUpdateTx in Hr.
  pose proof (getOrderByID_cases l true w1) as (Hr2 & Ho2 & Ha2 & Hfound).
  destruct (getOrderByID l true w1) as [res w2]. simpl in Hr2, Ho2, Ha2, Hfound.
  step Hr.
  destruct res as [existing|err].
  2:{ assert (Herr : exists resp, (forall o, resp <> Updated o) /\ resp <> Retry /\
          r = ({| issued := [ {| made := Orders_GetByIDForUpdateTx l; world := w1;
                                 session := Some tx0 |};
                              {| made := Tx_Rollback; world := w2; session := Some tx0 |} ];
                  answer := resp; ends_in := None |}, restore tx0 w2)).
      { destruct err; step Hr; eexists;
          (split; [|split; [|exact Hr]]); try intros o; discriminate. }
      destruct Herr as (resp & Hresp & Hretry & Hr').
      destruct (Hback resp tx0 w2 Hresp Hr2 Hbo Hba) as (B1 & B2 & B3 & B4).
      refine (Hleaf [] [Tx_Rollback] _ resp _ Hr' _ _ _ _ B1 _ B3 B4 Hretry).
      - reflexivity.
      - constructor.
      - now left.
      - repeat constructor; simpl; auto; intros [?|?]; discriminate.
      - intros o Ho. now elim (Hresp o). }
  destruct (Hfound existing eq_refl) as (x0 & Hx0 & ->).
  destruct (flips_terminal (Status (scan x0)) newStatus) eqn:Hflip; step Hr.
  { destruct (Hback Conflict (lock_row l tx0) w2 ltac:(intros o; discriminate) Hr2 Hbo Hba)
      as (B1 & B2 & B3 & B4).
    refine (Hleaf [] [Tx_Rollback] _ Conflict _ Hr _ _ _ _ B1 _ B3 B4 ltac:(discriminate)).
    - reflexivity.
    - constructor.
    - now left.
    - repeat constructor; simpl; auto; intros [?|?]; discriminate.
    - intros o; discriminate. }
  set (o := transition (scan x0) newStatus buyer txHash) in *.
  destruct (transition_fields (scan x0) newStatus buyer txHash)
    as (Hl & Hnft & Htok & Hhash & Hst). fold o in Hl, Hnft, Htok, Hhash, Hst.
  assert (Hcc : companion_call (scan x0) newStatus buyer = companion_call o newStatus buyer).
  { unfold companion_call. now rewrite Hnft, Htok. }
  unfold UpsertTx in Hr.
  pose proof (upsertOrder_cases o w2) as (Hr3 & Ha3 & Hfail3 & Hok3).
  destruct (upsertOrder o w2) as [e3 w3]. simpl in Hr3, Ha3, Hfail3, Hok3.
  step Hr.
  destruct e3 as [err|]; step Hr.
  { destruct (Hback (Failed err) (lock_row l tx0) w3 ltac:(intros ?; discriminate)
                ltac:(congruence) Hbo Hba) as (B1 & B2 & B3 & B4).
    refine (Hleaf [Orders_UpsertTx o] [Tx_Rollback] _ (Failed err) _ Hr _ _ _ _ B1 _ B3 B4
              ltac:(discriminate)).
    - reflexivity.
    - repeat constructor.
    - now left.
    - repeat constructor; simpl; auto; try congruence; intros [?|?]; discriminate.
    - intros ?; discriminate. }
  rewrite run_pbind in Hr. cbn zeta in Hr.
  pose proof (run_assetTransition (scan x0) newStatus buyer (Some (lock_row l tx0)) w3)
    as (Hm4 & Hall4 & Hs4 & Hr4 & Ho4 & _).
  destruct (run entropy now (assetTransition (scan x0) newStatus buyer)
              (Some (lock_row l tx0)) w3) as [[tr4 e4 s4] w4].
  cbn [fst snd issued answer ends_in] in Hm4, Hall4, Hs4, Hr4, Ho4, Hr. subst s4.
  rewrite Hcc in Hm4.
  assert (Hall4' : Forall (fun i => redis (world i) = redis w1
                              /\ (is_write (made i) = true \/ made i = Tx_Commit ->
                                  session i = Some (lock_row l tx0))) tr4).
  { eapply Forall_impl; [exact Hall4|]. intros i [-> ->]. split; [congruence | auto]. }
  assert (Hhead : forall rest : list Issued,
             Forall (fun i => redis (world i) = redis w1
                              /\ (is_write (made i) = true \/ made i = Tx_Commit ->
                                  session i = Some (lock_row l tx0))) rest ->
             Forall (fun i => redis (world i) = redis w1
                              /\ (is_write (made i) = true \/ made i = Tx_Commit ->
                                  session i = Some (lock_row l tx0)))
               ({| made := Orders_GetByIDForUpdateTx l; world := w1; session := Some tx0 |}
                :: {| made := Orders_UpsertTx o; world := w2;
                      session := Some (lock_row l tx0) |} :: tr4 ++ rest)).
  { intros rest Hrest. constructor; [split; [reflexivity | intros [?|?]; discriminate]|].
    constructor; [split; [exact Hr2 | reflexivity]|].
    apply Forall_app; auto. }
  assert (Hcalls : forall rest : list Issued,
             made <$> ({| made := Orders_GetByIDForUpdateTx l; world := w1;
                          session := Some tx0 |}
                       :: {| made := Orders_UpsertTx o; world := w2;
                             session := Some (lock_row l tx0) |} :: tr4 ++ rest)
             = Orders_GetByIDForUpdateTx l
               :: (Orders_UpsertTx o :: companion_call o newStatus buyer)
                  ++ (made <$> rest)).
  { intros rest. cbn [fmap list_fmap]. rewrite fmap_app. fold (fmap made tr4).
    now rewrite Hm4. }
  assert (Hws : Forall (fun c => is_write c = true)
                  (Orders_UpsertTx o :: companion_call o newStatus buyer))
    by (constructor; [reflexivity | apply companion_call_writes]).
  destruct e4 as [err|]; step Hr.
  { destruct (Hback (Failed err) (lock_row l tx0) w4 ltac:(intros ?; discriminate)
                ltac:(congruence) Hbo Hba) as (B1 & B2 & B3 & B4).
    refine (Hleaf _ [Tx_Rollback] _ (Failed err) _ Hr (Hcalls _) Hws _ (Hhead _ _)
              B1 _ B3 B4 ltac:(discriminate)).
    - now left.
    - repeat constructor; simpl; try congruence; intros [?|?]; discriminate.
    - intros ?; discriminate. }
  pose proof (roundtrip_frame w4) as (Hr5 & Ho5 & Ha5).
  destruct (roundtrip w4) as [e5 w5]. simpl in Hr5, Ho5, Ha5.
  destruct e5 as [err|]; step Hr.
  { destruct (Hback (Failed err) (lock_row l tx0) w5 ltac:(intros ?; discriminate)
                ltac:(congruence) Hbo Hba) as (B1 & B2 & B3 & B4).
    refine (Hleaf _ [Tx_Commit; Tx_Rollback] _ (Failed err) _ Hr (Hcalls _) Hws _
              (Hhead _ _) B1 _ B3 B4 ltac:(discriminate)).
    - now right; right.
    - repeat constructor; simpl; try congruence; intros [?|?]; discriminate.
    - intros ?; discriminate. }
  refine (Hleaf _ [Tx_Commit] _ (Updated o) _ Hr (Hcalls _) Hws _ (Hhead _ _) _ _ _ _
            ltac:(discriminate)).
  - now right; left.
  - repeat constructor; simpl; congruence.
  - congruence.
  - intros o' [= <-]. exact (Hcalls [_]).
  - intros Hno. now elim (Hno o).
  - intros x x' Hx Hx'. rewrite Hx0 in Hx. injection Hx as <-.
    destruct (Hok3 eq_refl) as (w0 & Hw0 & Hu).
    pose proof (upsert_statement_found o w0 w3 x0) as Hfound2.
    pose proof (HandlerProps.find_has_listing l (orders w1) x0 Hx0) as Hlx.
    assert (Hlo : ListingID o = l) by (rewrite Hl; simpl; now rewrite Hlx).
    rewrite Hlo, Hw0, Ho2 in Hfound2. specialize (Hfound2 Hx0 Hu).
    rewrite Ho5, Ho4, Hfound2 in Hx'. injection Hx' as <-.
    change (status (assign o x0)) with (Status o). rewrite Hst. exact Hflip.
Qed.


Lemma getOrderByID_healthy (l : Z) (forUpdate : bool) (w : World) :
  io w = [] ->
  getOrderByID l forUpdate w =
    (match find (has_listing l) (orders w) with
     | Some r => Ok (scan r)
     | None => Err ErrNoRows
     end, w).
Proof.
  intros Hio. unfold getOrderByID, bind.
  rewrite (roundtrip_healthy _ Hio). unfold gets, ret.
  now destruct (find (has_listing l) (orders w)).
Qed.

(** The transaction on a connection that serves every call. *)
Lemma run_transaction_healthy (l : Z) (newStatus : OrderStatus) (buyer txHash : string)
    (tx0 : Tx) (w1 : World) :
  io w1 = [] ->
  let r := run entropy now (transaction l newStatus buyer txHash) (Some tx0) w1 in
  io r.2 = []
  /\ (find (has_listing l) (orders w1) = None -> answer r.1 = NotFound)
  /\ (forall x,
        find (has_listing l) (orders w1) = Some x ->
        (flips_terminal (status x) newStatus = true -> answer r.1 = Conflict)
        /\ (flips_terminal (status x) newStatus = false ->
            rest_lacks txHash l (orders w1) ->
            let o := transition (scan x) newStatus buyer txHash in
            answer r.1 = Updated o
            /\ find (has_listing l) (orders r.2) = Some (assign o x)
            /\ nft_assets r.2
               = map (companion (scan x) newStatus buyer) (nft_assets w1))).
Proof.
  intros Hio r.
  assert (Hr : r = run entropy now (transaction l newStatus buyer txHash) (Some tx0) w1)
    by reflexivity.
  clearbody r.
  assert (Hrio : forall tx w, io w = [] -> io (restore tx w) = []) by (intros tx []; auto).
  unfold transaction in Hr. step Hr. unfold GetByIDForUpdateTx in Hr.
  rewrite (getOrderByID_healthy _ _ _ Hio) in Hr.
  destruct (find (has_listing l) (orders w1)) as [x|] eqn:Hx; step Hr.
  2:{ subst r. cbn [fst snd issued answer ends_in].
      split; [now apply Hrio|]. split; [reflexivity | intros x; discriminate]. }
  destruct (flips_terminal (Status (scan x)) newStatus) eqn:Hflip; step Hr.
  { subst r. cbn [fst snd issued answer ends_in].
    split; [now apply Hrio|]. split; [discriminate|]. intros x1 [= <-].
    split; [reflexivity|]. simpl in Hflip. congruence. }
  set (o := transition (scan x) newStatus buyer txHash) in *.
  destruct (transition_fields (scan x) newStatus buyer txHash)
    as (Hl & Hnft & Htok & Hhash & Hst). fold o in Hl, Hnft, Htok, Hhash, Hst.
  pose proof (HandlerProps.find_has_listing l (orders w1) x Hx) as Hlx.
  assert (Hlo : ListingID o = l) by (rewrite Hl; simpl; now rewrite Hlx).
  unfold UpsertTx in Hr. fold (Upsert o) in Hr.
  rewrite (HandlerProps.Upsert_healthy _ _ Hio) in Hr.
  pose proof (upsert_statement_frame o w1) as (Hr3 & Ha3 & Hio3 & _ & Hfail3).
  destruct (upsert_statement o w1) as [e3 w3] eqn:Hu.
  simpl in Hr3, Ha3, Hio3, Hfail3.
  assert (Hio3' : io w3 = []) by congruence.
  destruct e3 as [err|]; step Hr.
  { subst r. cbn [fst snd issued answer ends_in].
    split; [now apply Hrio|]. split; [discriminate|]. intros x1 [= <-].
    split; [simpl in Hflip; congruence|]. intros _ Hlack.
    destruct (upsert_statement_ok o w1) as (w1' & Hu' & _);
      [now rewrite Hlo, Hhash | congruence]. }
  rewrite run_pbind in Hr. cbn zeta in Hr.
  pose proof (run_assetTransition (scan x) newStatus buyer (Some (lock_row l tx0)) w3)
    as (_ & _ & Hs4 & _ & Ho4 & Hh4).
  destruct (Hh4 Hio3') as (He4 & Hio4 & Ha4). clear Hh4.
  destruct (run entropy now (assetTransition (scan x) newStatus buyer)
              (Some (lock_row l tx0)) w3) as [[tr4 e4 s4] w4].
  cbn [fst snd issued answer ends_in] in Hs4, Ho4, He4, Hio4, Ha4, Hr. subst s4 e4.
  step Hr. rewrite (roundtrip_healthy _ Hio4) in Hr. step Hr.
  subst r. cbn [fst snd issued answer ends_in].
  split; [exact Hio4|]. split; [discriminate|]. intros x1 [= <-].
  split; [simpl in Hflip; congruence|]. intros _ Hlack.
  split; [reflexivity|]. split.
  - rewrite Ho4. pose proof (upsert_statement_found o w1 w3 x) as Hf.
    rewrite Hlo in Hf. exact (Hf Hx Hu).
  - now rewrite Ha4, Ha3.
Qed.

(** The handler, whatever the connections do: the order of its calls,
    the lock around the transaction, the one transaction with the row of
    the order locked, and what it leaves of the tables. *)
Lemma updateOrderStatus_calls (ttl listingID : Z) (newStatus : OrderStatus)
    (buyer txHash : string) (w : World) :
  let k := "nft_market:order:" +:+ pretty listingID in
  let held := {| Lock.key := k; Lock.value := Lock.randomLockValue entropy now |} in
  let acquire := Lock_Acquire (pretty listingID) ttl in
  let r := run entropy now (updateOrderStatus ttl listingID newStatus buyer txHash)
             None w in
  (made <$> issued r.1 = [acquire]
   \/ exists mid,
        made <$> issued r.1 = acquire :: DB_BeginTx :: mid ++ [Lock_Release held]
        /\ (mid = []
            \/ exists writes closing,
                 mid = Orders_GetByIDForUpdateTx listingID :: writes ++ closing
                 /\ Forall (fun c => is_write c = true) writes
                 /\ (closing = [Tx_Rollback] \/ closing = [Tx_Commit]
                     \/ closing = [Tx_Commit; Tx_Rollback])))
  /\ (forall o, answer r.1 = Updated o ->
        made <$> issued r.1
        = [acquire; DB_BeginTx; Orders_GetByIDForUpdateTx listingID; Orders_UpsertTx o]
          ++ companion_call o newStatus buyer ++ [Tx_Commit; Lock_Release held])
  /\ (answer r.1 = Retry -> made <$> issued r.1 = [acquire])
  /\ (forall i, i ∈ issued r.1 -> made i <> acquire ->
        redis (world i) !! k = Some (Lock.value held, ttl))
  /\ (forall i, i ∈ issued r.1 -> is_write (made i) = true \/ made i = Tx_Commit ->
        session i = Some {| orders_at_begin := orders w;
                            assets_at_begin := nft_assets w;
                            locked := [listingID] |})
  /\ ends_in r.1 = None
  /\ ((forall o, answer r.1 <> Updated o) ->
      orders r.2 = orders w /\ nft_assets r.2 = nft_assets w)
  /\ (forall x x',
        find (has_listing listingID) (orders w) = Some x ->
        find (has_listing listingID) (orders r.2) = Some x' ->
        flips_terminal (status x) (status x') = false).
Proof.
  intros k held acquire r.
  assert (Hr : r = run entropy now (updateOrderStatus ttl listingID newStatus buyer txHash)
                     None w) by reflexivity.
  clearbody r.
  assert (Hkeep : forall (w' : World) x x',
             orders w' = orders w ->
             find (has_listing listingID) (orders w) = Some x ->
             find (has_listing listingID) (orders w') = Some x' ->
             flips_terminal (status x) (status x') = false).
  { intros w' x x' Ho Hx Hx'. rewrite Ho, Hx in Hx'. injection Hx' as <-.
    apply flips_terminal_same. }
  unfold updateOrderStatus in Hr. step Hr.
  pose proof (Acquire_cases orderLocker entropy now (pretty listingID) ttl w)
    as (Ho1 & Ha1 & Hok1 & Herr1).
  destruct (Lock.Acquire orderLocker entropy now (pretty listingID) ttl w) as [res w1].
  simpl in Ho1, Ha1, Hok1, Herr1.
  destruct res as [h|err].
  2:{ assert (Herr : exists resp, (forall o, resp <> Updated o) /\
          r = ({| issued := [ {| made := acquire; world := w; session := None |} ];
                  answer := resp; ends_in := None |}, w1)).
      { destruct err; step Hr; eexists; (split; [|exact Hr]); intros o; discriminate. }
      destruct Herr as (resp & Hresp & ->). cbn [fst snd issued answer ends_in].
      split; [now left|]. split; [intros o Ho; now elim (Hresp o)|].
      split; [reflexivity|].
      split; [intros i Hi%list_elem_of_singleton Hne; now subst i|].
      split; [intros i Hi%list_elem_of_singleton [Hw|Hc]; subst i; discriminate|].
      split; [reflexivity|]. split; [auto|]. intros x x'. now apply Hkeep. }
  destruct (Hok1 h eq_refl) as (Hh & Hredis1).
  change (Lock.prefix orderLocker +:+ pretty listingID) with k in Hh, Hredis1.
  fold held in Hh. subst h.
  assert (Hlock1 : redis w1 !! k = Some (Lock.value held, ttl))
    by (rewrite Hredis1; apply lookup_insert_eq).
  step Hr.
  pose proof (roundtrip_frame w1) as (Hr2 & Ho2 & Ha2).
  destruct (roundtrip w1) as [e2 w2]. simpl in Hr2, Ho2, Ha2.
  destruct e2 as [err|]; step Hr.
  { match type of Hr with
    | context [Lock.Release ?h w2] =>
        pose proof (Release_tables h w2) as (Ho3 & Ha3);
        destruct (Lock.Release h w2) as [e3 w3]
    end.
    simpl in Ho3, Ha3. step Hr.
    subst r. cbn [fst snd issued answer ends_in].
    split; [right; exists []; split; [reflexivity | now left]|].
    split; [intros o; discriminate|]. split; [discriminate|].
    split.
    { intros i Hi Hne.
      repeat (apply elem_of_cons in Hi as [->|Hi]); [| | |now apply elem_of_nil in Hi].
      - exfalso. apply Hne. reflexivity.
      - exact Hlock1.
      - cbn [world]. rewrite Hr2. exact Hlock1. }
    split.
    { intros i Hi Hw.
      repeat (apply elem_of_cons in Hi as [->|Hi]); [| | |now apply elem_of_nil in Hi];
        destruct Hw; discriminate. }
    split; [reflexivity|]. split; [intros _; split; congruence|].
    intros x x'. apply Hkeep. congruence. }
  rewrite run_pbind in Hr. cbn zeta in Hr.
  set (tx0 := {| orders_at_begin := orders w2; assets_at_begin := nft_assets w2;
                 locked := [] |}) in *.
  pose proof (run_transaction listingID newStatus buyer txHash tx0 w2 eq_refl eq_refl)
    as (T1 & T2 & T3 & T4 & T5 & T6 & T7 & T8 & T9).
  destruct (run entropy now (transaction listingID newStatus buyer txHash) (Some tx0) w2)
    as [[tr resp s3] w3].
  cbn [fst snd issued answer ends_in] in T1, T2, T3, T4, T5, T6, T7, T8, T9, Hr. subst s3.
  step Hr.
  match type of Hr with
  | context [Lock.Release ?h w3] =>
      pose proof (Release_tables h w3) as (Ho4 & Ha4);
      destruct (Lock.Release h w3) as [e4 w4]
  end.
  simpl in Ho4, Ha4. step Hr.
  subst r. cbn [fst snd issued answer ends_in fmap list_fmap].
  rewrite fmap_app. fold (fmap made tr). cbn [fmap list_fmap].
  split.
  { right. exists (made <$> tr). split; [reflexivity|]. right. exact T1. }
  split.
  { intros o Ho. rewrite (T2 o Ho). cbn [app]. f_equal. f_equal. f_equal. f_equal.
    now rewrite <- !app_assoc. }
  split.
  { intros Hretry. now elim T9. }
  assert (Hlock2 : redis w2 !! k = Some (Lock.value held, ttl)) by now rewrite Hr2.
  split.
  { intros i Hi Hne.
    apply elem_of_cons in Hi as [->|Hi]; [exfalso; apply Hne; reflexivity|].
    apply elem_of_cons in Hi as [->|Hi]; [exact Hlock1|].
    apply elem_of_app in Hi as [Hi|Hi].
    - rewrite (T3 i Hi). exact Hlock2.
    - apply list_elem_of_singleton in Hi as ->. cbn [world]. rewrite T5. exact Hlock2. }
  split.
  { intros i Hi Hw.
    apply elem_of_cons in Hi as [->|Hi]; [destruct Hw; discriminate|].
    apply elem_of_cons in Hi as [->|Hi]; [destruct Hw; discriminate|].
    apply elem_of_app in Hi as [Hi|Hi].
    - rewrite (T4 i Hi Hw). unfold lock_row, tx0. cbn [orders_at_begin assets_at_begin locked].
      now rewrite Ho2, Ho1, Ha2, Ha1.
    - apply list_elem_of_singleton in Hi as ->. destruct Hw; discriminate. }
  split; [reflexivity|].
  split.
  { intros Hno. destruct (T6 Hno) as [E1 E2]. split; congruence. }
  intros x x' Hx Hx'. apply (T7 x x'); congruence.
Qed.

(** With the lock of the listing id held by another caller, the handler
    makes the one round trip of [Acquire] and tells its caller to retry. *)
Lemma updateOrderStatus_retry (ttl listingID : Z) (newStatus : OrderStatus)
    (buyer txHash : string) (w : World) :
  let k := "nft_market:order:" +:+ pretty listingID in
  let r := run entropy now (updateOrderStatus ttl listingID newStatus buyer txHash)
             None w in
  hd None (io w) = None -> redis w !! k <> None ->
  answer r.1 = Retry /\ r.2 = set_io (tl (io w)) w.
Proof.
  intros k r Hio Hheld.
  assert (Hr : r = run entropy now (updateOrderStatus ttl listingID newStatus buyer txHash)
                     None w) by reflexivity.
  clearbody r. unfold updateOrderStatus in Hr. step Hr.
  rewrite (LockProps.Acquire_served _ _ _ _ _ _ Hio) in Hr.
  change (Lock.prefix orderLocker +:+ pretty listingID) with k in Hr.
  destruct (redis w !! k); [|contradiction]. step Hr. now subst r.
Qed.

(** With the lock free and every call served. *)
Lemma updateOrderStatus_healthy (ttl listingID : Z) (newStatus : OrderStatus)
    (buyer txHash : string) (w : World) :
  let k := "nft_market:order:" +:+ pretty listingID in
  let r := run entropy now (updateOrderStatus ttl listingID newStatus buyer txHash)
             None w in
  io w = [] -> redis w !! k = None ->
  redis r.2 = redis w
  /\ (find (has_listing listingID) (orders w) = None -> answer r.1 = NotFound)
  /\ (forall x,
        find (has_listing listingID) (orders w) = Some x ->
        (flips_terminal (status x) newStatus = true -> answer r.1 = Conflict)
        /\ (flips_terminal (status x) newStatus = false ->
            rest_lacks txHash listingID (orders w) ->
            let o := transition (scan x) newStatus buyer txHash in
            answer r.1 = Updated o
            /\ find (has_listing listingID) (orders r.2) = Some (assign o x)
            /\ nft_assets r.2
               = map (companion (scan x) newStatus buyer) (nft_assets w))).
Proof.
  intros k r Hio Hfree.
  assert (Hr : r = run entropy now (updateOrderStatus ttl listingID newStatus buyer txHash)
                     None w) by reflexivity.
  clearbody r. unfold updateOrderStatus in Hr. step Hr.
  rewrite (LockProps.Acquire_served _ _ _ _ _ w) in Hr by (now rewrite Hio).
  change (Lock.prefix orderLocker +:+ pretty listingID) with k in Hr.
  rewrite Hfree in Hr. step Hr.
  set (v := Lock.randomLockValue entropy now) in *.
  set (w1 := set_redis (<[k:=(v, ttl)]> (redis w)) (set_io (tl (io w)) w)) in *.
  assert (Hio1 : io w1 = []) by (subst w1; destruct w; simpl in *; now subst).
  assert (Ho1 : orders w1 = orders w) by (subst w1; now destruct w).
  assert (Ha1 : nft_assets w1 = nft_assets w) by (subst w1; now destruct w).
  assert (Hr1 : redis w1 = <[k:=(v, ttl)]> (redis w)) by (subst w1; now destruct w).
  rewrite (roundtrip_healthy _ Hio1) in Hr. step Hr.
  rewrite run_pbind in Hr. cbn zeta in Hr.
  set (tx0 := {| orders_at_begin := orders w1; assets_at_begin := nft_assets w1;
                 locked := [] |}) in *.
  pose proof (run_transaction listingID newStatus buyer txHash tx0 w1 eq_refl eq_refl)
    as (_ & _ & _ & _ & T5 & _).
  pose proof (run_transaction_healthy listingID newStatus buyer txHash tx0 w1 Hio1)
    as (Hio3 & Hnone & Hsome).
  destruct (run entropy now (transaction listingID newStatus buyer txHash) (Some tx0) w1)
    as [[tr resp s3] w3].
  cbn [fst snd issued answer ends_in] in T5, Hio3, Hnone, Hsome, Hr.
  step Hr. rewrite (LockProps.Release_healthy _ _ Hio3) in Hr. step Hr.
  assert (Hcur : Lock.current k w3 = Some v).
  { unfold Lock.current. rewrite T5, Hr1. now rewrite lookup_insert_eq. }
  cbn [Lock.key Lock.value] in Hr.
  destruct (decide (Lock.current k w3 = Some v)) as [_|Hne]; [|contradiction].
  subst r. cbn [fst snd issued answer ends_in].
  rewrite Ho1 in Hnone, Hsome. rewrite Ha1 in Hsome.
  split; [|split; [exact Hnone|]].
  - replace (redis (set_redis (delete k (redis w3)) w3)) with (delete k (redis w3))
      by now destruct w3.
    rewrite T5, Hr1. apply delete_insert_id. exact Hfree.
  - intros x Hx. destruct (Hsome x Hx) as [Hc Hu]. split; [exact Hc|].
    intros Hflip Hlack. destruct (Hu Hflip Hlack) as (H1 & H2 & H3).
    repeat split; [exact H1 | now destruct w3 | now destruct w3].
Qed.


End Run.
End ApiProps.

(** ** The HTTP layer: parsing, configuration, upload and routes *)

Module ServerProps.
Import Stdlib.Strings.Ascii.
Import Strconv Server.

Lemma digit_range (a : Ascii.ascii) (d : Z) : digit a = Some d -> 0 <= d <= 9.
Proof.
  unfold digit. destruct (Z.leb_spec 48 (Z.of_N (Ascii.N_of_ascii a)));
    destruct (Z.leb_spec (Z.of_N (Ascii.N_of_ascii a)) 57); simpl;
    intros [= <-]; lia.
Qed.

Lemma digits_ge (s : string) (acc z : Z) : 0 <= acc -> digits acc s = Some z -> acc <= z.
Proof.
  revert acc. induction s as [|a s IH]; simpl; intros acc Hacc.
  - intros [= <-]. lia.
  - destruct (digit a) as [d|] eqn:Ed; [|discriminate].
    apply digit_range in Ed. intros Hz. apply IH in Hz; lia.
Qed.

Lemma digit_pretty (x : N) : (x < 10)%N -> digit (pretty_N_char x) = Some (Z.of_N x).
Proof.
  intros Hx.
  assert (x = 0 \/ x = 1 \/ x = 2 \/ x = 3 \/ x = 4 \/ x = 5 \/ x = 6 \/ x = 7
          \/ x = 8 \/ x = 9)%N as Hc by lia.
  repeat destruct Hc as [->|Hc]; try subst x; reflexivity.
Qed.

(** The digits [pretty] writes for [x] read back as [x]. *)
Lemma digits_pretty_N_go (x : N) (s : string) :
  exists k, forall acc, digits acc (pretty_N_go x s) = digits (acc * k + Z.of_N x) s.
Proof.
  revert s. induction (N.lt_wf_0 x) as [x _ IH]; intros s.
  assert (x = 0 \/ 0 < x)%N as [->|Hpos] by lia.
  - exists 1. intros acc. rewrite pretty_N_go_0. f_equal. lia.
  - destruct (IH (x `div` 10)%N (N.div_lt x 10 Hpos eq_refl)
                (String (pretty_N_char (x `mod` 10)) s)) as [k Hk].
    exists (k * 10). intros acc. rewrite pretty_N_go_step by exact Hpos.
    rewrite Hk. simpl. rewrite digit_pretty by (apply N.mod_lt; lia).
    f_equal. rewrite N2Z.inj_div, N2Z.inj_mod.
    pose proof (Z.div_mod (Z.of_N x) 10). change (Z.of_N 10) with 10. lia.
Qed.

Lemma digits_pretty_pos (p : positive) :
  digits 0 (pretty (N.pos p)) = Some (Z.pos p) /\ pretty (N.pos p) <> "".
Proof.
  unfold pretty, pretty_N. rewrite decide_False by discriminate.
  destruct (digits_pretty_N_go (N.pos p) "") as [k Hk].
  assert (Hd : digits 0 (pretty_N_go (N.pos p) "") = Some (Z.pos p))
    by (rewrite Hk; simpl; f_equal; lia).
  split; [exact Hd|]. intros He. rewrite He in Hd. discriminate.
Qed.

Lemma sign_not_digit (a : Ascii.ascii) (d : Z) :
  digit a = Some d -> a <> "-"%char /\ a <> "+"%char.
Proof. split; intros ->; discriminate. Qed.

Lemma ParseInt_pos (s : string) (z : Z) :
  s <> "" -> digits 0 s = Some z -> z < 2 ^ 63 -> ParseInt s = Some z.
Proof.
  intros Hne Hd Hz. unfold ParseInt. destruct s as [|a rest]; [contradiction|].
  assert (Ha : a <> "-"%char /\ a <> "+"%char).
  { simpl in Hd. destruct (digit a) as [d|] eqn:Ed; [|discriminate].
    now apply sign_not_digit in Ed. }
  destruct Ha as [H1 H2].
  rewrite (bool_decide_eq_false_2 _ H1), (bool_decide_eq_false_2 _ H2). simpl orb.
  cbv iota. rewrite Hd.
  destruct (Z.geb_spec z (2 ^ 63)); [lia | reflexivity].
Qed.

Lemma ParseInt_range (s : string) (z : Z) :
  ParseInt s = Some z -> - 2 ^ 63 <= z < 2 ^ 63 /\ s <> "".
Proof.
  unfold ParseInt. destruct s as [|a rest]; [discriminate|].
  intros Hp. split; [|discriminate].
  destruct (if bool_decide (a = "-"%char) || bool_decide (a = "+"%char)
            then rest else String a rest) as [|b body] eqn:Eb; [discriminate|].
  destruct (digits 0 (String b body)) as [un|] eqn:Ed; [|discriminate].
  apply digits_ge in Ed; [|lia].
  destruct (bool_decide (a = "-"%char)).
  - destruct (Z.gtb_spec un (2 ^ 63)); [discriminate|]. injection Hp as <-. lia.
  - destruct (Z.geb_spec un (2 ^ 63)); [discriminate|]. injection Hp as <-. lia.
Qed.

Lemma ParseInt_of_pretty (z : Z) :
  - 2 ^ 63 <= z < 2 ^ 63 -> ParseInt (pretty z) = Some z.
Proof.
  intros Hz. destruct z as [|p|p].
  - reflexivity.
  - destruct (digits_pretty_pos p) as [Hd Hne].
    apply ParseInt_pos; [exact Hne | exact Hd | lia].
  - destruct (digits_pretty_pos p) as [Hd Hne].
    change (pretty (Z.neg p)) with (String "-"%char (pretty (N.pos p))).
    unfold ParseInt. rewrite bool_decide_eq_true_2 by reflexivity. simpl orb.
    cbv iota. destruct (pretty (N.pos p)) as [|b body] eqn:Ep; [contradiction|].
    rewrite Hd. destruct (Z.gtb_spec (Z.pos p) (2 ^ 63)); [lia | reflexivity].
Qed.

Lemma override_first_set (env : gmap string string) (k field : string) :
  override env k field = first_set [Getenv env k; field].
Proof.
  unfold override, first_set. rewrite !filter_cons, filter_nil.
  repeat case_decide; simpl; try reflexivity; congruence.
Qed.

(** Where the configuration comes from.  A config.yaml that does not
    decode stops [loadConfig], whatever the environment holds.  Otherwise
    every string setting is the environment variable when that is set and
    not empty, and the value of the file if not; the RPC URL of the file
    is that of the [blockchain] section, or of the [bsc] section when the
    former is empty; the chain id comes from the file alone.  The only
    setting that must be there is the RPC URL. *)
Theorem loadConfig_precedence (file : option (configError + yamlConfig))
    (env : gmap string string) :
  match file with
  | Some (inl err) => loadConfig file env = inl err
  | _ =>
      let yc := file ≫= (fun f => match f with inr yc => Some yc | inl _ => None end) in
      let yaml (field : yamlConfig -> string) := from_option field "" yc in
      let rpc := first_set [Getenv env "BSC_TESTNET_RPC_URL";
                            yaml Blockchain_RPCURL; yaml BSC_RPCURL] in
      match loadConfig file env with
      | inl err => err = ErrMissingRPCURL /\ rpc = ""
      | inr cfg =>
          rpc <> ""
          /\ cfg =
             {| RPCURL := rpc;
                ChainID := from_option Blockchain_ChainID 0 yc;
                MarketplaceAddress :=
                  first_set [Getenv env "NFT_MARKETPLACE_ADDRESS"; yaml Contracts_Marketplace];
                ProjectNFTAddress :=
                  first_set [Getenv env "PROJECT_NFT_ADDRESS"; yaml Contracts_ProjectNFT];
                Project1155Address :=
                  first_set [Getenv env "PROJECT_1155_ADDRESS"; yaml Contracts_Project1155];
                MySQLDSN := first_set [Getenv env "MYSQL_DSN"; yaml MySQL_DSN];
                PinataAPIURL := first_set [Getenv env "PINATA_API_URL"; yaml IPFS_APIURL];
                PinataGatewayURL :=
                  first_set [Getenv env "PINATA_GATEWAY_URL"; yaml IPFS_GatewayURL];
                PinataAPIKey := first_set [Getenv env "PINATA_API_KEY"; yaml IPFS_APIKey];
                PinataSecretAPIKey :=
                  first_set [Getenv env "PINATA_SECRET_API_KEY"; yaml IPFS_SecretAPIKey];
                HTTPAddr := first_set [Getenv env "HTTP_ADDR"; yaml Server_Addr] |}
      end
  end.
Proof.
  assert (Hrpc : forall a b c : string,
             first_set [a; if decide (b = "") then c else b] = first_set [a; b; c]).
  { intros a b c. unfold first_set. rewrite !filter_cons, filter_nil.
    repeat case_decide; simpl; try reflexivity; congruence. }
  destruct file as [[err|yc]|]; [reflexivity | |]; unfold loadConfig; simpl;
    rewrite !override_first_set.
  - rewrite Hrpc. case_decide as Hd; [auto|]. split; [exact Hd | reflexivity].
  - change (first_set [Getenv env "BSC_TESTNET_RPC_URL"; ""])
      with (first_set [Getenv env "BSC_TESTNET_RPC_URL"; if decide ("" = "") then "" else ""]).
    rewrite Hrpc. case_decide as Hd; [auto|]. split; [exact Hd | reflexivity].
Qed.

Lemma Int64_range (z : Z) : - 2 ^ 63 <= Int64 z < 2 ^ 63.
Proof.
  unfold Int64. pose proof (Z.mod_pos_bound (z + 2 ^ 63) (2 ^ 64)). lia.
Qed.

Section Routes.
Context `{Chain.EthCodec} (s : Chain.MarketplaceScanner).

(** From the chain to the API.  Before a listing is known,
    GET /orders/:listingId answers 404 for it.  Once the scanner has
    handled its Listed log, on a connection that serves every call and
    with a transaction hash no other row carries, the route answers 200
    with the order as the log gives it, under the key of its row. *)
Theorem getOrder_after_Listed (lg : Chain.Log) (w : World) (tokenId amount price : Z) :
  io w = [] -> (4 <= length (Chain.Topics lg))%nat ->
  Chain.UnpackListed (Chain.abi s) (Chain.Data lg) = Ok (tokenId, amount, price) ->
  let l := Int64 (Chain.topic lg 1) in
  let h := Chain.Hash_Hex (Chain.TxHash lg) in
  let o := Chain.listed_order l
             (Chain.Address_Hex (Chain.HexToAddress (Chain.topic lg 2)))
             (Chain.Address_Hex (Chain.HexToAddress (Chain.topic lg 3)))
             (Int64 tokenId) (Int64 amount) (pretty price) h in
  OrderStore.rest_lacks h l (orders w) ->
  let w1 := (Chain.handleListed s lg w).2 in
  (find (OrderStore.has_listing l) (orders w) = None ->
   getOrder (pretty l) w = (JSON 404 (H "error" "not found"), w))
  /\ getOrder (pretty l) w1
     = (JSON 200
          (OrderJSON
             (OrderStore.with_OrderID
                (match find (OrderStore.has_listing l) (orders w) with
                 | Some r => Order.order_id r
                 | None => next_order_id w
                 end) o)), w1).
Proof.
  intros Hio Hlen Hun l h o Hlack w1.
  assert (Hp : ParseInt (pretty l) = Some l) by apply ParseInt_of_pretty, Int64_range.
  unfold getOrder. rewrite Hp. unfold bind. split.
  - intros Hnone. rewrite (HandlerProps.GetByID_healthy l w Hio), Hnone. reflexivity.
  - destruct (HandlerProps.handleListed_writes s lg w tokenId amount price
                Hio Hlen Hun Hlack) as (w' & Hh & Hf & Hio' & _).
    unfold w1. rewrite Hh. simpl.
    rewrite (HandlerProps.GetByID_healthy l w' Hio'). fold l h o in Hf. rewrite Hf.
    unfold ret. f_equal. f_equal. f_equal.
    destruct (find (OrderStore.has_listing l) (orders w)) as [r|] eqn:Er; simpl.
    + apply OrderProps.scan_found. now apply OrderProps.find_has_listing_true in Er.
    + reflexivity.
Qed.

End Routes.

(** The answers of POST /assets/:id/mint-info.  With an id that parses
    and on a connection that serves every call: a token id that is not
    positive or an empty contract address is refused with 400 before the
    store is called.  Otherwise an undeleted asset comes back with the
    token id and address of the request and its amount, 1 when that is
    not positive; a soft-deleted asset comes back unchanged, with 200 all
    the same; and an id no asset has gives 500, not 404, with nothing
    written. *)
Theorem postMintInfo_outcomes (idStr : string) (i : Z) (req : MintInfo) (w : World) :
  io w = [] -> ParseInt idStr = Some i ->
  let r := postMintInfo idStr (Some req) w in
  if (TokenID req <=? 0) || bool_decide (NFTAddress req = "")
  then r = (JSON 400 (H "error" "token_id and nft_address are required"), w)
  else match find (fun x => bool_decide (NftAsset.id x = i)) (nft_assets w) with
       | None => r = (JSON 500 (H "error" "db query failed"), w)
       | Some x =>
           r.1 = JSON 200
                   (AssetJSON
                      (if decide (NftAsset.deleted x = 0)
                       then NftAsset.mk i (NftAsset.name x) (NftAsset.owner x)
                              (NftAsset.cid x) (NftAsset.url x)
                              (TokenID req) (NFTAddress req)
                              (if Amount req <=? 0 then 1 else Amount req) 0
                       else NftAssetStore.scan x))
       end.
Proof.
  intros Hio Hp r. unfold r, postMintInfo. rewrite Hp.
  destruct ((TokenID req <=? 0) || bool_decide (NFTAddress req = "")); [reflexivity|].
  unfold bind.
  destruct (AssetProps.UpdateMintInfo_read_back i (TokenID req) (NFTAddress req)
              (if Amount req <=? 0 then 1 else Amount req) w Hio) as [He Hg].
  destruct (NftAssetStore.UpdateMintInfo i (TokenID req) (NFTAddress req)
              (if Amount req <=? 0 then 1 else Amount req) w) as [e w1].
  simpl in He, Hg. subst e.
  destruct (find (fun x => bool_decide (NftAsset.id x = i)) (nft_assets w)) as [x|].
  - rewrite Hg. reflexivity.
  - destruct Hg as [-> Hg]. rewrite Hg. reflexivity.
Qed.

(** An upload and the reads after it.  With owner and name given, a file
    that opens and an upload that succeeds, on a connection that serves
    every call, POST /assets answers 200 with the new asset: the key the
    table assigns, the CID and URL of the upload, and no token id, address
    or amount.  GET /assets/:id then returns this asset; GET
    /assets/by-nft never does, whatever address and token id it is asked
    for. *)
Theorem postAsset_getAsset (c : Ipfs.PinataClient) (owner name filename : string)
    (x : Ipfs.Exchange) (res : Ipfs.UploadResult) (w : World) :
  io w = [] ->
  Forall (fun r => NftAsset.id r < next_asset_id w) (nft_assets w) ->
  - 2 ^ 63 <= next_asset_id w < 2 ^ 63 ->
  owner <> "" -> name <> "" ->
  Ipfs.UploadFile c filename x = Ok res ->
  let a := NftAsset.mk (next_asset_id w) name owner (Ipfs.CID res) (Ipfs.URL res)
             0 "" 0 0 in
  let p := postAsset c owner name (Ok filename) None x w in
  p.1 = JSON 200 (AssetJSON a)
  /\ getAsset (pretty (next_asset_id w)) p.2 = (JSON 200 (AssetJSON a), p.2)
  /\ (forall nftAddr tokenIDStr b,
        (getAssetByNFT nftAddr tokenIDStr p.2).1 = JSON 200 (AssetJSON b) ->
        NftAsset.ID b < next_asset_id w).
Proof.
  intros Hio Hall Hn Ho Hnm Hup a p.
  set (asset := NftAsset.mk 0 name owner (Ipfs.CID res) (Ipfs.URL res) 0 "" 0 0).
  assert (Hp : p = (JSON 200 (AssetJSON a),
                    set_next_asset_id (next_asset_id w + 1)
                      (set_nft_assets
                         (nft_assets w ++ [NftAssetStore.stored (next_asset_id w) asset])
                         w))).
  { unfold p, postAsset.
    rewrite (bool_decide_eq_false_2 _ Ho), (bool_decide_eq_false_2 _ Hnm).
    change (false || false) with false. cbv beta iota.
    rewrite Hup. unfold bind, NftAssetStore.Insert, bind.
    rewrite (roundtrip_healthy _ Hio). reflexivity. }
  rewrite Hp. simpl. split; [reflexivity|].
  assert (Hio' : forall rows m, io (set_next_asset_id m (set_nft_assets rows w)) = [])
    by (intros; now destruct w).
  assert (Hrows : forall rows m,
             nft_assets (set_next_asset_id m (set_nft_assets rows w)) = rows)
    by (intros; now destruct w).
  split.
  - unfold getAsset. rewrite (ParseInt_of_pretty _ Hn). unfold bind.
    rewrite AssetProps.asset_GetByID_healthy by apply Hio'. rewrite Hrows.
    rewrite (AssetProps.find_id_fresh (next_asset_id w) (nft_assets w)
               (NftAssetStore.stored (next_asset_id w) asset) Hall eq_refl).
    now rewrite AssetProps.scan_stored.
  - intros nftAddr tokenIDStr b. unfold getAssetByNFT.
    destruct (bool_decide (nftAddr = "") || bool_decide (tokenIDStr = ""));
      [discriminate|].
    destruct (ParseInt tokenIDStr) as [tokenID|]; [|discriminate].
    unfold bind. rewrite AssetProps.GetByNFT_healthy by apply Hio'. rewrite Hrows.
    rewrite find_app_last.
    destruct (find (NftAssetStore.is_nft nftAddr tokenID) (nft_assets w)) as [r|] eqn:Ef.
    + simpl. intros [= <-]. apply find_some in Ef as [Hin _].
      apply list_elem_of_In in Hin. rewrite Forall_forall in Hall.
      exact (Hall r Hin).
    + simpl. discriminate.
Qed.

(** The two list routes.  On a connection that serves every call, and
    whatever the order is in which the server hands rows out,
    GET /orders answers 200 with no more than 50 orders, none of them
    deleted, and GET /assets answers 200 with no more than 50 assets, all
    of the owner asked for and none of them deleted.  Without an owner
    GET /assets answers 400 and makes no call to the store. *)
Theorem list_routes_select
    (recent_orders : list Order.row -> list Order.row)
    (recent_assets : list NftAsset.row -> list NftAsset.row)
    (owner : string) (w : World) :
  (forall rows, recent_orders rows ≡ₚ rows) ->
  (forall rows, recent_assets rows ≡ₚ rows) ->
  io w = [] ->
  (exists l, getOrders recent_orders w = (JSON 200 (OrdersJSON l), w)
             /\ (length l <= 50)%nat
             /\ Forall (fun o => Order.Deleted o = 0) l)
  /\ (owner <> "" ->
      exists l, getAssets recent_assets owner w = (JSON 200 (AssetsJSON l), w)
                /\ (length l <= 50)%nat
                /\ Forall (fun a => NftAsset.Owner a = owner /\ NftAsset.Deleted a = 0) l)
  /\ (forall w', getAssets recent_assets "" w'
                 = (JSON 400 (H "error" "owner query param is required"), w')).
Proof.
  intros Hpo Hpa Hio. split; [|split].
  - unfold getOrders, OrderStore.ListRecent, bind.
    rewrite (roundtrip_healthy _ Hio). unfold gets, ret.
    eexists. split; [reflexivity|]. split.
    + rewrite length_fmap, length_take.
      match goal with
      | |- (?n `min` _ <= _)%nat => replace n with 50%nat by reflexivity
      end.
      lia.
    + apply Forall_forall. intros o (r & -> & Hr)%list_elem_of_fmap.
      apply OrderProps.elem_of_take_1 in Hr. rewrite Hpo in Hr.
      now apply list_elem_of_filter in Hr as [Hd _].
  - intros Ho. unfold getAssets. rewrite (bool_decide_eq_false_2 _ Ho).
    unfold bind. rewrite (AssetProps.ListByOwner_healthy _ _ _ _ Hio).
    eexists. split; [reflexivity|]. split.
    + rewrite length_fmap, length_take.
      match goal with
      | |- (?n `min` _ <= _)%nat => replace n with 50%nat by reflexivity
      end.
      lia.
    + apply Forall_forall. intros a (r & -> & Hr)%list_elem_of_fmap.
      apply AssetProps.elem_of_take_in in Hr. rewrite Hpa in Hr.
      now apply list_elem_of_filter in Hr as [Hd _].
  - intros w'. reflexivity.
Qed.

End ServerProps.

(** * The properties at concrete inputs *)

Module Examples.
Import Chain Fixture.

(** C1 fails as stated: after Listed and Sold the order of listing 1001
    is SUCCESS, and the Cancelled handler that follows turns it into
    CANCELED; in the other direction Sold turns CANCELED into SUCCESS. *)
Lemma terminal_status_is_flipped :
  Order.status <$> order_of 1001 (after [listed1001; sold1001] empty)
  = Some OrderStatusSuccess
  /\ Order.status <$> order_of 1001 (after [listed1001; sold1001; cancelled1001] empty)
     = Some OrderStatusCanceled
  /\ Order.status <$> order_of 1001 (after [listed1001; cancelled1001] empty)
     = Some OrderStatusCanceled
  /\ Order.status <$> order_of 1001 (after [listed1001; cancelled1001; sold1001] empty)
     = Some OrderStatusSuccess.
Proof. vm_compute. repeat split. Qed.

(** The amended C1 at listing 1001, sold: Cancelled writes CANCELED over
    SUCCESS, and a second Sold keeps SUCCESS. *)
Lemma terminal_status_last_writer_wins_witness :
  let w := after [listed1001; sold1001] empty in
  Order.status <$> order_of 1001 w = Some OrderStatusSuccess
  /\ ((handleCancelled cancelled1001 w).1 = None
      /\ Order.status <$> find (OrderStore.has_listing (Int64 (topic cancelled1001 1)))
                              (orders (handleCancelled cancelled1001 w).2)
         = Some OrderStatusCanceled)
  /\ ((handleSold sold1001 w).1 = None
      /\ Order.status <$> find (OrderStore.has_listing (Int64 (topic sold1001 1)))
                              (orders (handleSold sold1001 w).2)
         = Some OrderStatusSuccess).
Proof.
  intros w. split; [vm_compute; reflexivity|].
  apply (HandlerProps.terminal_status_last_writer_wins cancelled1001 sold1001 w).
  - reflexivity.
  - simpl; lia.
  - simpl; lia.
  - vm_compute; reflexivity.
  - vm_compute; reflexivity.
Defined.

(** C2 fails as stated: Sold sets the terminal status SUCCESS, the Listed
    log that follows overwrites it with LISTED and clears the buyer, and
    the final row differs from the one of the chronological order. *)
Lemma Sold_then_Listed_ends_LISTED :
  Order.status <$> order_of 1001 (after [sold1001] empty) = Some OrderStatusSuccess
  /\ (fun r => (Order.status r, Order.buyer r))
       <$> order_of 1001 (after [sold1001; listed1001] empty)
     = Some (OrderStatusListed, Some "")
  /\ (fun r => (Order.status r, Order.buyer r))
       <$> order_of 1001 (after [listed1001; sold1001] empty)
     = Some (OrderStatusSuccess, Some "0x00000000000000000000000000000000000000bb").
Proof. vm_compute. repeat split. Qed.

(** The amended C2 at the two logs of listing 1001 and an empty table. *)
Lemma Sold_and_Listed_do_not_commute_witness :
  UnpackListed (abi scanner) (Data listed1001) = Ok (1, 1, 1000000000000000000)
  /\ Int64 (topic sold1001 1) = Int64 (topic listed1001 1)
  /\ order_of 1001 (handleListed scanner listed1001 (handleSold sold1001 empty).2).2
     = order_of 1001 (handleListed scanner listed1001 empty).2
  /\ Order.status
       <$> order_of 1001 (handleListed scanner listed1001 (handleSold sold1001 empty).2).2
     = Some OrderStatusListed
  /\ Order.status
       <$> order_of 1001 (handleSold sold1001 (handleListed scanner listed1001 empty).2).2
     = Some OrderStatusSuccess.
Proof.
  assert (Hun : UnpackListed (abi scanner) (Data listed1001)
                = Ok (1, 1, 1000000000000000000)) by (vm_compute; reflexivity).
  assert (Hsame : Int64 (topic sold1001 1) = Int64 (topic listed1001 1))
    by reflexivity.
  split; [exact Hun|]. split; [exact Hsame|].
  destruct (HandlerProps.Sold_and_Listed_do_not_commute scanner listed1001 sold1001
              empty 1 1 1000000000000000000)
    as (H1 & H2 & H3 & _);
    [reflexivity | simpl; lia | simpl; lia | exact Hun | exact Hsame
     | vm_compute; reflexivity | vm_compute; reflexivity |].
  unfold order_of.
  change 1001 with (Int64 (topic listed1001 1)).
  rewrite H2, H1, H3. vm_compute. repeat split.
Defined.

(** The amended C9 at an upload into an empty table, and at the insertion
    of an asset with an address and the token id 0: its token id is
    stored as unset and the lookup by its address and token id 0 does not
    find it, while the row with a written 0 is found. *)
Lemma Insert_GetByID_unset_is_zero_witness :
  io empty = []
  /\ (NftAssetStore.Insert unminted empty).1 = Ok 1
  /\ NftAsset.token_id <$> nft_assets (NftAssetStore.Insert unminted empty).2 = [None]
  /\ (NftAssetStore.GetByID 1 (NftAssetStore.Insert unminted empty).2).1
     = Ok (NftAssetStore.with_ID 1 unminted)
  /\ (NftAssetStore.GetByNFT "0xff" 0 (NftAssetStore.Insert token_zero empty).2).1
     = Err ErrNoRows
  /\ (NftAssetStore.GetByNFT "0xff" 0
        (set_nft_assets [NftAssetStore.zeroed (NftAssetStore.stored 1 token_zero)]
           (NftAssetStore.Insert token_zero empty).2)).1
     = Ok (NftAssetStore.with_ID 1 token_zero).
Proof.
  destruct (AssetProps.Insert_GetByID_unset_is_zero unminted empty)
    as (H1 & H2 & _ & _ & _ & H6 & _); [reflexivity | constructor |].
  destruct (AssetProps.Insert_GetByID_unset_is_zero token_zero empty)
    as (_ & _ & _ & _ & _ & _ & _ & _ & H9); [reflexivity | constructor |].
  destruct (H9 eq_refl) as [Hmiss Hhit].
  split; [reflexivity|]. split; [exact H1|]. split; [now rewrite H2|].
  split; [exact H6|]. split; [apply Hmiss; now left | exact Hhit].
Defined.

(** C9 fails as stated: an unminted asset (NULL columns) and the same
    asset after 0, the empty address and 0 have been written into its
    columns read back as the same struct, and an asset inserted with token
    id 0 is stored as unset, so that the lookup by address and token id 0
    does not find it. *)
Lemma unset_and_zero_read_back_alike :
  let inserted := (NftAssetStore.Insert unminted empty).2 in
  let zeroed := (NftAssetStore.UpdateMintInfo 1 0 "" 0 inserted).2 in
  NftAsset.token_id <$> nft_assets inserted = [None]
  /\ NftAsset.token_id <$> nft_assets zeroed = [Some 0]
  /\ (NftAssetStore.GetByID 1 inserted).1 = (NftAssetStore.GetByID 1 zeroed).1
  /\ NftAsset.token_id <$> nft_assets (NftAssetStore.Insert token_zero empty).2 = [None]
  /\ (NftAssetStore.GetByNFT "0xff" 0 (NftAssetStore.Insert token_zero empty).2).1
     = Err ErrNoRows.
Proof. vm_compute. repeat split. Qed.

(** C10 fails as stated: on a server in strict SQL mode the placeholder
    is refused.  Listing 2002 is in the table and the lookup fails on a
    bad connection; the Cancelled and the Sold handler return error 1366
    of the write they send, and the row of the listing keeps its seller,
    its price, its token id and its status. *)
Lemma placeholder_refused_in_strict_mode :
  (fun r => (Order.seller r, Order.price r, Order.token_id r, Order.status r))
    <$> order_of 2002 bad_lookup
  = Some ("0x0000000000000000000000000000000000000011", "5000", 7, OrderStatusListed)
  /\ (handleCancelledTo (OrderStore.UpsertOn strict_price) cancelled2002 bad_lookup).1
     = Some ErrIncorrectDecimal
  /\ order_of 2002
       (handleCancelledTo (OrderStore.UpsertOn strict_price) cancelled2002 bad_lookup).2
     = order_of 2002 bad_lookup
  /\ (handleSoldTo (OrderStore.UpsertOn strict_price) sold2002 bad_lookup).1
     = Some ErrIncorrectDecimal
  /\ order_of 2002
       (handleSoldTo (OrderStore.UpsertOn strict_price) sold2002 bad_lookup).2
     = order_of 2002 bad_lookup.
Proof. vm_compute. repeat split. Qed.

(** The amended C10 at listing 2002, listed, with the lookup failing on a
    bad connection: in strict mode the handlers return the error of the
    write and leave the table as it is; without strict mode they
    overwrite the populated row with their placeholder, price 0. *)
Lemma lookup_failure_takes_fallback_witness :
  io bad_lookup = [Some "driver: bad connection"]
  /\ handleCancelledTo (OrderStore.UpsertOn strict_price) cancelled2002 bad_lookup
     = (Some ErrIncorrectDecimal, after [listed2002] empty)
  /\ handleSoldTo (OrderStore.UpsertOn strict_price) sold2002 bad_lookup
     = (Some ErrIncorrectDecimal, after [listed2002] empty)
  /\ (handleCancelledTo (OrderStore.UpsertOn lenient_price) cancelled2002 bad_lookup).1
     = None
  /\ (fun r => (Order.seller r, Order.price r, Order.token_id r, Order.status r))
       <$> order_of 2002
             (handleCancelledTo (OrderStore.UpsertOn lenient_price)
                cancelled2002 bad_lookup).2
     = Some ("", "0", 0, OrderStatusCanceled)
  /\ (handleSoldTo (OrderStore.UpsertOn lenient_price) sold2002 bad_lookup).1 = None
  /\ (fun r => (Order.seller r, Order.price r, Order.token_id r, Order.status r))
       <$> order_of 2002
             (handleSoldTo (OrderStore.UpsertOn lenient_price) sold2002 bad_lookup).2
     = Some ("", "0", 0, OrderStatusSuccess).
Proof.
  assert (Hrow : exists r, order_of 2002 bad_lookup = Some r).
  { eexists. vm_compute. reflexivity. }
  destruct Hrow as (r & Hr).
  pose proof (HandlerProps.lookup_failure_takes_fallback strict_price
                cancelled2002 sold2002 bad_lookup "driver: bad connection" [] r r)
    as Hstrict.
  pose proof (HandlerProps.lookup_failure_takes_fallback lenient_price
                cancelled2002 sold2002 bad_lookup "driver: bad connection" [] r r)
    as Hlenient.
  change (strict_price "") with (@Err string ErrIncorrectDecimal) in Hstrict.
  change (lenient_price "") with (@Ok string "0") in Hlenient.
  cbv beta iota in Hstrict, Hlenient.
  destruct Hstrict as [HC HS];
    [reflexivity | reflexivity | simpl; lia | simpl; lia | exact Hr | exact Hr
     | vm_compute; reflexivity | vm_compute; reflexivity |].
  destruct Hlenient as ((HC1 & HC2) & (HS1 & HS2));
    [reflexivity | reflexivity | simpl; lia | simpl; lia | exact Hr | exact Hr
     | vm_compute; reflexivity | vm_compute; reflexivity |].
  split; [reflexivity|].
  split; [rewrite HC; vm_compute; reflexivity|].
  split; [rewrite HS; vm_compute; reflexivity|].
  split; [exact HC1|]. split.
  - unfold order_of. change 2002 with (Int64 (topic cancelled2002 1)).
    rewrite HC2. reflexivity.
  - split; [exact HS1|].
    unfold order_of. change 2002 with (Int64 (topic sold2002 1)).
    rewrite HS2. reflexivity.
Defined.

(** C6 at the lock of listing 42: acquired on an empty Redis, refused
    while it is held; the values of the two holders of the key differ,
    as their entropy does. *)
Lemma Acquire_set_if_absent_witness :
  hd None (io empty) = None
  /\ first_holder
     = (Ok stale_lock, set_redis {[ "lock:42" := ("0102", 5000) ]} empty)
  /\ Lock.Acquire (Lock.NewRedisLocker "") (Some [3; 4]) 0 "42" 5000 first_holder.2
     = (Err ErrLockNotAcquired, first_holder.2)
  /\ Lock.drawn (Some (seqZ 0 16))
  /\ (Lock.Acquire (Lock.NewRedisLocker "") (Some (seqZ 0 16)) 0 "42" 5000 empty).1
     = Ok {| Lock.key := "lock:42";
             Lock.value := "000102030405060708090a0b0c0d0e0f" |}.
Proof.
  split; [reflexivity|]. split; [|split; [|split]].
  - unfold first_holder.
    destruct (LockProps.Acquire_set_if_absent (Lock.NewRedisLocker "") (Some [1; 2])
                0 "42" 5000 empty eq_refl) as [-> _].
    vm_compute. reflexivity.
  - destruct (LockProps.Acquire_set_if_absent (Lock.NewRedisLocker "") (Some [3; 4])
                0 "42" 5000 first_holder.2 eq_refl) as [-> _].
    vm_compute. reflexivity.
  - split; [reflexivity|]. apply (bool_decide_unpack _). vm_compute. exact I.
  - assert (Hd : Lock.drawn (Some (seqZ 0 16))).
    { split; [reflexivity|]. apply (bool_decide_unpack _). vm_compute. exact I. }
    destruct (LockProps.Acquire_set_if_absent (Lock.NewRedisLocker "")
                (Some (seqZ 0 16)) 0 "42" 5000 empty eq_refl) as [-> [Hv _]];
      [exact Hd|].
    vm_compute. reflexivity.
Defined.

(** C5 in the TTL race: the first holder's lock has expired and the second
    holder has the key; the release of the first handle leaves the key to
    the second holder, whose own release deletes it.  Of a script with two
    outcomes a release consumes the first: it is one command. *)
Lemma Release_compare_and_delete_witness :
  second_holder.1 = Ok fresh_lock
  /\ redis (Lock.Release stale_lock second_holder.2).2 = redis second_holder.2
  /\ redis (Lock.Release fresh_lock second_holder.2).2
     = delete "lock:42" (redis second_holder.2)
  /\ Lock.Release fresh_lock (set_io [None; Some "timeout"] second_holder.2)
     = (None, set_io [Some "timeout"] empty)
  /\ Lock.Release fresh_lock (set_io [Some "timeout"; None] second_holder.2)
     = (Some (ErrIO "timeout"), set_io [None] second_holder.2).
Proof.
  split; [vm_compute; reflexivity|]. split; [|split; [|split]].
  - apply (LockProps.Release_compare_and_delete stale_lock second_holder.2).
    vm_compute. discriminate.
  - apply (LockProps.Release_compare_and_delete fresh_lock second_holder.2).
    + reflexivity.
    + vm_compute. reflexivity.
  - destruct (LockProps.Release_compare_and_delete fresh_lock
                (set_io [None; Some "timeout"] second_holder.2))
      as (_ & _ & _ & _ & Hserved & _).
    rewrite (Hserved eq_refl). vm_compute. reflexivity.
  - destruct (LockProps.Release_compare_and_delete fresh_lock
                (set_io [Some "timeout"; None] second_holder.2))
      as (_ & _ & _ & _ & _ & Hfailed).
    rewrite (Hfailed "timeout" eq_refl). reflexivity.
Defined.

(** Why the head is bounded in the properties of the batch loop: at the
    last block number of uint64, which no chain comes near, the end of
    the first batch would wrap around to block 49 and the tick would
    leave the watermark there. *)
Lemma watermark_wraps_at_uint64_end :
  (Run scanner 5 (Ok (2 ^ 64 - 51)) [last_block_tick] empty).1
  = [18446744073709551565; 49].
Proof. vm_compute. reflexivity. Qed.

(** C7 over a tick with a halved batch and a tick that skips its blocks
    one by one. *)
Lemma Run_watermark_monotone_witness :
  1 <= maxBatchBlocks scanner
  /\ Forall (head_in_range scanner) [limited_tick; starved_tick]
  /\ (Run scanner 60 (Ok 1000) [limited_tick; starved_tick] empty).1
     = [1000; 1250; 1252]
  /\ 1000 <= 1250 <= 1252.
Proof.
  assert (Hmax : 1 <= maxBatchBlocks scanner) by (vm_compute; discriminate).
  assert (Hall : Forall (head_in_range scanner) [limited_tick; starved_tick]).
  { repeat constructor; intros number [= <-]; vm_compute; reflexivity. }
  assert (Hrun : (Run scanner 60 (Ok 1000) [limited_tick; starved_tick] empty).1
                 = [1000; 1250; 1252]) by (vm_compute; reflexivity).
  split; [exact Hmax|]. split; [exact Hall|]. split; [exact Hrun|]. split.
  - apply (ScanProps.Run_watermark_monotone scanner 60 (Ok 1000)
             [limited_tick; starved_tick] empty Hmax Hall 0%nat);
      now rewrite Hrun.
  - apply (ScanProps.Run_watermark_monotone scanner 60 (Ok 1000)
             [limited_tick; starved_tick] empty Hmax Hall 1%nat);
      now rewrite Hrun.
Defined.



(** The second holder of [first_holder]'s key is refused. *)
Lemma Acquire_excludes_second_holder_witness :
  (Lock.Acquire (Lock.NewRedisLocker "") (Some [3; 4]) 0 "42" 5000 first_holder.2).1
  = Err ErrLockNotAcquired
  /\ redis first_holder.2 !! "lock:42" = Some ("0102", 5000).
Proof.
  destruct (LockProps.Acquire_excludes_second_holder (Lock.NewRedisLocker "")
              (Some [1; 2]) (Some [3; 4]) 0 0 "42" 5000 5000 empty first_holder.2
              stale_lock) as (H1 & _ & H3);
    [reflexivity | vm_compute; reflexivity | reflexivity |].
  split; [exact H1 | exact H3].
Defined.

(** The scenario of listing 2002, cancelled before any Listed log was
    seen: a server in strict mode refuses the placeholder and the table
    stays empty; without strict mode the placeholder is stored with
    price 0. *)
Lemma Cancelled_before_Listed_sends_placeholder_witness :
  handleCancelledTo (OrderStore.UpsertOn strict_price) cancelled2002 empty
  = (Some ErrIncorrectDecimal, empty)
  /\ (fun r => (Order.listing_id r, Order.seller r, Order.price r, Order.status r))
       <$> orders (handleCancelledTo (OrderStore.UpsertOn lenient_price)
                     cancelled2002 empty).2
     = [(Some 2002, "", "0", OrderStatusCanceled)].
Proof.
  pose proof (HandlerProps.Cancelled_before_Listed_sends_placeholder strict_price
                cancelled2002 empty) as Hstrict.
  pose proof (HandlerProps.Cancelled_before_Listed_sends_placeholder lenient_price
                cancelled2002 empty) as Hlenient.
  change (strict_price "") with (@Err string ErrIncorrectDecimal) in Hstrict.
  change (lenient_price "") with (@Ok string "0") in Hlenient.
  cbv beta iota in Hstrict, Hlenient.
  split.
  - apply Hstrict; [reflexivity | simpl; lia | reflexivity | reflexivity].
  - destruct Hlenient as [_ Hrows];
      [reflexivity | simpl; lia | reflexivity | reflexivity |].
    rewrite Hrows. reflexivity.
Defined.

(** The tick at head 1252 with every query rejected ends within 200
    passes. *)
Lemma tick_ends_witness :
  (tick scanner 200 starved_tick 1250 empty).1 = (true, 1252).
Proof.
  assert (Hend : (tick scanner 200 starved_tick 1250 empty).1.1 = true).
  { apply (ScanProps.tick_ends scanner 200 starved_tick 1250 1252 empty).
    - vm_compute; discriminate.
    - lia.
    - intros number [= <-]; vm_compute; reflexivity.
    - reflexivity.
    - vm_compute; discriminate. }
  destruct (tick scanner 200 starved_tick 1250 empty).1 as [fin wm] eqn:Ht.
  simpl in Hend. subst fin. f_equal.
  assert (Hwm : (tick scanner 200 starved_tick 1250 empty).1.2 = 1252)
    by (vm_compute; reflexivity).
  rewrite Ht in Hwm. exact Hwm.
Defined.

(** Lock values at the entropy of the two holders of listing 42. *)
Lemma randomLockValue_injective_witness :
  Forall (fun b => 0 <= b < 256) [1; 2]
  /\ Forall (fun b => 0 <= b < 256) [3; 4]
  /\ (Lock.randomLockValue (Some [1; 2]) 0 = Lock.randomLockValue (Some [3; 4]) 1 ->
      [1; 2] = [3; 4])
  /\ (Lock.randomLockValue None 0 = Lock.randomLockValue None 1 ->
      0 mod 2 ^ 64 = 1 mod 2 ^ 64)
  /\ String.length (Lock.randomLockValue (Some [1; 2]) 0) = (2 * length [1; 2])%nat
  /\ String.length (Lock.randomLockValue None 0) = 16%nat.
Proof.
  assert (H1 : Forall (fun b => 0 <= b < 256) [1; 2]) by (repeat constructor; lia).
  assert (H2 : Forall (fun b => 0 <= b < 256) [3; 4]) by (repeat constructor; lia).
  split; [exact H1|]. split; [exact H2|].
  exact (LockProps.randomLockValue_injective [1; 2] [3; 4] 0 1 H1 H2).
Defined.

(** The lock of listing 42 acquired on an empty Redis and released. *)
Lemma Acquire_Release_restores_witness :
  io empty = []
  /\ redis empty !! (Lock.prefix (Lock.NewRedisLocker "") +:+ "42") = None
  /\ exists held,
       Lock.Acquire (Lock.NewRedisLocker "") (Some [1; 2]) 0 "42" 5000 empty
       = (Ok held,
          set_redis (<[Lock.key held := (Lock.value held, 5000)]> (redis empty)) empty)
       /\ Lock.key held = Lock.prefix (Lock.NewRedisLocker "") +:+ "42"
       /\ Lock.Release held
            (Lock.Acquire (Lock.NewRedisLocker "") (Some [1; 2]) 0 "42" 5000 empty).2
          = (None, empty).
Proof.
  split; [reflexivity|]. split; [reflexivity|].
  exact (LockProps.Acquire_Release_restores (Lock.NewRedisLocker "") (Some [1; 2]) 0
           "42" 5000 empty eq_refl eq_refl).
Defined.

(** The lock of listing 42 and the key of listing 43, on a connection
    that fails. *)
Lemma Acquire_touches_only_its_key_witness :
  bool_decide ("lock:43" = Lock.prefix (Lock.NewRedisLocker "") +:+ "42") = false
  /\ redis (Lock.Acquire (Lock.NewRedisLocker "") (Some [3; 4]) 0 "42" 5000
              (set_io [Some "i/o timeout"] first_holder.2)).2 !! "lock:43"
     = redis (set_io [Some "i/o timeout"] first_holder.2) !! "lock:43"
  /\ (Lock.Acquire (Lock.NewRedisLocker "") (Some [3; 4]) 0 "42" 5000
        (set_io [Some "i/o timeout"] first_holder.2)).1 = Err (ErrIO "i/o timeout").
Proof.
  assert (Hk : "lock:43" <> Lock.prefix (Lock.NewRedisLocker "") +:+ "42")
    by (intros Heq; vm_compute in Heq; discriminate).
  pose proof (LockProps.Acquire_touches_only_its_key (Lock.NewRedisLocker "")
                (Some [3; 4]) 0 "42" 5000
                (set_io [Some "i/o timeout"] first_holder.2) "lock:43" Hk)
    as (Hother & _ & _ & Hfail).
  split; [reflexivity|]. split; [exact Hother|].
  exact (proj1 (Hfail "i/o timeout" eq_refl)).
Defined.

(** The two holders of the lock of listing 42. *)
Lemma stale_Release_spares_new_holder_witness :
  Forall (fun b => 0 <= b < 256) [1; 2]
  /\ Forall (fun b => 0 <= b < 256) [3; 4]
  /\ [1; 2] <> [3; 4]
  /\ io empty = []
  /\ redis empty !! (Lock.prefix (Lock.NewRedisLocker "") +:+ "42") = None
  /\ exists h1 h2,
    first_holder.1 = Ok h1 /\ second_holder.1 = Ok h2
    /\ Lock.Release h1 second_holder.2 = (None, second_holder.2)
    /\ redis second_holder.2 !! Lock.key h2 = Some (Lock.value h2, 5000)
    /\ redis (Lock.Release h2 second_holder.2).2 !! Lock.key h2 = None.
Proof.
  assert (H1 : Forall (fun b => 0 <= b < 256) [1; 2]) by (repeat constructor; lia).
  assert (H2 : Forall (fun b => 0 <= b < 256) [3; 4]) by (repeat constructor; lia).
  assert (Hne : [1; 2] <> [3; 4]) by discriminate.
  repeat (split; [assumption || reflexivity|]).
  exact (LockProps.stale_Release_spares_new_holder (Lock.NewRedisLocker "")
           [1; 2] [3; 4] 0 0 "42" 5000 5000 empty H1 H2 Hne eq_refl eq_refl).
Defined.

(** An order for listing 1003 written after listing 2002 on a server in
    strict mode, and read back under the next key of the table; the same
    order without a price is refused. *)
Lemma UpsertOn_GetByID_roundtrip_witness :
  io (after [listed2002] empty) = []
  /\ OrderStore.rest_lacks (Order.TxHash order1003) (Order.ListingID order1003)
       (orders (after [listed2002] empty))
  /\ (OrderStore.UpsertOn strict_price order1003 (after [listed2002] empty)).1 = None
  /\ (OrderStore.GetByID 1003
        (OrderStore.UpsertOn strict_price order1003 (after [listed2002] empty)).2).1
     = Ok (OrderStore.with_OrderID 2 order1003)
  /\ OrderStore.UpsertOn strict_price (Order.set_Price "" order1003)
       (after [listed2002] empty)
     = (Some ErrIncorrectDecimal, after [listed2002] empty).
Proof.
  assert (Hlack : OrderStore.rest_lacks (Order.TxHash order1003)
                    (Order.ListingID order1003) (orders (after [listed2002] empty)))
    by (vm_compute; reflexivity).
  pose proof (OrderProps.UpsertOn_GetByID_roundtrip strict_price order1003
                (after [listed2002] empty) eq_refl Hlack) as Hkept.
  pose proof (OrderProps.UpsertOn_GetByID_roundtrip strict_price
                (Order.set_Price "" order1003)
                (after [listed2002] empty) eq_refl Hlack) as Hrefused.
  change (strict_price (Order.Price order1003)) with (@Ok string "7") in Hkept.
  change (strict_price (Order.Price (Order.set_Price "" order1003)))
    with (@Err string ErrIncorrectDecimal) in Hrefused.
  cbv beta iota in Hkept, Hrefused. destruct Hkept as [Hnil Hget].
  split; [reflexivity|]. split; [exact Hlack|]. split; [exact Hnil|].
  split; [|exact Hrefused].
  change (Order.ListingID order1003) with 1003 in Hget. now rewrite Hget.
Defined.

(** Two Listed logs of one transaction: the write for listing 1002
    lands in the row of listing 1001. *)
Lemma Upsert_tx_hash_of_other_listing_witness :
  let w1 := (OrderStore.Upsert order1002 (after [listed1001] empty)).2 in
  (OrderStore.Upsert order1002 (after [listed1001] empty)).1 = None
  /\ length (orders w1) = 1%nat
  /\ (OrderStore.GetByID 1002 w1).1 = Err ErrNoRows
  /\ (OrderStore.GetByID 1001 w1).1 = Ok (OrderStore.with_OrderID 1
        (listed_order 1001 (Order.Seller order1002) (Order.NFTAddress order1002)
           (Order.TokenID order1002) (Order.Amount order1002)
           (Order.Price order1002) (Order.TxHash order1002))).
Proof.
  intros w1.
  assert (Hr : exists r,
             find (OrderStore.has_tx (Order.TxHash order1002))
                  (orders (after [listed1001] empty)) = Some r
             /\ find (OrderStore.has_listing 1001)
                     (orders (after [listed1001] empty)) = Some r
             /\ Order.order_id r = 1).
  { eexists. repeat split; vm_compute; reflexivity. }
  destruct Hr as (r & Htx & Hl & Hid).
  destruct (OrderProps.Upsert_tx_hash_of_other_listing order1002
              (after [listed1001] empty) r 1001 eq_refl eq_refl Htx Hl)
    as (Hnil & Hlen & Hmiss & Hhit).
  fold w1 in Hlen, Hmiss, Hhit.
  split; [exact Hnil|]. split; [exact Hlen|].
  change (Order.ListingID order1002) with 1002 in Hmiss.
  split; [now rewrite Hmiss|]. rewrite Hhit, Hid. reflexivity.
Defined.

(** The order list of the API after the Listed log of listing 1001. *)
Lemma ListRecent_selects_witness :
  (forall rows : list Order.row, newest_first rows ≡ₚ rows)
  /\ io (after [listed1001] empty) = []
  /\ exists l,
       OrderStore.ListRecent newest_first 0 (after [listed1001] empty)
       = (Ok l, after [listed1001] empty)
       /\ Z.of_nat (length l) <= 50
       /\ Forall (fun o => Order.Deleted o = 0) l.
Proof.
  assert (Hperm : forall rows : list Order.row, newest_first rows ≡ₚ rows)
    by (intros rows; apply reverse_Permutation).
  split; [exact Hperm|]. split; [reflexivity|].
  destruct (OrderProps.ListRecent_selects newest_first 0 (after [listed1001] empty)
              Hperm eq_refl) as (l & Hl & Hlen & Hall & _).
  exists l. split; [exact Hl|]. split; [exact Hlen|].
  apply Forall_forall. intros o Ho. exact (proj1 (Hall o Ho)).
Defined.

(** A log of another event and a Sold log without its buyer, on a
    connection that is down: no call is made; and a Listed log whose
    data does not decode. *)
Lemma handleLog_ignores_witness :
  let down := set_io [Some "connection refused"] empty in
  ignored scanner foreign_log /\ ignored scanner short_sold
  /\ handleLog scanner foreign_log down = (None, down)
  /\ handleLog scanner short_sold down = (None, down)
  /\ (handleLog scanner bad_listed down).2 = down
  /\ (handleLog scanner bad_listed down).1 = Some ErrUnpack.
Proof.
  intros down.
  assert (H1 : ignored scanner foreign_log) by exact I.
  assert (H2 : ignored scanner short_sold) by (vm_compute; lia).
  split; [exact H1|]. split; [exact H2|].
  split; [exact (proj1 (HandlerProps.handleLog_ignores scanner foreign_log down) H1)|].
  split; [exact (proj1 (HandlerProps.handleLog_ignores scanner short_sold down) H2)|].
  destruct (proj2 (HandlerProps.handleLog_ignores scanner bad_listed down)
              1 [1001; 0xAA; 0xFF] ErrUnpack eq_refl eq_refl eq_refl)
    as [Hsame Herr].
  split; [exact Hsame|]. apply Herr. simpl. lia.
Defined.

(** A tick at head 1400 from watermark 1200 over the chain of listing
    1001: two batches, both logs handled, the listing sold. *)
Lemma tick_handles_every_block_witness :
  tick scanner 200 (node 1400 chain1001) 1200 empty
  = ((true, 1400), after (logs_between chain1001 1201 1400) empty)
  /\ logs_between chain1001 1201 1400 = [listed1001; sold1001]
  /\ Order.status <$> order_of 1001 (tick scanner 200 (node 1400 chain1001) 1200 empty).2
     = Some OrderStatusSuccess.
Proof.
  assert (Ht : tick scanner 200 (node 1400 chain1001) 1200 empty
               = ((true, 1400), after (logs_between chain1001 1201 1400) empty)).
  { apply (ScanProps.tick_handles_every_block scanner 200 1400 chain1001 1200 empty);
      vm_compute; intuition discriminate. }
  split; [exact Ht|]. split; [vm_compute; reflexivity|].
  rewrite Ht. vm_compute. reflexivity.
Defined.

(** A reconciliation of the last 50 blocks below head 1250 whose first
    query is rejected for its range, and the tick from watermark 1200
    with the same answers. *)
Lemma ResyncRecent_as_tick_witness :
  head limited_tick = Ok 1250
  /\ resync_from (uint64 1250) 50 = 1201
  /\ (ResyncRecent scanner 200 limited_tick 50 empty).2
     = (tick scanner 200 limited_tick 1200 empty).2
  /\ (ResyncRecent scanner 200 limited_tick 50 empty).1.1
     = (tick scanner 200 limited_tick 1200 empty).1.1.
Proof.
  destruct (ScanProps.ResyncRecent_as_tick scanner 200 limited_tick 1250 50 empty)
    as (Hw & Hf & _); [reflexivity | reflexivity | lia |].
  split; [reflexivity|]. split; [reflexivity|]. split; [exact Hw | exact Hf].
Defined.

(** A reconciliation of the last 250 blocks below head 1400 over the
    chain of listing 1001. *)
Lemma ResyncRecent_handles_window_witness :
  ResyncRecent scanner 250 (node 1400 chain1001) 250 empty
  = ((true, None), after (logs_between chain1001 1151 1400) empty)
  /\ Order.status
       <$> order_of 1001 (ResyncRecent scanner 250 (node 1400 chain1001) 250 empty).2
     = Some OrderStatusSuccess.
Proof.
  assert (Hr : ResyncRecent scanner 250 (node 1400 chain1001) 250 empty
               = ((true, None), after (logs_between chain1001 1151 1400) empty)).
  { apply (ScanProps.ResyncRecent_handles_window scanner 250 1400 chain1001 250 empty);
      vm_compute; intuition discriminate. }
  split; [exact Hr|]. rewrite Hr. vm_compute. reflexivity.
Defined.

(** A reconciliation of the last two blocks below head 1252 against a
    provider that rejects every query. *)
Lemma ResyncRecent_starved_witness :
  head starved_tick = Ok 1252
  /\ ResyncRecent scanner 102 starved_tick 2 (after [listed1001] empty)
     = ((true, None), after [listed1001] empty).
Proof.
  split; [reflexivity|].
  apply (ScanProps.ResyncRecent_starved scanner 102 starved_tick 1252 2
           (after [listed1001] empty)).
  - vm_compute; discriminate.
  - reflexivity.
  - vm_compute; reflexivity.
  - lia.
  - intros n a b. exists (ErrIO "limit exceeded"). split; reflexivity.
  - vm_compute; discriminate.
Defined.

(** Mint information for the second asset of [two_assets], which is not
    deleted, for the first, which is, and for a key no asset has. *)
Lemma UpdateMintInfo_GetByID_witness :
  io two_assets = []
  /\ (NftAssetStore.GetByID 2 (NftAssetStore.UpdateMintInfo 2 7 "0xff" 1 two_assets).2).1
     = Ok (NftAsset.mk 2 "art" "0xaa" "Qm" "https://gateway/ipfs/Qm" 7 "0xff" 1 0)
  /\ (NftAssetStore.GetByID 1 (NftAssetStore.UpdateMintInfo 1 7 "0xff" 1 two_assets).2).1
     = (NftAssetStore.GetByID 1 two_assets).1
  /\ (NftAssetStore.UpdateMintInfo 3 7 "0xff" 1 two_assets).2 = two_assets.
Proof.
  split; [reflexivity|].
  destruct (AssetProps.UpdateMintInfo_GetByID 2 7 "0xff" 1 two_assets eq_refl)
    as [_ H2].
  destruct (AssetProps.UpdateMintInfo_GetByID 1 7 "0xff" 1 two_assets eq_refl)
    as [_ H1].
  destruct (AssetProps.UpdateMintInfo_GetByID 3 7 "0xff" 1 two_assets eq_refl)
    as [_ H3].
  assert (F2 : exists r, find (fun r => bool_decide (NftAsset.id r = 2))
                              (nft_assets two_assets) = Some r
                         /\ r = NftAsset.mkRow 2 "art" "0xaa" "Qm"
                                  "https://gateway/ipfs/Qm" None None None 0)
    by (eexists; split; vm_compute; reflexivity).
  assert (F1 : exists r, find (fun r => bool_decide (NftAsset.id r = 1))
                              (nft_assets two_assets) = Some r
                         /\ NftAsset.deleted r = 1)
    by (eexists; split; vm_compute; reflexivity).
  assert (F3 : find (fun r => bool_decide (NftAsset.id r = 3))
                    (nft_assets two_assets) = None)
    by (vm_compute; reflexivity).
  destruct F2 as (r2 & F2 & E2). destruct F1 as (r1 & F1 & E1).
  rewrite F2 in H2. rewrite F1 in H1. rewrite F3 in H3.
  split; [|split].
  - rewrite H2. subst r2. reflexivity.
  - rewrite (AssetProps.asset_GetByID_healthy 1 two_assets eq_refl), F1.
    rewrite H1, E1. reflexivity.
  - exact (proj1 H3).
Defined.

(** The sale of the asset of listing 1001 to 0xbb. *)
Lemma UpdateOwnerByNFT_GetByNFT_witness :
  let sold :=
    NftAssetStore.UpdateOwnerByNFT "0x00000000000000000000000000000000000000ff" 1
      "0xbb" (healthy listed_world) in
  io (healthy listed_world) = []
  /\ sold.1 = None
  /\ (NftAssetStore.GetByNFT "0x00000000000000000000000000000000000000ff" 1 sold.2).1
     = Ok (NftAsset.mk 1 "art" "0xbb" "Qm" "https://gateway/ipfs/Qm" 1
             "0x00000000000000000000000000000000000000ff" 1 0)
  /\ (NftAssetStore.UpdateOwnerByNFT "0xee" 1 "0xbb" (healthy listed_world)).2
     = healthy listed_world.
Proof.
  intros sold.
  destruct (AssetProps.UpdateOwnerByNFT_GetByNFT
              "0x00000000000000000000000000000000000000ff" 1 "0xbb"
              (healthy listed_world) eq_refl) as [Hnil Hget].
  destruct (AssetProps.UpdateOwnerByNFT_GetByNFT "0xee" 1 "0xbb"
              (healthy listed_world) eq_refl) as [_ Hmiss].
  fold sold in Hnil, Hget.
  assert (F : exists r, find (NftAssetStore.is_nft
                                "0x00000000000000000000000000000000000000ff" 1)
                             (nft_assets (healthy listed_world)) = Some r
                        /\ r = NftAsset.mkRow 1 "art"
                                 "0x00000000000000000000000000000000000000aa" "Qm"
                                 "https://gateway/ipfs/Qm" (Some 1)
                                 (Some "0x00000000000000000000000000000000000000ff")
                                 (Some 1) 1)
    by (eexists; split; vm_compute; reflexivity).
  assert (Fm : find (NftAssetStore.is_nft "0xee" 1) (nft_assets (healthy listed_world))
               = None) by (vm_compute; reflexivity).
  destruct F as (r & F & E). rewrite F in Hget. rewrite Fm in Hmiss.
  split; [reflexivity|]. split; [exact Hnil|].
  split; [rewrite Hget; subst r; reflexivity | exact Hmiss].
Defined.

(** The asset of listing 1001, restored, then soft-deleted and restored
    once more. *)
Lemma SoftDelete_Restore_roundtrip_witness :
  let nft := "0x00000000000000000000000000000000000000ff" in
  io restored_world = []
  /\ Forall (fun r => NftAssetStore.is_nft nft 1 r = true -> NftAsset.deleted r = 0)
            (nft_assets restored_world)
  /\ NftAsset.deleted
       <$> nft_assets (NftAssetStore.SoftDeleteByNFT nft 1 restored_world).2 = [1]
  /\ NftAssetStore.RestoreByNFT nft 1
       (NftAssetStore.SoftDeleteByNFT nft 1 restored_world).2
     = (None, restored_world).
Proof.
  intros nft.
  assert (Hund : Forall (fun r => NftAssetStore.is_nft nft 1 r = true ->
                                  NftAsset.deleted r = 0)
                        (nft_assets restored_world))
    by (repeat constructor).
  destruct (AssetProps.SoftDelete_Restore_roundtrip nft 1 restored_world eq_refl Hund)
    as (_ & _ & Hback).
  split; [reflexivity|]. split; [exact Hund|].
  split; [vm_compute; reflexivity | exact Hback].
Defined.

(** The assets the API lists for the owner of [two_assets]' second
    asset. *)
Lemma ListByOwner_selects_witness :
  (forall rows : list NftAsset.row, newest_first rows ≡ₚ rows)
  /\ io two_assets = []
  /\ exists l,
       NftAssetStore.ListByOwner newest_first "0xaa" 0 two_assets = (Ok l, two_assets)
       /\ Z.of_nat (length l) <= 50
       /\ Forall (fun a => NftAsset.Owner a = "0xaa" /\ NftAsset.Deleted a = 0) l.
Proof.
  assert (Hperm : forall rows : list NftAsset.row, newest_first rows ≡ₚ rows)
    by (intros rows; apply reverse_Permutation).
  split; [exact Hperm|]. split; [reflexivity|].
  destruct (AssetProps.ListByOwner_selects newest_first "0xaa" 0 two_assets
              Hperm eq_refl) as (l & Hl & Hlen & Hall & _).
  exists l. split; [exact Hl|]. split; [exact Hlen|].
  apply Forall_forall. intros a Ha. destruct (Hall a Ha) as (Ho & Hd & _). auto.
Defined.

(** The asset of listing 1001 after its sale to 0xbb: not in the
    seller's list, and in the buyer's. *)
Lemma UpdateOwnerByNFT_moves_listing_witness :
  let nft := "0x00000000000000000000000000000000000000ff" in
  let seller := "0x00000000000000000000000000000000000000aa" in
  let sold := (NftAssetStore.UpdateOwnerByNFT nft 1 "0xbb" (healthy listed_world)).2 in
  (forall rows : list NftAsset.row, newest_first rows ≡ₚ rows)
  /\ io (healthy listed_world) = []
  /\ NftAssetStore.ListByOwner newest_first seller 50 sold = (Ok [], sold)
  /\ exists l,
       NftAssetStore.ListByOwner newest_first "0xbb" 50 sold = (Ok l, sold)
       /\ NftAsset.mk 1 "art" "0xbb" "Qm" "https://gateway/ipfs/Qm" 1 nft 1 0 ∈ l.
Proof.
  intros nft seller sold.
  assert (Hperm : forall rows : list NftAsset.row, newest_first rows ≡ₚ rows)
    by (intros rows; apply reverse_Permutation).
  destruct (AssetProps.UpdateOwnerByNFT_moves_listing newest_first nft 1 "0xbb"
              seller 50 (healthy listed_world) Hperm eq_refl)
    as (ls & Hls & Hnot & _).
  destruct (AssetProps.UpdateOwnerByNFT_moves_listing newest_first nft 1 "0xbb"
              "0xbb" 50 (healthy listed_world) Hperm eq_refl)
    as (lb & Hlb & _ & Hin).
  fold sold in Hls, Hlb, Hin.
  split; [exact Hperm|]. split; [reflexivity|]. split.
  - rewrite Hls. f_equal. f_equal. destruct ls as [|a ls]; [reflexivity|].
    destruct (Hnot ltac:(discriminate) a ltac:(left)) as (r & Hr & _ & Hm).
    vm_compute in Hr. apply list_elem_of_singleton in Hr. subst r.
    vm_compute in Hm. discriminate.
  - exists lb. split; [exact Hlb|].
    apply (Hin eq_refl ltac:(vm_compute; discriminate)
             (NftAsset.mkRow 1 "art" seller "Qm" "https://gateway/ipfs/Qm"
                (Some 1) (Some nft) (Some 1) 1));
      [vm_compute; left | reflexivity].
Defined.

(** The duplicate check before and after the upload of [unminted]. *)
Lemma Insert_ExistsByOwnerAndURL_witness :
  io empty = []
  /\ NftAsset.Deleted unminted = 0
  /\ NftAssetStore.ExistsByOwnerAndURL "0xaa" "https://gateway/ipfs/Qm" empty
     = (Ok false, empty)
  /\ (NftAssetStore.ExistsByOwnerAndURL "0xaa" "https://gateway/ipfs/Qm"
        (NftAssetStore.Insert unminted empty).2).1 = Ok true.
Proof.
  destruct (AssetProps.Insert_ExistsByOwnerAndURL unminted empty eq_refl)
    as [Hafter Hbefore].
  split; [reflexivity|]. split; [reflexivity|].
  split; [exact (Hbefore ltac:(constructor))|].
  change (NftAsset.Owner unminted) with "0xaa" in Hafter.
  change (NftAsset.URL unminted) with "https://gateway/ipfs/Qm" in Hafter.
  now rewrite (Hafter eq_refl).
Defined.

(** A config.yaml with the legacy section only, under an environment
    that sets the DSN; and a file that does not decode. *)
Lemma loadConfig_precedence_witness :
  (exists cfg,
     Server.loadConfig (Some (inr legacy_yaml)) dsn_env = inr cfg
     /\ Server.RPCURL cfg = "https://bsc-testnet.example"
     /\ Server.MySQLDSN cfg = "env-dsn"
     /\ Server.ChainID cfg = 97)
  /\ Server.loadConfig (Some (inl (Server.ErrYaml "yaml: line 3"))) dsn_env
     = inl (Server.ErrYaml "yaml: line 3")
  /\ Server.loadConfig None dsn_env = inl Server.ErrMissingRPCURL.
Proof.
  pose proof (ServerProps.loadConfig_precedence (Some (inr legacy_yaml)) dsn_env) as Hfile.
  pose proof (ServerProps.loadConfig_precedence
                (Some (inl (Server.ErrYaml "yaml: line 3"))) dsn_env) as Hbad.
  pose proof (ServerProps.loadConfig_precedence None dsn_env) as Hnone.
  cbv beta iota zeta in Hfile, Hbad, Hnone.
  split; [|split; [exact Hbad|]].
  - destruct (Server.loadConfig (Some (inr legacy_yaml)) dsn_env) as [err|cfg].
    + destruct Hfile as [_ Hrpc]. vm_compute in Hrpc. discriminate.
    + destruct Hfile as [_ ->]. eexists. split; [reflexivity|].
      vm_compute. repeat split.
  - destruct (Server.loadConfig None dsn_env) as [err|cfg].
    + destruct Hnone as [-> _]. reflexivity.
    + destruct Hnone as [Hrpc _]. exfalso. apply Hrpc. vm_compute. reflexivity.
Defined.

(** Listing 1001 through the API, before and after its Listed log. *)
Lemma getOrder_after_Listed_witness :
  io empty = []
  /\ (Server.getOrder (pretty 1001) empty).1 = Server.JSON 404 (Server.H "error" "not found")
  /\ exists o,
       (Server.getOrder (pretty 1001) (handleListed scanner listed1001 empty).2).1
       = Server.JSON 200 (Server.OrderJSON o)
       /\ Order.OrderID o = 1 /\ Order.Status o = OrderStatusListed
       /\ Order.Price o = "1000000000000000000".
Proof.
  destruct (ServerProps.getOrder_after_Listed scanner listed1001 empty
              1 1 1000000000000000000) as [Hbefore Hafter];
    [reflexivity | simpl; lia | vm_compute; reflexivity | vm_compute; reflexivity |].
  split; [reflexivity|]. split.
  - change (Int64 (topic listed1001 1)) with 1001 in Hbefore.
    now rewrite (Hbefore eq_refl).
  - change (Int64 (topic listed1001 1)) with 1001 in Hafter.
    eexists. split; [rewrite Hafter; reflexivity|].
    vm_compute. repeat split.
Defined.

(** Mint information posted without an amount for the undeleted asset
    of [two_assets] and for a key no asset has, and posted with token
    id 0. *)
Lemma postMintInfo_outcomes_witness :
  let req := {| Server.TokenID := 7; Server.NFTAddress := "0xff"; Server.Amount := 0 |} in
  io two_assets = []
  /\ Strconv.ParseInt "2" = Some 2
  /\ (Server.postMintInfo "2" (Some req) two_assets).1
     = Server.JSON 200
         (Server.AssetJSON
            (NftAsset.mk 2 "art" "0xaa" "Qm" "https://gateway/ipfs/Qm" 7 "0xff" 1 0))
  /\ Server.postMintInfo "3" (Some req) two_assets
     = (Server.JSON 500 (Server.H "error" "db query failed"), two_assets)
  /\ Server.postMintInfo "2"
       (Some {| Server.TokenID := 0; Server.NFTAddress := "0xff"; Server.Amount := 1 |})
       two_assets
     = (Server.JSON 400 (Server.H "error" "token_id and nft_address are required"),
        two_assets).
Proof.
  intros req.
  pose proof (ServerProps.postMintInfo_outcomes "2" 2 req two_assets eq_refl eq_refl)
    as H2.
  pose proof (ServerProps.postMintInfo_outcomes "3" 3 req two_assets eq_refl eq_refl)
    as H3.
  pose proof (ServerProps.postMintInfo_outcomes "2" 2
                {| Server.TokenID := 0; Server.NFTAddress := "0xff"; Server.Amount := 1 |}
                two_assets eq_refl eq_refl) as H0.
  split; [reflexivity|]. split; [reflexivity|].
  split; [|split]; [exact H2 | exact H3 | exact H0].
Defined.

(** An upload into an empty table and the reads after it. *)
Lemma postAsset_getAsset_witness :
  let posted := Server.postAsset pinata "0xaa" "art" (Ok "art.png") None pinned empty in
  let a := NftAsset.mk 1 "art" "0xaa" "Qm" "https://gateway.pinata.cloud/ipfs/Qm"
             0 "" 0 0 in
  io empty = []
  /\ Ipfs.UploadFile pinata "art.png" pinned
     = Ok {| Ipfs.CID := "Qm"; Ipfs.URL := "https://gateway.pinata.cloud/ipfs/Qm" |}
  /\ posted.1 = Server.JSON 200 (Server.AssetJSON a)
  /\ Server.getAsset (pretty 1) posted.2 = (Server.JSON 200 (Server.AssetJSON a), posted.2)
  /\ (Server.getAssetByNFT "0xff" "0" posted.2).1
     = Server.JSON 404 (Server.H "error" "not found").
Proof.
  intros posted a.
  destruct (ServerProps.postAsset_getAsset pinata "0xaa" "art" "art.png" pinned
              {| Ipfs.CID := "Qm"; Ipfs.URL := "https://gateway.pinata.cloud/ipfs/Qm" |}
              empty) as (Hpost & Hget & _);
    [reflexivity | constructor | vm_compute; intuition discriminate
     | discriminate | discriminate | reflexivity |].
  split; [reflexivity|]. split; [reflexivity|].
  split; [exact Hpost|]. split; [exact Hget|]. vm_compute. reflexivity.
Defined.

(** The two lists of the API over [two_assets]. *)
Lemma list_routes_select_witness :
  (forall rows : list Order.row, newest_first rows ≡ₚ rows)
  /\ (forall rows : list NftAsset.row, newest_first rows ≡ₚ rows)
  /\ io two_assets = []
  /\ (exists l,
        Server.getOrders newest_first two_assets
        = (Server.JSON 200 (Server.OrdersJSON l), two_assets)
        /\ (length l <= 50)%nat)
  /\ (exists l,
        Server.getAssets newest_first "0xaa" two_assets
        = (Server.JSON 200 (Server.AssetsJSON l), two_assets)
        /\ Forall (fun a => NftAsset.Owner a = "0xaa" /\ NftAsset.Deleted a = 0) l)
  /\ Server.getAssets newest_first "" two_assets
     = (Server.JSON 400 (Server.H "error" "owner query param is required"), two_assets).
Proof.
  assert (Hpo : forall rows : list Order.row, newest_first rows ≡ₚ rows)
    by (intros rows; apply reverse_Permutation).
  assert (Hpa : forall rows : list NftAsset.row, newest_first rows ≡ₚ rows)
    by (intros rows; apply reverse_Permutation).
  destruct (ServerProps.list_routes_select newest_first newest_first "0xaa" two_assets
              Hpo Hpa eq_refl) as ((lo & Hlo & Hlen & _) & Hassets & Hnone).
  destruct (Hassets ltac:(discriminate)) as (la & Hla & _ & Hall).
  split; [exact Hpo|]. split; [exact Hpa|]. split; [reflexivity|].
  split; [exists lo; auto|]. split; [exists la; auto|]. apply Hnone.
Defined.

End Examples.
